(** * pi_atecc: the ATECC608A protocol engine of [src/pi_atecc.c]

    A shallow embedding of the driver's checksum engine, command framer,
    response readers and command library, with the I2C character device
    taken as an injected capability.

    Conventions:
    - a [uint8_t], [uint16_t], [uint64_t] or [size_t] value is a [Z] and
      every store into such an object is written with its wrap-around
      ([uint8], [uint16], [uint64]);
    - a byte buffer is a [list Z];
    - a pointer argument that may be [NULL] is an [option] of the memory it
      points to;
    - a function that returns [bool] in C returns [result]: [Ok] for
      [true], and [Err] with the site of the [return false] (its [errno]
      or diagnostic) for [false];
    - [sleep_ms]/[usleep] delays have no effect on the data and are left
      out. *)

From Stdlib Require Import ZArith List Lia Bool.
From Equations Require Import Equations.
Import ListNotations.
Open Scope Z_scope.

(** ** Fixed-width integers *)

Definition uint8 (x : Z) : Z := x mod 256.
Definition uint16 (x : Z) : Z := x mod 65536.
Definition uint64 (x : Z) : Z := x mod 2 ^ 64.

Definition is_byte (b : Z) : Prop := 0 <= b < 256.

(** ** Constants of [pi_atecc.h] *)

Definition ATECC_CMD_SIZE : Z := 128.
Definition ATECC_RESPONSE_SIZE : Z := 128.
Definition ATECC_WAKE_TOKEN : Z := 0x00.
Definition ATECC_CMD_SLEEP : Z := 0x01.
Definition ATECC_CMD_READ : Z := 0x02.
Definition ATECC_CMD_RANDOM : Z := 0x1B.
Definition ATECC_CMD_SHA : Z := 0x47.
Definition ATECC_STATUS_SUCCESS : Z := 0x00.
Definition ATECC_STATUS_WAKE : Z := 0x11.
Definition ATECC_SERIAL_NUMBER_SIZE : Z := 9.
Definition ATECC_WORDADDR_CMD : Z := 0x03.

(** [errno] values of Linux that the driver names. *)
Definition EIO : Z := 5.
Definition EINVAL : Z := 22.
Definition EREMOTEIO : Z := 121.

(** ** Checksum engine *)

Module Crc.

Definition polynom : Z := 0x8005.

(** The values [shift_register] takes in the inner loop
    [for (shift_register = 0x01; shift_register > 0x00u; shift_register <<= 1)]. *)
Definition shift_registers : list Z :=
  [0x01; 0x02; 0x04; 0x08; 0x10; 0x20; 0x40; 0x80].

(** Body of the inner loop of [calc_crc16_ccitt] for one [shift_register]. *)
Definition crc_bit_step (byte crc_register shift_register : Z) : Z :=
  let data_bit := if Z.land byte shift_register =? 0 then 0 else 1 in
  let crc_bit := uint8 (Z.shiftr crc_register 15) in
  let crc_register := uint16 (Z.shiftl crc_register 1) in
  if data_bit =? crc_bit then crc_register else Z.lxor crc_register polynom.

(** The inner loop for [data[counter] = byte]. *)
Definition crc_byte (crc_register byte : Z) : Z :=
  fold_left (crc_bit_step byte) shift_registers crc_register.

(** The outer loop over [data[0 .. length-1]], from a given register. *)
Definition crc_bytes (crc_register : Z) (data : list Z) : Z :=
  fold_left crc_byte data crc_register.

(** [calc_crc16_ccitt(length, data, crc_le)]: the two bytes stored in
    [crc_le]. *)
Definition calc_crc16_ccitt (length : Z) (data : list Z) : list Z :=
  let crc_register := crc_bytes 0 (firstn (Z.to_nat length) data) in
  [uint8 (Z.land crc_register 0x00FF); uint8 (Z.shiftr crc_register 8)].

(** [compute_crc(uint8_t length, data, crc)]: the length is narrowed to 8
    bits by the parameter type. *)
Definition compute_crc (length : Z) (data : list Z) : list Z :=
  calc_crc16_ccitt (uint8 length) data.

(** [validate_crc(response, length)]. *)
Definition validate_crc (response : list Z) (length : Z) : bool :=
  if length <? 3 then false
  else
    let computed_crc := compute_crc (length - 2) response in
    (nth 0 computed_crc 0 =? nth (Z.to_nat (length - 2)) response 0)
    && (nth 1 computed_crc 0 =? nth (Z.to_nat (length - 1)) response 0).

(** *** The checksum as the specification words it *)

(** One bit: shift the register left and XOR the polynomial in when the
    input bit and the register's top bit disagree. *)
Definition spec_shift_xor (register : Z) (input_bit : bool) : Z :=
  let top_bit := Z.testbit register 15 in
  let shifted := (2 * register) mod 2 ^ 16 in
  if xorb input_bit top_bit then Z.lxor shifted 0x8005 else shifted.

(** The bits of a byte, least-significant first. *)
Definition spec_bits (byte : Z) : list bool :=
  map (fun i => Z.testbit byte (Z.of_nat i)) (seq 0 8).

Definition spec_register (register : Z) (bytes : list Z) : Z :=
  fold_left spec_shift_xor (flat_map spec_bits bytes) register.

(** Register initialised to 0, result little-endian. *)
Definition spec_checksum (bytes : list Z) : list Z :=
  let register := spec_register 0 bytes in
  [register mod 256; register / 256].

(** The values of the 16-bit register. *)
Definition is_reg (r : Z) : Prop := 0 <= r < 65536.

(** A frame with bit [bit] of byte [index] inverted. *)
Fixpoint flip_bit (frame : list Z) (index bit : nat) : list Z :=
  match frame, index with
  | [], _ => []
  | b :: rest, O => Z.lxor b (2 ^ Z.of_nat bit) :: rest
  | b :: rest, S index' => b :: flip_bit rest index' bit
  end.

End Crc.

(** ** Bus transport and driver state *)

(** One [struct i2c_msg] handed to [ioctl(fd, I2C_RDWR, ...)]: a write of
    [buf] ([flags = 0]) or a read of [len] bytes ([flags = I2C_M_RD]). *)
Inductive i2c_msg : Type :=
| I2cWrite (buf : list Z)
| I2cRead (len : Z).

(** What one [ioctl] call does: it returns a non-negative value, having
    delivered [rx] into the buffer of a read message, or it returns a
    negative value with [errno] set and the buffer untouched. *)
Inductive ioctl_result : Type :=
| IoctlDone (rx : list Z)
| IoctlFailed (errno : Z).

(** The bus is an injected capability: any function from the history of
    transactions (the current one last) to the outcome of the current one. *)
Definition device : Type := list i2c_msg -> ioctl_result.

(** Lines the driver prints on standard output that carry data: the wake
    response, the serial number, the mapped random number, the digest and
    the lines of [debug_crc_mismatch].  What [generate_random_value],
    [read_slot_config], [read_config_zone] and [check_lock_status] print is
    not kept on the console: those operations return the value they print
    (for [check_lock_status], the lock state it announces). *)
Inductive print : Type :=
| PrintWakeResponse (response : list Z)
| PrintSerialNumber (serial : list Z)
| PrintRandomInRange (min max mapped_value : Z)
| PrintSha256 (digest : list Z)
| PrintExpectedCrc (crc_0 crc_1 : Z)     (* Expected CRC: %02X %02X *)
| PrintComputedCrc (crc_0 crc_1 : Z)     (* Computed CRC: %02X %02X *)
| PrintCrcMatch                          (* CRC MATCH *)
| PrintCrcMismatch.                      (* CRC MISMATCH *)

Record state : Type := mkState {
  wire : list i2c_msg;      (* transactions issued so far *)
  console : list print      (* lines printed so far *)
}.

(** Every [return false] of the driver, with what it reports. *)
Inductive failure : Type :=
| InvalidArgument                        (* errno = EINVAL *)
| I2cWriteFailed (errno : Z)             (* perror: I2C write failed *)
| I2cReadFailed (errno : Z)              (* perror: I2C read failed *)
| InvalidCount (count : Z)               (* invalid count byte / length *)
| DeviceStatus (status : Z)              (* device status 0x%02X *)
| NoDataReturned                         (* no data returned *)
| ShortResponse (expected available : Z) (* expected %zu bytes, got %zu *)
| InvalidWakeResponse (received : list Z)
| UnexpectedLength (count : Z)           (* unexpected response length *)
| CrcValidationFailed (expected computed : list Z)
| LockPayloadTooShort
| UnknownLockState (lock_config lock_value : Z).

Inductive result (A : Type) : Type :=
| Ok (a : A)
| Err (e : failure).
Arguments Ok {A} a.
Arguments Err {A} e.

(** The driver monad: state passing, with failure ending the operation. *)
Definition M (A : Type) : Type := state -> result A * state.

Definition ret {A} (a : A) : M A := fun st => (Ok a, st).
Definition fail {A} (e : failure) : M A := fun st => (Err e, st).
Definition bind {A B} (m : M A) (k : A -> M B) : M B :=
  fun st =>
    match m st with
    | (Ok a, st') => k a st'
    | (Err e, st') => (Err e, st')
    end.

Notation "x <- m ;; k" := (bind m (fun x => k))
  (at level 61, m at next level, right associativity).
Notation "m ;;; k" := (bind m (fun _ => k))
  (at level 61, right associativity).

(** [ioctl(fd, I2C_RDWR, &data)] with the single message [msg]. *)
Definition ioctl (dev : device) (msg : i2c_msg) : M ioctl_result :=
  fun st =>
    let history := wire st ++ [msg] in
    (Ok (dev history), mkState history (console st)).

Definition printf (line : print) : M unit :=
  fun st => (Ok tt, mkState (wire st) (console st ++ [line])).

(** [errno != EIO && errno != EREMOTEIO] *)
Definition not_tolerated (errno : Z) : bool :=
  negb (errno =? EIO) && negb (errno =? EREMOTEIO).

(** [memcpy(dst, src, n)]: the first [n] bytes of [dst] replaced. *)
Definition memcpy (dst src : list Z) (n : Z) : list Z :=
  firstn (Z.to_nat n) src ++ skipn (Z.to_nat n) dst.

(** The buffer of a read message of [len] bytes after the transaction. *)
Definition read_buffer (buf : list Z) (len : Z) (r : ioctl_result) : list Z :=
  match r with
  | IoctlDone rx =>
      let delivered := firstn (Z.to_nat len) rx in
      memcpy buf delivered (Z.of_nat (length delivered))
  | IoctlFailed _ => buf
  end.

(** [&p[offset]] for a pointer that may be [NULL]. *)
Definition ptr_add (p : option (list Z)) (offset : Z) : option (list Z) :=
  option_map (skipn (Z.to_nat offset)) p.

(** [debug_crc_mismatch(data, length, expected_crc)]: the three lines it
    prints on standard output. *)
Definition debug_crc_mismatch (data : list Z) (length : Z)
    (expected_crc : list Z) : M unit :=
  let computed_crc := Crc.compute_crc (length - 2) data in
  printf (PrintExpectedCrc (nth 0 expected_crc 0) (nth 1 expected_crc 0)) ;;;
  printf (PrintComputedCrc (nth 0 computed_crc 0) (nth 1 computed_crc 0)) ;;;
  if (nth 0 computed_crc 0 =? nth 0 expected_crc 0)
     && (nth 1 computed_crc 0 =? nth 1 expected_crc 0)
  then printf PrintCrcMatch
  else printf PrintCrcMismatch.

(** ** Command framer *)

(** The array [command] of [send_atecc_cmd] once the checksum is stored:
    count, opcode, param1, param2 (little-endian), payload, checksum. *)
Definition build_command (opcode param1 param2 : Z) (payload : list Z)
    (data_len : Z) : list Z :=
  let command :=
    [uint8 (0x07 + data_len); opcode; param1;
     uint8 (Z.land param2 0xFF); uint8 (Z.land (Z.shiftr param2 8) 0xFF)]
    ++ payload in
  command ++ Crc.calc_crc16_ccitt (5 + data_len) command.

(** [if (data_len > 0) { if (data == NULL) fail; memcpy(&command[5], data,
    data_len); }]: the bytes copied into the frame.  [data] addresses at
    least [data_len] bytes. *)
Definition copy_payload (data : option (list Z)) (data_len : Z) : M (list Z) :=
  if 0 <? data_len then
    match data with
    | None => fail InvalidArgument
    | Some bytes => ret (firstn (Z.to_nat data_len) bytes)
    end
  else ret [].

Definition send_atecc_cmd (dev : device) (opcode param1 param2 : Z)
    (data : option (list Z)) (data_len : Z) : M unit :=
  if data_len >? ATECC_CMD_SIZE - 7 then fail InvalidArgument
  else
    payload <- copy_payload data data_len ;;
    let command := build_command opcode param1 param2 payload data_len in
    let full_command := ATECC_WORDADDR_CMD :: command in
    r <- ioctl dev (I2cWrite full_command) ;;
    match r with
    | IoctlFailed errno =>
        if not_tolerated errno then fail (I2cWriteFailed errno) else ret tt
    | IoctlDone _ => ret tt
    end.

(** ** Response reader *)

(** Second half of [receive_atecc_response] (from [uint8_t count =
    response[0]] on): the decision taken on the [response] array, and on
    success [buffer] after the [memcpy].  (For a [length] above 127 the C
    [memcpy] would read past [response]; no caller asks for more than 32.) *)
Definition extract_payload (response buffer : list Z) (length : Z)
    : result (list Z) :=
  let count := nth 0 response 0 in
  if count <? 4 then Err (InvalidCount count)
  else if count =? 4 then
    let status := nth 1 response 0 in
    if negb (status =? ATECC_STATUS_SUCCESS) then Err (DeviceStatus status)
    else Err NoDataReturned
  else
    let available := count - 1 in
    if available <? length then Err (ShortResponse length available)
    else Ok (memcpy buffer (skipn 1 response) length).

(** The length of the read message of [receive_atecc_response]. *)
Definition response_read_length (length : Z) (full_response : bool) : Z :=
  let read_length :=
    if full_response then uint64 (length + 3) else uint64 (length + 1) in
  let read_length :=
    if read_length >? ATECC_RESPONSE_SIZE then ATECC_RESPONSE_SIZE
    else read_length in
  uint16 read_length.

(** [receive_atecc_response(fd, buffer, length, full_response)]; on success
    the value is [buffer] after the [memcpy]. *)
Definition receive_atecc_response (dev : device) (buffer : option (list Z))
    (length : Z) (full_response : bool) : M (list Z) :=
  match buffer with
  | None => fail InvalidArgument
  | Some buffer =>
      if length =? 0 then fail InvalidArgument
      else
        let response := repeat 0 (Z.to_nat ATECC_RESPONSE_SIZE) in
        let len := response_read_length length full_response in
        r <- ioctl dev (I2cRead len) ;;
        match r with
        | IoctlFailed errno =>
            if not_tolerated errno then fail (I2cReadFailed errno) else ret tt
        | IoctlDone _ => ret tt
        end ;;;
        let response := read_buffer response len r in
        fun st => (extract_payload response buffer length, st)
  end.

(** ** Session sequencer *)

Definition atecc_wake (dev : device) : M unit :=
  let wake_token := [ATECC_WAKE_TOKEN] in
  r <- ioctl dev (I2cWrite wake_token) ;;
  match r with
  | IoctlFailed errno =>
      if not_tolerated errno then fail (I2cWriteFailed errno) else ret tt
  | IoctlDone _ => ret tt
  end ;;;
  let response := repeat 0 4%nat in
  r <- ioctl dev (I2cRead 4) ;;
  match r with
  | IoctlFailed errno => fail (I2cReadFailed errno)
  | IoctlDone _ => ret tt
  end ;;;
  let response := read_buffer response 4 r in
  if negb (nth 0 response 0 =? 0x04) || negb (nth 1 response 0 =? ATECC_STATUS_WAKE)
  then fail (InvalidWakeResponse response)
  else printf (PrintWakeResponse response).

Definition atecc_sleep (dev : device) : M unit :=
  let sleep_cmd := ATECC_CMD_SLEEP in
  r <- ioctl dev (I2cWrite [sleep_cmd]) ;;
  match r with
  | IoctlFailed errno => fail (I2cWriteFailed errno)
  | IoctlDone _ => ret tt
  end.

(** ** Command library *)

(** [read_atecc_serial_number(fd, serial_number)].  The value paired with
    the outcome is the caller's [serial_number] buffer after the call. *)
Definition read_atecc_serial_number (dev : device)
    (serial_number : option (list Z)) (st : state)
    : (result unit * option (list Z)) * state :=
  match serial_number with
  | None => ((Err InvalidArgument, serial_number), st)
  | Some _ =>
      let serial := repeat 0 (Z.to_nat ATECC_SERIAL_NUMBER_SIZE) in
      let last_response := repeat 0 4%nat in
      let body : M unit :=
        send_atecc_cmd dev ATECC_CMD_READ 0x00 0x0000 None 0 ;;;
        serial_0 <- receive_atecc_response dev (ptr_add (Some serial) 0) 4 true ;;
        let serial := firstn 0 serial ++ serial_0 in
        send_atecc_cmd dev ATECC_CMD_READ 0x00 0x0002 None 0 ;;;
        serial_4 <- receive_atecc_response dev (ptr_add (Some serial) 4) 4 true ;;
        let serial := firstn 4 serial ++ serial_4 in
        send_atecc_cmd dev ATECC_CMD_READ 0x00 0x0003 None 0 ;;;
        last_response <- receive_atecc_response dev (Some last_response) 4 true ;;
        let serial := firstn 8 serial ++ nth 0 last_response 0 :: skipn 9 serial in
        printf (PrintSerialNumber serial) in
      let (r, st') := body st in
      ((r, serial_number), st')
  end.

(** [map_random_to_range(random_bytes, min, max)].  With [max - min + 1]
    wrapping to 0 the C program divides by zero; [Z.modulo] then returns
    its first argument. *)
Definition map_random_to_range (random_bytes : list Z) (min max : Z) : Z :=
  let random_value :=
    fold_left
      (fun random_value i =>
         uint64 (Z.lor (Z.shiftl random_value 8) (nth i random_bytes 0)))
      (seq 0 8) 0 in
  uint64 (min + random_value mod uint64 (max - min + 1)).

Definition genrate_random_number_in_range (dev : device) (min max : Z)
    : M unit :=
  let resp := repeat 0 32%nat in
  send_atecc_cmd dev ATECC_CMD_RANDOM 0x00 0x0000 None 0 ;;;
  resp <- receive_atecc_response dev (Some resp) 32 true ;;
  let mapped_value := map_random_to_range (skipn 1 resp) min max in
  printf (PrintRandomInRange min max mapped_value).

(** The update loop of [compute_sha256]:
    [while ((data_len - offset) >= 64U) { send; offset += 64U; }],
    in [size_t] arithmetic.  The value is [offset] when the loop is left. *)
Equations? sha256_update_loop (dev : device) (data : option (list Z))
    (data_len offset : Z) (st : state) : result Z * state
    by wf (Z.to_nat (uint64 (data_len - offset))) lt :=
  sha256_update_loop dev data data_len offset st
    with Z_le_dec 64 (uint64 (data_len - offset)) => {
    | right _ => (Ok offset, st)
    | left _
        with send_atecc_cmd dev ATECC_CMD_SHA 0x01 0x0000
               (ptr_add data offset) (uint8 64) st => {
        | (Err e, st') => (Err e, st')
        | (Ok _, st') =>
            sha256_update_loop dev data data_len (uint64 (offset + 64)) st' } }.
Proof.
  unfold uint64 in *.
  rewrite Zminus_mod_idemp_r.
  replace (data_len - (offset + 64)) with (data_len - offset - 64) by lia.
  rewrite <- Zminus_mod_idemp_l.
  pose proof (Z.mod_pos_bound (data_len - offset) (2 ^ 64) ltac:(lia)).
  rewrite (Z.mod_small (_ - 64)) by lia.
  lia.
Qed.

(** Last part of [compute_sha256] (from [uint8_t response[35]] on): the
    read of the 35-byte response, its checks, and [output] after the
    [memcpy]. *)
Definition sha256_response (dev : device) (output : list Z) : M (list Z) :=
  let response := repeat 0 35%nat in
  r <- ioctl dev (I2cRead 35) ;;
  match r with
  | IoctlFailed errno => fail (I2cReadFailed errno)
  | IoctlDone _ => ret tt
  end ;;;
  let response := read_buffer response 35 r in
  let count := nth 0 response 0 in
  if negb (count =? 0x23) || (count >? 35) || (count <? 3)
  then fail (InvalidCount count)
  else if negb (Crc.validate_crc response count)
  then
    debug_crc_mismatch response count
      (skipn (Z.to_nat (count - 2)) response) ;;;
    fail (CrcValidationFailed
            (firstn 2 (skipn (Z.to_nat (count - 2)) response))
            (Crc.compute_crc (count - 2) response))
  else
    let output := memcpy output (skipn 1 response) 32 in
    printf (PrintSha256 (firstn 32 output)) ;;;
    ret output.

(** [compute_sha256(fd, data, data_len, output)]; on success the value is
    [output] after the [memcpy]. *)
Definition compute_sha256 (dev : device) (data : option (list Z))
    (data_len : Z) (output : option (list Z)) : M (list Z) :=
  match output with
  | None => fail InvalidArgument
  | Some output =>
      if (match data with None => true | Some _ => false end)
         && negb (data_len =? 0)
      then fail InvalidArgument
      else
        send_atecc_cmd dev ATECC_CMD_SHA 0x00 0x0000 None 0 ;;;
        offset <- sha256_update_loop dev data data_len 0 ;;
        let remaining := uint8 (uint64 (data_len - offset)) in
        let final_block := if 0 <? remaining then ptr_add data offset else None in
        send_atecc_cmd dev ATECC_CMD_SHA 0x02 (uint16 remaining)
          final_block remaining ;;;
        sha256_response dev output
  end.

(** The lock decision at the end of [check_lock_status]. *)
Inductive lock_state : Type :=
| FullyLocked          (* FULLY LOCKED (Config & Data) *)
| Unlocked             (* UNLOCKED *)
| PartiallyLocked.     (* PARTIALLY LOCKED (Config Locked, Data Open) *)

Definition decode_lock (lock_config lock_value : Z) : result lock_state :=
  if (lock_config =? 0x00) && (lock_value =? 0x00) then Ok FullyLocked
  else if (lock_config =? 0x55) && (lock_value =? 0x55) then Ok Unlocked
  else if (lock_config =? 0x00) && (lock_value =? 0x55) then Ok PartiallyLocked
  else Err (UnknownLockState lock_config lock_value).

(** [check_lock_status(fd)]; the value on success is the state announced
    on the console, and the failure for an unrecognised pair stands for the
    "UNKNOWN LOCK STATE" line. *)
Definition check_lock_status (dev : device) : M lock_state :=
  let raw := repeat 0 7%nat in
  let lock_bytes := repeat 0 4%nat in
  let expected_address := 0x15 in
  send_atecc_cmd dev ATECC_CMD_READ 0x00 expected_address None 0 ;;;
  r <- ioctl dev (I2cRead 7) ;;
  match r with
  | IoctlFailed errno =>
      if not_tolerated errno then fail (I2cReadFailed errno) else ret tt
  | IoctlDone _ => ret tt
  end ;;;
  let raw := read_buffer raw 7 r in
  let count := nth 0 raw 0 in
  if (count >? 7) || (count <? 4) then fail (InvalidCount count)
  else if negb (Crc.validate_crc raw count)
  then
    debug_crc_mismatch raw count (skipn (Z.to_nat (count - 2)) raw) ;;;
    fail (CrcValidationFailed
            (firstn 2 (skipn (Z.to_nat (count - 2)) raw))
            (Crc.compute_crc (count - 2) raw))
  else
    let data_len := count - 3 in
    if data_len <? 4 then fail LockPayloadTooShort
    else
      let lock_bytes := memcpy lock_bytes (skipn 1 raw) 4 in
      let lock_config := nth 0 lock_bytes 0 in
      let lock_value := nth 1 lock_bytes 0 in
      fun st => (decode_lock lock_config lock_value, st).

(** Block cipher. *)
Definition AES_BLOCK_SIZE : Z := 16.
Definition AES_RESPONSE_SIZE : Z := 1 + AES_BLOCK_SIZE + 2.

(** [receive_aes_response(fd, output_data)]; on success the value is
    [output_data] after the [memcpy]. *)
Definition receive_aes_response (dev : device) (fd : Z)
    (output_data : option (list Z)) : M (list Z) :=
  match output_data with
  | None => fail InvalidArgument
  | Some output_data =>
      if fd <? 0 then fail InvalidArgument
      else
        let response := repeat 0 (Z.to_nat AES_RESPONSE_SIZE) in
        r <- ioctl dev (I2cRead AES_RESPONSE_SIZE) ;;
        match r with
        | IoctlFailed errno =>
            if not_tolerated errno then fail (I2cReadFailed errno) else ret tt
        | IoctlDone _ => ret tt
        end ;;;
        let response := read_buffer response AES_RESPONSE_SIZE r in
        let count := nth 0 response 0 in
        if count <? 4 then fail (InvalidCount count)
        else if count =? 4 then fail (DeviceStatus (nth 1 response 0))
        else if count >? AES_RESPONSE_SIZE then fail (UnexpectedLength count)
        else if negb (count =? AES_RESPONSE_SIZE) then fail (UnexpectedLength count)
        else if negb (Crc.validate_crc response count)
        then
          debug_crc_mismatch response count
            (skipn (Z.to_nat (count - 2)) response) ;;;
          fail (CrcValidationFailed
                  (firstn 2 (skipn (Z.to_nat (count - 2)) response))
                  (Crc.compute_crc (count - 2) response))
        else ret (memcpy output_data (skipn 1 response) AES_BLOCK_SIZE)
  end.

(** [generate_random_value(fd, length)]; the value on success is the
    [length] bytes printed. *)
Definition generate_random_value (dev : device) (length : Z) : M (list Z) :=
  let resp := repeat 0 32%nat in
  if length >? 32 - 1 then fail InvalidArgument
  else
    send_atecc_cmd dev ATECC_CMD_RANDOM 0x00 0x0000 None 0 ;;;
    resp <- receive_atecc_response dev (Some resp) length true ;;
    ret (firstn (Z.to_nat length) resp).

(** [read_slot_config(fd, slot)]; the value on success is the four bytes
    printed, [raw[0]] to [raw[3]]. *)
Definition read_slot_config (dev : device) (slot : Z) : M (list Z) :=
  let raw := repeat 0 7%nat in
  send_atecc_cmd dev ATECC_CMD_READ 0x00 slot None 0 ;;;
  r <- ioctl dev (I2cRead 7) ;;
  match r with
  | IoctlFailed errno =>
      if not_tolerated errno then fail (I2cReadFailed errno) else ret tt
  | IoctlDone _ => ret tt
  end ;;;
  let raw := read_buffer raw 7 r in
  let count := nth 0 raw 0 in
  if (count >? 7) || (count <? 4) then fail (InvalidCount count)
  else if negb (Crc.validate_crc raw count)
  then
    debug_crc_mismatch raw count (skipn (Z.to_nat (count - 2)) raw) ;;;
    fail (CrcValidationFailed
            (firstn 2 (skipn (Z.to_nat (count - 2)) raw))
            (Crc.compute_crc (count - 2) raw))
  else ret (firstn 4 raw).

(** The loop of [read_config_zone],
    [for (uint8_t block = 0; block < BLOCK_COUNT; ++block)], with
    [remaining] turns left from [block] on; the value is [config_data]. *)
Fixpoint read_config_blocks (dev : device) (remaining : nat) (block : Z)
    (config_data : list Z) : M (list Z) :=
  match remaining with
  | O => ret config_data
  | S remaining' =>
      send_atecc_cmd dev ATECC_CMD_READ 0x00 block None 0 ;;;
      let block_data := repeat 0 4%nat in
      block_data <- receive_atecc_response dev (Some block_data) 4 true ;;
      let config_data :=
        firstn (Z.to_nat (block * 4)) config_data
        ++ memcpy (skipn (Z.to_nat (block * 4)) config_data) block_data 4 in
      read_config_blocks dev remaining' (uint8 (block + 1)) config_data
  end.

(** [read_config_zone(fd)]; the value on success is the 128 bytes printed. *)
Definition read_config_zone (dev : device) : M (list Z) :=
  let config_data := repeat 0 128%nat in
  read_config_blocks dev 32 0 config_data.

(** [send_aes_command(fd, mode, key_slot, input_data)]. *)
Definition send_aes_command (dev : device) (fd mode key_slot : Z)
    (input_data : option (list Z)) : M unit :=
  if (fd <? 0) || (match input_data with None => true | Some _ => false end)
  then fail InvalidArgument
  else
    send_atecc_cmd dev 0x51 mode (uint16 (Z.land key_slot 0xFF))
      input_data AES_BLOCK_SIZE.

(** [aes_encrypt(fd, plaintext, ciphertext, key_slot)]; on success the value
    is [ciphertext] after the call. *)
Definition aes_encrypt (dev : device) (fd : Z) (plaintext : option (list Z))
    (ciphertext : option (list Z)) (key_slot : Z) : M (list Z) :=
  if (fd <? 0)
     || (match plaintext with None => true | Some _ => false end)
     || (match ciphertext with None => true | Some _ => false end)
  then fail InvalidArgument
  else
    send_aes_command dev fd 0x00 key_slot plaintext ;;;
    receive_aes_response dev fd ciphertext.

(** [aes_decrypt(fd, ciphertext, plaintext, key_slot)]; on success the value
    is [plaintext] after the call. *)
Definition aes_decrypt (dev : device) (fd : Z) (ciphertext : option (list Z))
    (plaintext : option (list Z)) (key_slot : Z) : M (list Z) :=
  if (fd <? 0)
     || (match ciphertext with None => true | Some _ => false end)
     || (match plaintext with None => true | Some _ => false end)
  then fail InvalidArgument
  else
    send_aes_command dev fd 0x01 key_slot ciphertext ;;;
    receive_aes_response dev fd plaintext.

(** ** Test program *)

(** [strlen((const char * )s)] on an array that holds a zero byte. *)
Fixpoint strlen (s : list Z) : Z :=
  match s with
  | [] => 0
  | c :: rest => if c =? 0 then 0 else 1 + strlen rest
  end.

(** [if (!op) { fprintf(stderr, ...); }] with no [return]: the failure is
    reported and the program goes on. *)
Definition report_only {A} (m : M A) : M unit :=
  fun st => (Ok tt, snd (m st)).

(** [main] from the wake to the decryption; a failure of a step is
    [close(fd); return 1;].  The lines [main] itself prints are left out,
    as is the [memcmp] of the decrypted text, which only chooses between
    two of them. *)
Definition main_steps (dev : device) (fd : Z) : M unit :=
  atecc_wake dev ;;;
  let serial_number := repeat 0 (Z.to_nat ATECC_SERIAL_NUMBER_SIZE) in
  serial_number <-
    (fun st =>
       match read_atecc_serial_number dev (Some serial_number) st with
       | ((Ok _, Some after), st') => (Ok after, st')
       | ((Ok _, None), st') => (Ok serial_number, st')
       | ((Err e, _), st') => (Err e, st')
       end) ;;
  genrate_random_number_in_range dev 0 10000000 ;;;
  generate_random_value dev 16 ;;;
  let sha_output := repeat 0 32%nat in
  compute_sha256 dev (Some serial_number) (strlen serial_number)
    (Some sha_output) ;;;
  report_only (read_slot_config dev 3) ;;;
  read_config_zone dev ;;;
  check_lock_status dev ;;;
  let plaintext :=
    [0x48; 0x65; 0x6C; 0x6C; 0x6F; 0x2C; 0x20; 0x41;
     0x45; 0x53; 0x21; 0x00; 0x00; 0x00; 0x00; 0x00] in
  let ciphertext := repeat 0 16%nat in
  let decrypted_text := repeat 0 16%nat in
  let key_slot := 0x03 in
  ciphertext <- aes_encrypt dev fd (Some plaintext) (Some ciphertext) key_slot ;;
  aes_decrypt dev fd (Some ciphertext) (Some decrypted_text) key_slot ;;;
  ret tt.

(** [main()], with [fd] the result of [open] and [slave] the result of
    [ioctl(fd, I2C_SLAVE, ATECC_I2C_ADDRESS)]; the value is the exit
    status. *)
Definition main (dev : device) (fd slave : Z) (st : state) : Z * state :=
  if fd <? 0 then (1, st)
  else if slave <? 0 then (1, st)
  else
    match main_steps dev fd st with
    | (Err _, st') => (1, st')
    | (Ok _, st') =>
        let (_, st'') := report_only (atecc_sleep dev) st' in
        (0, st'')
    end.

(** ** Vocabulary of the statements *)

(** A payload argument within the size limits of the framer: at most
    [ATECC_CMD_SIZE - 7] bytes, [NULL] only with a zero length, and a
    pointer that addresses at least the declared length. *)
Definition within_size_limits (data : option (list Z)) (data_len : Z) : Prop :=
  0 <= data_len <= ATECC_CMD_SIZE - 7
  /\ match data with
     | Some bytes => data_len <= Z.of_nat (length bytes)
     | None => data_len = 0
     end.

(** The bus accepts every write: none fails with an [errno] other than the
    two the framer lets pass. *)
Definition writes_accepted (dev : device) : Prop :=
  forall history frame errno,
    dev (history ++ [I2cWrite frame]) = IoctlFailed errno ->
    not_tolerated errno = false.

(** The phases of the streaming hash as the specification words them:
    (phase byte, param2, payload) for one start, one update per whole
    64-byte chunk, and one end with the remaining bytes. *)
Definition update_phase (input : list Z) (k : nat) : Z * Z * list Z :=
  (1, 0, firstn 64 (skipn (64 * k) input)).

Definition spec_sha256_phases (input : list Z) : list (Z * Z * list Z) :=
  let n := length input in
  [(0, 0, [])]
  ++ map (update_phase input) (seq 0 (n / 64))
  ++ [(2, Z.of_nat (n mod 64), skipn (64 * (n / 64)) input)].

(** The write transaction that carries one phase. *)
Definition phase_write (phase : Z * Z * list Z) : i2c_msg :=
  let '(phase_byte, param2, payload) := phase in
  I2cWrite (ATECC_WORDADDR_CMD ::
            build_command ATECC_CMD_SHA phase_byte param2 payload
              (Z.of_nat (length payload))).

(** Bytes read as one big-endian integer. *)
Definition big_endian (bytes : list Z) : Z :=
  fold_left (fun value byte => 256 * value + byte) bytes 0.

(** The [response] array a reader holds after its read of [len] bytes,
    issued after the transactions [history]. *)
Definition response_after (dev : device) (history : list i2c_msg)
    (size : nat) (len : Z) : list Z :=
  read_buffer (repeat 0 size) len (dev (history ++ [I2cRead len])).

(** The two [errno] values a tolerant transaction lets pass. *)
Definition tolerable (errno : Z) : Prop := errno = EIO \/ errno = EREMOTEIO.

(** What a transaction adds to the state. *)
Definition issued (st : state) (msg : i2c_msg) : state :=
  mkState (wire st ++ [msg]) (console st).

(** A bus on which every transaction completes and reads deliver nothing,
    and the state before any transaction. *)
Definition idle_bus : device := fun _ => IoctlDone [].
Definition power_on : state := mkState [] [].


(** The read command for one word address, and the transactions of the
    block reads of a list of word addresses: the command, then a read of
    seven bytes. *)
Definition read_command (address : Z) : i2c_msg :=
  I2cWrite (ATECC_WORDADDR_CMD ::
            build_command ATECC_CMD_READ 0x00 address [] 0).

Definition block_reads (blocks : list nat) : list i2c_msg :=
  flat_map (fun block => [read_command (Z.of_nat block); I2cRead 7]) blocks.

(** Whether the write [msg], issued after [history], lets a tolerant
    sender go on: it completed, or failed with [EIO] or [EREMOTEIO]. *)
Definition command_accepted (dev : device) (history : list i2c_msg)
    (msg : i2c_msg) : bool :=
  match dev (history ++ [msg]) with
  | IoctlDone _ => true
  | IoctlFailed errno => negb (not_tolerated errno)
  end.

(** Whether each of the writes [msgs], issued in order after [history], is
    accepted. *)
Fixpoint all_accepted (dev : device) (history : list i2c_msg)
    (msgs : list i2c_msg) : bool :=
  match msgs with
  | [] => true
  | msg :: rest =>
      command_accepted dev history msg
      && all_accepted dev (history ++ [msg]) rest
  end.

(** Whether the device, after [history], answers the read of one block of
    the configuration zone: the command is accepted and the count byte of
    the response exceeds 4. *)
Definition block_answered (dev : device) (history : list i2c_msg)
    (block : nat) : bool :=
  command_accepted dev history (read_command (Z.of_nat block))
  && (4 <? nth 0 (response_after dev
                    (history ++ [read_command (Z.of_nat block)])
                    (Z.to_nat ATECC_RESPONSE_SIZE) 7) 0).

(** The four payload bytes of the response read after [history]. *)
Definition block_payload (dev : device) (history : list i2c_msg) : list Z :=
  firstn 4 (skipn 1 (response_after dev history
                       (Z.to_nat ATECC_RESPONSE_SIZE) 7)).

(** The command of the block cipher for one [mode]. *)
Definition aes_command (mode key_slot : Z) (block : list Z) : i2c_msg :=
  I2cWrite (ATECC_WORDADDR_CMD ::
            build_command 0x51 mode key_slot (firstn 16 block) 16).

(** Two byte strings XORed byte by byte. *)
Definition xor_bytes (a b : list Z) : list Z :=
  map (fun xy => Z.lxor (fst xy) (snd xy)) (combine a b).

(** An operation only adds transactions to the wire, each one with the
    property [P]. *)
Definition emits {A} (P : i2c_msg -> Prop) (m : M A) : Prop :=
  forall st, exists added,
    wire (snd (m st)) = wire st ++ added /\ Forall P added.

(** The write that puts the device to sleep. *)
Definition sleep_write : i2c_msg := I2cWrite [ATECC_CMD_SLEEP].

(** A device of the bench: it accepts every write, answers the 4-byte read
    with the wake response and any longer read with a frame of that length,
    zero data and a right checksum. *)
Definition bench_device : device :=
  fun history =>
    match last history (I2cWrite []) with
    | I2cWrite _ => IoctlDone []
    | I2cRead len =>
        if len =? 4 then IoctlDone [0x04; 0x11; 0x33; 0x43]
        else
          let body := len :: repeat 0 (Z.to_nat (len - 3)) in
          IoctlDone (body ++ Crc.calc_crc16_ccitt (len - 2) body)
    end.

(** The same over bit strings. *)
Definition xor_bits (a b : list bool) : list bool :=
  map (fun xy => xorb (fst xy) (snd xy)) (combine a b).

(** * Properties of the checksum engine *)

Module CrcFacts.
Import Crc.

Lemma lxor_reg a b : is_reg a -> is_reg b -> is_reg (Z.lxor a b).
Proof.
  unfold is_reg. intros Ha Hb.
  assert (Hn : 0 <= Z.lxor a b) by (apply Z.lxor_nonneg; lia).
  split; [exact Hn|].
  destruct (Z.eq_dec (Z.lxor a b) 0) as [->|Hz]; [lia|].
  change 65536 with (2 ^ 16).
  apply Z.log2_lt_pow2; [lia|].
  pose proof (Z.log2_lxor a b ltac:(lia) ltac:(lia)) as Hl.
  assert (Z.log2 a < 16).
  { destruct (Z.eq_dec a 0) as [->|]; [cbn; lia|].
    apply Z.log2_lt_pow2; lia. }
  assert (Z.log2 b < 16).
  { destruct (Z.eq_dec b 0) as [->|]; [cbn; lia|].
    apply Z.log2_lt_pow2; lia. }
  lia.
Qed.

Lemma spec_shift_xor_reg r b : is_reg (spec_shift_xor r b).
Proof.
  unfold spec_shift_xor.
  assert (Hs : is_reg ((2 * r) mod 2 ^ 16)).
  { unfold is_reg. change 65536 with (2 ^ 16). apply Z.mod_pos_bound. lia. }
  destruct (xorb b (Z.testbit r 15)); [|exact Hs].
  apply lxor_reg; [exact Hs|]. unfold is_reg. lia.
Qed.

(** [data & shift_register] is nonzero exactly when the selected bit is set. *)
Lemma land_pow2_testbit byte i :
  0 <= i -> (Z.land byte (2 ^ i) =? 0) = negb (Z.testbit byte i).
Proof.
  intros Hi.
  destruct (Z.testbit byte i) eqn:Hb; cbn [negb].
  - apply Z.eqb_neq. intros Hz.
    assert (Ht : Z.testbit (Z.land byte (2 ^ i)) i = true).
    { rewrite Z.land_spec, Hb, Z.pow2_bits_true by lia. reflexivity. }
    rewrite Hz, Z.bits_0 in Ht. discriminate.
  - apply Z.eqb_eq. apply Z.bits_inj'. intros n Hn.
    rewrite Z.land_spec, Z.bits_0, Z.pow2_bits_eqb by lia.
    destruct (Z.eqb_spec i n) as [->|]; [rewrite Hb|]; auto using andb_false_r.
Qed.

(** The top bit of a 16-bit register, as [crc_register >> 15] reads it. *)
Lemma shiftr15_testbit r :
  is_reg r -> uint8 (Z.shiftr r 15) = Z.b2z (Z.testbit r 15).
Proof.
  unfold is_reg, uint8. intros Hr.
  rewrite Z.shiftr_div_pow2 by lia.
  rewrite Z.testbit_spec' by lia.
  change (2 ^ 15) with 32768.
  assert (0 <= r / 32768 < 2) by (split; [apply Z.div_pos|apply Z.div_lt_upper_bound]; lia).
  rewrite !Z.mod_small by lia. reflexivity.
Qed.

Lemma crc_bit_step_spec byte r i :
  is_reg r -> 0 <= i ->
  crc_bit_step byte r (2 ^ i) = spec_shift_xor r (Z.testbit byte i).
Proof.
  intros Hr Hi. unfold crc_bit_step, spec_shift_xor.
  rewrite land_pow2_testbit, shiftr15_testbit by assumption.
  rewrite Z.shiftl_mul_pow2 by lia. unfold uint16, polynom.
  change (2 ^ 1) with 2. change (2 ^ 16) with 65536.
  rewrite (Z.mul_comm r 2).
  destruct (Z.testbit byte i), (Z.testbit r 15); reflexivity.
Qed.

Lemma crc_bit_steps_spec byte (positions : list nat) r :
  is_reg r ->
  fold_left (crc_bit_step byte) (map (fun i => 2 ^ Z.of_nat i) positions) r
  = fold_left spec_shift_xor
      (map (fun i => Z.testbit byte (Z.of_nat i)) positions) r.
Proof.
  revert r. induction positions as [|i positions IH]; intros r Hr; cbn.
  - reflexivity.
  - rewrite crc_bit_step_spec by (trivial; lia).
    apply IH, spec_shift_xor_reg.
Qed.

Lemma crc_byte_spec r byte :
  is_reg r -> crc_byte r byte = fold_left spec_shift_xor (spec_bits byte) r.
Proof.
  intros Hr. unfold crc_byte, spec_bits.
  change shift_registers with (map (fun i => 2 ^ Z.of_nat i) (seq 0 8)).
  now apply crc_bit_steps_spec.
Qed.

Lemma fold_spec_reg bits r :
  is_reg r -> is_reg (fold_left spec_shift_xor bits r).
Proof.
  revert r. induction bits as [|b bits IH]; intros r Hr; cbn; [exact Hr|].
  apply IH, spec_shift_xor_reg.
Qed.

Lemma crc_byte_reg r byte : is_reg r -> is_reg (crc_byte r byte).
Proof. intros Hr. rewrite crc_byte_spec by exact Hr. now apply fold_spec_reg. Qed.

Lemma crc_bytes_reg data r : is_reg r -> is_reg (crc_bytes r data).
Proof.
  revert r. induction data as [|b data IH]; intros r Hr; cbn; [exact Hr|].
  apply IH, crc_byte_reg, Hr.
Qed.

Lemma crc_bytes_spec data r :
  is_reg r -> crc_bytes r data = spec_register r data.
Proof.
  unfold crc_bytes, spec_register.
  revert r. induction data as [|b data IH]; intros r Hr; cbn [fold_left flat_map].
  - reflexivity.
  - rewrite fold_left_app, <- crc_byte_spec by exact Hr.
    apply IH, crc_byte_reg, Hr.
Qed.

Lemma is_reg_0 : is_reg 0.
Proof. unfold is_reg; lia. Qed.

(** The two stored bytes are the little-endian encoding of the register. *)
Lemma crc_le_bytes r :
  is_reg r ->
  [uint8 (Z.land r 0x00FF); uint8 (Z.shiftr r 8)] = [r mod 256; r / 256].
Proof.
  unfold is_reg, uint8. intros Hr.
  change 0x00FF with (Z.ones 8).
  rewrite Z.land_ones, Z.shiftr_div_pow2 by lia.
  change (2 ^ 8) with 256.
  rewrite Z.mod_mod by lia.
  rewrite (Z.mod_small (r / 256)); [reflexivity|].
  split; [apply Z.div_pos|apply Z.div_lt_upper_bound]; lia.
Qed.

Lemma calc_crc16_ccitt_spec length data :
  calc_crc16_ccitt length data = spec_checksum (firstn (Z.to_nat length) data).
Proof.
  unfold calc_crc16_ccitt, spec_checksum.
  rewrite <- crc_bytes_spec by apply is_reg_0.
  apply crc_le_bytes, crc_bytes_reg, is_reg_0.
Qed.

(** C1. The checksum engine is the bit-serial CRC of the specification:
    register initialised to 0, polynomial 0x8005, the bits of each byte
    taken least-significant first, the polynomial XORed into the
    left-shifted register exactly when input bit and top bit disagree, the
    result stored little-endian.  The empty input gives 00 00 and the input
    07 00 00 00 00 gives the trailer 03 AD. *)
Theorem calc_crc16_ccitt_is_spec_crc :
  (forall data : list Z,
      calc_crc16_ccitt (Z.of_nat (length data)) data = spec_checksum data)
  /\ (forall data : list Z, calc_crc16_ccitt 0 data = [0x00; 0x00])
  /\ calc_crc16_ccitt 5 [0x07; 0x00; 0x00; 0x00; 0x00] = [0x03; 0xAD].
Proof.
  split; [|split].
  - intros data. rewrite calc_crc16_ccitt_spec, Nat2Z.id, firstn_all.
    reflexivity.
  - intros data. reflexivity.
  - vm_compute. reflexivity.
Qed.

(** *** Single-bit errors *)

Lemma reg_split r :
  is_reg r ->
  (2 * r) mod 2 ^ 16 = 2 * (r mod 32768)
  /\ Z.testbit r 15 = (r / 32768 =? 1)
  /\ 0 <= r / 32768 < 2.
Proof.
  unfold is_reg. intros Hr.
  assert (Hq : 0 <= r / 32768 < 2)
    by (split; [apply Z.div_pos|apply Z.div_lt_upper_bound]; lia).
  repeat split; try lia.
  - change (2 ^ 16) with (2 * 32768). apply Z.mul_mod_distr_l; lia.
  - rewrite Z.testbit_eqb by lia. change (2 ^ 15) with 32768.
    rewrite Z.mod_small by lia. reflexivity.
Qed.

Lemma lxor_even_polynom_odd s : Z.odd (Z.lxor (2 * s) 0x8005) = true.
Proof.
  rewrite <- Z.bit0_odd, Z.lxor_spec, Z.testbit_even_0. reflexivity.
Qed.

Lemma lxor_cancel_r a b c : Z.lxor a c = Z.lxor b c -> a = b.
Proof.
  intros H.
  rewrite <- (Z.lxor_0_r a), <- (Z.lxor_0_r b), <- (Z.lxor_nilpotent c).
  rewrite <- !Z.lxor_assoc, H. reflexivity.
Qed.

(** For a fixed input bit the register update is injective. *)
Lemma spec_shift_xor_inj r r' b :
  is_reg r -> is_reg r' ->
  spec_shift_xor r b = spec_shift_xor r' b -> r = r'.
Proof.
  intros Hr Hr'.
  destruct (reg_split r Hr) as (Hs & Ht & Hq).
  destruct (reg_split r' Hr') as (Hs' & Ht' & Hq').
  unfold spec_shift_xor. rewrite Hs, Hs', Ht, Ht'.
  pose proof (Z.div_mod r 32768 ltac:(lia)) as Hd.
  pose proof (Z.div_mod r' 32768 ltac:(lia)) as Hd'.
  pose proof (lxor_even_polynom_odd (r mod 32768)) as Ho.
  pose proof (lxor_even_polynom_odd (r' mod 32768)) as Ho'.
  assert (He : forall x, Z.odd (2 * x) = false)
    by (intros x; rewrite Z.odd_mul; reflexivity).
  destruct b, (Z.eqb_spec (r / 32768) 1), (Z.eqb_spec (r' / 32768) 1);
    cbn [xorb]; intros H;
    try (apply lxor_cancel_r in H);
    try lia;
    exfalso;
    first [ rewrite H in Ho; rewrite He in Ho; discriminate
          | rewrite <- H in Ho'; rewrite He in Ho'; discriminate ].
Qed.

(** Inverting the input bit changes the register. *)
Lemma spec_shift_xor_bit r b :
  spec_shift_xor r b <> spec_shift_xor r (negb b).
Proof.
  unfold spec_shift_xor.
  assert (Hp : forall s, Z.lxor s 0x8005 <> s).
  { intros s H. apply (f_equal (fun x => Z.lxor s x)) in H.
    rewrite <- Z.lxor_assoc, Z.lxor_nilpotent, Z.lxor_0_l in H. discriminate. }
  destruct b, (Z.testbit r 15); cbn [xorb negb]; intros H;
    first [ exact (Hp _ H) | exact (Hp _ (eq_sym H)) ].
Qed.

Lemma fold_shift_xor_inj bits r r' :
  is_reg r -> is_reg r' -> r <> r' ->
  fold_left spec_shift_xor bits r <> fold_left spec_shift_xor bits r'.
Proof.
  revert r r'. induction bits as [|b bits IH]; intros r r' Hr Hr' Hne; cbn.
  - exact Hne.
  - apply IH; try apply spec_shift_xor_reg.
    intros H. apply Hne. eapply spec_shift_xor_inj; eauto.
Qed.

Lemma fold_shift_xor_flip before b after r :
  is_reg r ->
  fold_left spec_shift_xor (before ++ negb b :: after) r
  <> fold_left spec_shift_xor (before ++ b :: after) r.
Proof.
  intros Hr. rewrite !fold_left_app. cbn [fold_left].
  apply fold_shift_xor_inj; try apply spec_shift_xor_reg.
  intros H. exact (spec_shift_xor_bit _ _ (eq_sym H)).
Qed.

(** The bits of a byte with bit [k] inverted. *)
Lemma spec_bits_flip byte (k : nat) :
  (k < 8)%nat ->
  exists before b after,
    spec_bits byte = before ++ b :: after
    /\ spec_bits (Z.lxor byte (2 ^ Z.of_nat k)) = before ++ negb b :: after.
Proof.
  intros Hk. unfold spec_bits.
  assert (Hseq : seq 0 8 = seq 0 k ++ k :: seq (S k) (7 - k)).
  { replace 8%nat with (k + S (7 - k))%nat at 1 by lia.
    rewrite seq_app. reflexivity. }
  rewrite Hseq, !map_app. cbn [map].
  exists (map (fun i => Z.testbit byte (Z.of_nat i)) (seq 0 k)),
         (Z.testbit byte (Z.of_nat k)),
         (map (fun i => Z.testbit byte (Z.of_nat i)) (seq (S k) (7 - k))).
  split; [reflexivity|].
  f_equal; [|f_equal].
  - apply map_ext_in. intros i Hi. apply in_seq in Hi.
    rewrite Z.lxor_spec, Z.pow2_bits_false by lia. apply xorb_false_r.
  - rewrite Z.lxor_spec, Z.pow2_bits_true by lia. apply xorb_true_r.
  - apply map_ext_in. intros i Hi. apply in_seq in Hi.
    rewrite Z.lxor_spec, Z.pow2_bits_false by lia. apply xorb_false_r.
Qed.

Lemma spec_register_cons r byte bytes :
  spec_register r (byte :: bytes)
  = spec_register (fold_left spec_shift_xor (spec_bits byte) r) bytes.
Proof. unfold spec_register. cbn [flat_map]. apply fold_left_app. Qed.

(** Any single inverted bit changes the register. *)
Lemma spec_register_flip_bit body index bit r :
  is_reg r -> (index < length body)%nat -> (bit < 8)%nat ->
  spec_register r (flip_bit body index bit) <> spec_register r body.
Proof.
  revert index r.
  induction body as [|b body IH]; intros index r Hr Hi Hbit; [cbn in Hi; lia|].
  destruct index as [|index]; cbn [flip_bit]; rewrite !spec_register_cons.
  - destruct (spec_bits_flip b bit Hbit) as (before & x & after & E1 & E2).
    rewrite E1, E2. unfold spec_register.
    apply fold_shift_xor_inj; try (apply fold_spec_reg; exact Hr).
    apply fold_shift_xor_flip, Hr.
  - apply IH; [apply fold_spec_reg; exact Hr | cbn in Hi; lia | exact Hbit].
Qed.

Lemma lxor_pow2_neq t k : 0 <= k -> Z.lxor t (2 ^ k) <> t.
Proof.
  intros Hk H. apply (f_equal (fun x => Z.testbit x k)) in H.
  rewrite Z.lxor_spec, Z.pow2_bits_true in H by lia.
  destruct (Z.testbit t k); discriminate.
Qed.

Lemma flip_bit_length frame index bit :
  length (flip_bit frame index bit) = length frame.
Proof.
  revert index. induction frame as [|b frame IH]; intros [|index]; cbn; auto.
Qed.

Lemma flip_bit_app_l body trailer index bit :
  (index < length body)%nat ->
  flip_bit (body ++ trailer) index bit = flip_bit body index bit ++ trailer.
Proof.
  revert index. induction body as [|b body IH]; intros [|index] H; cbn in *;
    try lia; [reflexivity|]. rewrite IH by lia. reflexivity.
Qed.

Lemma flip_bit_app_r body trailer index bit :
  (length body <= index)%nat ->
  flip_bit (body ++ trailer) index bit
  = body ++ flip_bit trailer (index - length body) bit.
Proof.
  revert index. induction body as [|b body IH]; intros index H; cbn in *.
  - rewrite Nat.sub_0_r. reflexivity.
  - destruct index as [|index]; [lia|]. cbn. rewrite IH by lia. reflexivity.
Qed.

(** [validate_crc] on a body followed by a two-byte trailer. *)
Lemma validate_crc_app body t0 t1 :
  (1 <= length body <= 253)%nat ->
  validate_crc (body ++ [t0; t1]) (Z.of_nat (length body) + 2)
  = let register := spec_register 0 body in
    (register mod 256 =? t0) && (register / 256 =? t1).
Proof.
  intros Hlen. unfold validate_crc, compute_crc.
  destruct (Z.ltb_spec (Z.of_nat (length body) + 2) 3) as [|_]; [lia|].
  replace (Z.of_nat (length body) + 2 - 2) with (Z.of_nat (length body)) by lia.
  replace (Z.of_nat (length body) + 2 - 1) with (Z.of_nat (S (length body))) by lia.
  assert (Hu : uint8 (Z.of_nat (length body)) = Z.of_nat (length body))
    by (unfold uint8; apply Z.mod_small; lia).
  rewrite Hu, calc_crc16_ccitt_spec, !Nat2Z.id.
  rewrite firstn_app, firstn_all, Nat.sub_diag, firstn_0, app_nil_r.
  unfold spec_checksum. cbn [nth].
  rewrite !app_nth2 by lia.
  rewrite Nat.sub_diag.
  replace (S (length body) - length body)%nat with 1%nat by lia.
  reflexivity.
Qed.

Lemma reg_bytes_inj r r' :
  r mod 256 = r' mod 256 -> r / 256 = r' / 256 -> r = r'.
Proof.
  intros Hm Hd.
  rewrite (Z.div_mod r 256), (Z.div_mod r' 256) by lia. congruence.
Qed.

(** A body with its own checksum validates; one inverted bit does not. *)
Lemma validate_crc_frame body :
  (1 <= length body <= 253)%nat ->
  let frame := body ++ calc_crc16_ccitt (Z.of_nat (length body)) body in
  let length_ := Z.of_nat (length body) + 2 in
  validate_crc frame length_ = true
  /\ forall index bit,
       (index < length frame)%nat -> (bit < 8)%nat ->
       validate_crc (flip_bit frame index bit) length_ = false.
Proof.
  intros Hlen. cbv zeta.
  rewrite calc_crc16_ccitt_spec, Nat2Z.id, firstn_all. unfold spec_checksum.
  set (r := spec_register 0 body).
  split.
  - rewrite validate_crc_app by exact Hlen. fold r. cbv zeta.
    rewrite !Z.eqb_refl. reflexivity.
  - intros index bit Hi Hbit.
    rewrite length_app in Hi. cbn [length] in Hi.
    destruct (Nat.lt_ge_cases index (length body)) as [Hin|Hout].
    + rewrite flip_bit_app_l by exact Hin.
      rewrite <- (flip_bit_length body index bit).
      rewrite validate_crc_app by (rewrite flip_bit_length; exact Hlen).
      cbv zeta.
      apply andb_false_iff.
      destruct (Z.eqb_spec (spec_register 0 (flip_bit body index bit) mod 256)
                  (r mod 256)) as [E1|]; [|now left].
      destruct (Z.eqb_spec (spec_register 0 (flip_bit body index bit) / 256)
                  (r / 256)) as [E2|]; [|now right].
      exfalso.
      apply (spec_register_flip_bit body index bit 0 is_reg_0 Hin Hbit).
      apply reg_bytes_inj; assumption.
    + rewrite flip_bit_app_r by exact Hout.
      assert (Hcase : (index - length body = 0 \/ index - length body = 1)%nat)
        by lia.
      destruct Hcase as [-> | ->]; cbn [flip_bit];
        rewrite validate_crc_app by exact Hlen; fold r; cbv zeta;
        apply andb_false_iff; [left|right]; apply Z.eqb_neq;
        intros H; symmetry in H; revert H; apply lxor_pow2_neq; lia.
Qed.

End CrcFacts.

(** * Properties of the checksum diagnostic *)

Module DiagnosticFacts.
Import Crc.

(** [debug_crc_mismatch] prints its three lines and nothing else. *)
Lemma debug_crc_mismatch_run data length expected_crc st :
  let computed_crc := compute_crc (length - 2) data in
  debug_crc_mismatch data length expected_crc st
  = (Ok tt,
     mkState (wire st)
       (console st
        ++ [PrintExpectedCrc (nth 0 expected_crc 0) (nth 1 expected_crc 0);
            PrintComputedCrc (nth 0 computed_crc 0) (nth 1 computed_crc 0);
            if (nth 0 computed_crc 0 =? nth 0 expected_crc 0)
               && (nth 1 computed_crc 0 =? nth 1 expected_crc 0)
            then PrintCrcMatch else PrintCrcMismatch])).
Proof.
  cbv zeta. unfold debug_crc_mismatch, bind, printf.
  cbv beta iota zeta. cbn [wire console].
  destruct ((nth 0 (compute_crc (length - 2) data) 0 =? nth 0 expected_crc 0)
            && (nth 1 (compute_crc (length - 2) data) 0
                =? nth 1 expected_crc 0));
    cbn [wire console]; rewrite <- !app_assoc; reflexivity.
Qed.

(** Called on a response that [validate_crc] refused, as the readers call
    it, [debug_crc_mismatch] prints the two trailer bytes, the computed
    checksum and the mismatch line. *)
Lemma debug_crc_mismatch_refused response count st :
  3 <= count ->
  validate_crc response count = false ->
  let computed_crc := compute_crc (count - 2) response in
  debug_crc_mismatch response count
    (skipn (Z.to_nat (count - 2)) response) st
  = (Ok tt,
     mkState (wire st)
       (console st
        ++ [PrintExpectedCrc (nth (Z.to_nat (count - 2)) response 0)
              (nth (Z.to_nat (count - 1)) response 0);
            PrintComputedCrc (nth 0 computed_crc 0) (nth 1 computed_crc 0);
            PrintCrcMismatch])).
Proof.
  intros Hcount Hrefused. cbv zeta. rewrite debug_crc_mismatch_run.
  rewrite !nth_skipn.
  replace (Z.to_nat (count - 2) + 0)%nat with (Z.to_nat (count - 2)) by lia.
  replace (Z.to_nat (count - 2) + 1)%nat with (Z.to_nat (count - 1)) by lia.
  unfold validate_crc in Hrefused.
  destruct (Z.ltb_spec count 3); [lia|].
  cbv zeta in Hrefused. rewrite Hrefused. reflexivity.
Qed.

(** X15. Called as the four readers call it, on a response of at least 3
    bytes that [validate_crc] has just refused and with the trailer of that
    response as the expected checksum, [debug_crc_mismatch] prints the two
    trailer bytes, the computed checksum and then always the mismatch line:
    its "CRC MATCH" line is never printed.  It issues no transaction. *)
Theorem debug_crc_mismatch_reports_mismatch :
  forall response count st,
    3 <= count ->
    validate_crc response count = false ->
    let computed_crc := compute_crc (count - 2) response in
    debug_crc_mismatch response count
      (skipn (Z.to_nat (count - 2)) response) st
    = (Ok tt,
       mkState (wire st)
         (console st
          ++ [PrintExpectedCrc (nth (Z.to_nat (count - 2)) response 0)
                (nth (Z.to_nat (count - 1)) response 0);
              PrintComputedCrc (nth 0 computed_crc 0) (nth 1 computed_crc 0);
              PrintCrcMismatch])).
Proof.
  intros response count st Hcount Hrefused.
  exact (debug_crc_mismatch_refused response count st Hcount Hrefused).
Qed.

Lemma debug_crc_mismatch_reports_mismatch_witness :
  debug_crc_mismatch [0x07; 0x01; 0x02; 0x03; 0x04; 0x00; 0x00] 7
    (skipn (Z.to_nat (7 - 2)) [0x07; 0x01; 0x02; 0x03; 0x04; 0x00; 0x00])
    power_on
  = (Ok tt,
     mkState []
       [PrintExpectedCrc 0x00 0x00; PrintComputedCrc 0xF3 0x28;
        PrintCrcMismatch]).
Proof.
  assert (Hcount : 3 <= 7) by lia.
  assert (Hrefused :
            validate_crc [0x07; 0x01; 0x02; 0x03; 0x04; 0x00; 0x00] 7 = false)
    by (vm_compute; reflexivity).
  rewrite (debug_crc_mismatch_reports_mismatch
             [0x07; 0x01; 0x02; 0x03; 0x04; 0x00; 0x00] 7 power_on
             Hcount Hrefused).
  vm_compute. reflexivity.
Defined.

End DiagnosticFacts.

(** * Properties of the command framer *)

Module FramerFacts.
Import Crc CrcFacts.

Lemma copy_payload_present bytes data_len st :
  0 < data_len ->
  copy_payload (Some bytes) data_len st
  = (Ok (firstn (Z.to_nat data_len) bytes), st).
Proof.
  intros H. unfold copy_payload.
  destruct (Z.ltb_spec 0 data_len); [reflexivity|lia].
Qed.

Lemma copy_payload_empty data data_len st :
  data_len <= 0 -> copy_payload data data_len st = (Ok [], st).
Proof.
  intros H. unfold copy_payload.
  destruct (Z.ltb_spec 0 data_len); [lia|reflexivity].
Qed.

(** The bytes [copy_payload] yields for an argument within the limits. *)
Lemma copy_payload_within data data_len st :
  within_size_limits data data_len ->
  exists payload,
    copy_payload data data_len st = (Ok payload, st)
    /\ Z.of_nat (length payload) = data_len
    /\ payload = match data with
                 | Some bytes => firstn (Z.to_nat data_len) bytes
                 | None => []
                 end.
Proof.
  intros [Hlen Hdata].
  destruct (Z.eq_dec data_len 0) as [->|Hnz].
  - exists []. rewrite copy_payload_empty by lia.
    repeat split. destruct data; reflexivity.
  - destruct data as [bytes|]; [|lia].
    exists (firstn (Z.to_nat data_len) bytes).
    rewrite copy_payload_present by lia.
    repeat split. rewrite length_firstn. lia.
Qed.

(** The three ways [send_atecc_cmd] ends. *)
Lemma send_atecc_cmd_cases dev opcode param1 param2 data data_len st :
  let run := send_atecc_cmd dev opcode param1 param2 data data_len st in
  (run = (Err InvalidArgument, st)
   /\ (data_len > ATECC_CMD_SIZE - 7 \/ (0 < data_len /\ data = None)))
  \/ (data_len <= ATECC_CMD_SIZE - 7 /\ (0 < data_len -> data <> None)
      /\ exists payload,
        copy_payload data data_len st = (Ok payload, st)
        /\ let msg := I2cWrite (ATECC_WORDADDR_CMD ::
                        build_command opcode param1 param2 payload data_len) in
           let outcome := dev (wire st ++ [msg]) in
           run = (match outcome with
                  | IoctlFailed errno =>
                      if not_tolerated errno then Err (I2cWriteFailed errno)
                      else Ok tt
                  | IoctlDone _ => Ok tt
                  end, issued st msg)).
Proof.
  cbv zeta. unfold send_atecc_cmd.
  destruct (Z.gtb_spec data_len (ATECC_CMD_SIZE - 7)) as [Hbig|Hfit].
  - left. split; [reflexivity|lia].
  - destruct (Z.ltb_spec 0 data_len) as [Hpos|Hzero].
    + destruct data as [bytes|].
      * right. split; [lia|]. split; [discriminate|].
        exists (firstn (Z.to_nat data_len) bytes).
        unfold bind, ioctl, issued.
        rewrite copy_payload_present by lia. split; [reflexivity|].
        destruct (dev _) as [rx|errno]; [reflexivity|].
        destruct (not_tolerated errno); reflexivity.
      * left. unfold bind, copy_payload.
        destruct (Z.ltb_spec 0 data_len); [|lia]. split; [reflexivity|].
        right. split; [lia|reflexivity].
    + right. split; [lia|]. split; [lia|].
      exists []. unfold bind, ioctl, issued.
      rewrite copy_payload_empty by lia. split; [reflexivity|].
      destruct (dev _) as [rx|errno]; [reflexivity|].
      destruct (not_tolerated errno); reflexivity.
Qed.

Lemma build_command_body opcode param1 param2 payload data_len :
  Z.of_nat (length payload) = data_len ->
  exists body,
    build_command opcode param1 param2 payload data_len
    = body ++ calc_crc16_ccitt (Z.of_nat (length body)) body
    /\ Z.of_nat (length body) = 5 + data_len.
Proof.
  intros Hlen. unfold build_command.
  eexists. split.
  - f_equal. f_equal. rewrite length_app. cbn [length]. lia.
  - rewrite length_app. cbn [length]. lia.
Qed.

(** C3. For every opcode, parameters and payload within the size limits,
    the frame [send_atecc_cmd] puts on the bus (count, opcode, parameters,
    payload and the two checksum bytes, after the word-address byte) is
    accepted by [validate_crc], and the same frame with any single bit
    inverted is rejected. *)
Theorem send_atecc_cmd_frame_validates :
  forall dev opcode param1 param2 data data_len st,
    within_size_limits data data_len ->
    exists frame,
      wire (snd (send_atecc_cmd dev opcode param1 param2 data data_len st))
      = wire st ++ [I2cWrite (ATECC_WORDADDR_CMD :: frame)]
      /\ Z.of_nat (length frame) = 7 + data_len
      /\ validate_crc frame (7 + data_len) = true
      /\ forall index bit,
           (index < length frame)%nat -> (bit < 8)%nat ->
           validate_crc (flip_bit frame index bit) (7 + data_len) = false.
Proof.
  intros dev opcode param1 param2 data data_len st Hlim.
  destruct (copy_payload_within data data_len st Hlim)
    as (payload & Hcopy & Hlen & _).
  destruct Hlim as [Hrange Hdata].
  destruct (send_atecc_cmd_cases dev opcode param1 param2 data data_len st)
    as [[_ [Hbig|[Hpos Hnull]]] | (_ & _ & payload' & Hcopy' & Hrun)].
  - lia.
  - subst data. lia.
  - rewrite Hcopy in Hcopy'. injection Hcopy' as <-.
    cbv zeta in Hrun. rewrite Hrun. cbn [snd issued wire].
    destruct (build_command_body opcode param1 param2 payload data_len Hlen)
      as (body & Hframe & Hbody).
    exists (build_command opcode param1 param2 payload data_len).
    split; [reflexivity|].
    unfold ATECC_CMD_SIZE in Hrange.
    assert (Hb : (1 <= length body <= 253)%nat) by lia.
    pose proof (validate_crc_frame body Hb) as Hv. cbv zeta in Hv.
    rewrite <- Hframe in Hv.
    replace (Z.of_nat (length body) + 2) with (7 + data_len) in Hv by lia.
    split; [|exact Hv].
    rewrite Hframe, length_app. cbn [calc_crc16_ccitt length]. lia.
Qed.

Lemma send_atecc_cmd_frame_validates_witness :
  within_size_limits (Some [0xAA; 0xBB]) 2
  /\ exists frame,
      wire (snd (send_atecc_cmd idle_bus ATECC_CMD_SHA 0x02 0x0002
                   (Some [0xAA; 0xBB]) 2 power_on))
      = wire power_on ++ [I2cWrite (ATECC_WORDADDR_CMD :: frame)]
      /\ Z.of_nat (length frame) = 7 + 2
      /\ validate_crc frame (7 + 2) = true
      /\ forall index bit,
           (index < length frame)%nat -> (bit < 8)%nat ->
           validate_crc (flip_bit frame index bit) (7 + 2) = false.
Proof.
  assert (H : within_size_limits (Some [0xAA; 0xBB]) 2).
  { unfold within_size_limits, ATECC_CMD_SIZE. cbn. lia. }
  split; [exact H|].
  exact (send_atecc_cmd_frame_validates idle_bus ATECC_CMD_SHA 0x02 0x0002
           (Some [0xAA; 0xBB]) 2 power_on H).
Defined.

(** C5 as stated fails: a payload pointer given with a declared length of
    zero is not rejected; the command is framed without payload and sent. *)
Lemma send_atecc_cmd_pointer_with_zero_length :
  send_atecc_cmd idle_bus ATECC_CMD_READ 0x00 0x0000 (Some [0xAA]) 0 power_on
  = (Ok tt,
     mkState [I2cWrite [0x03; 0x07; 0x02; 0x00; 0x00; 0x00; 0x1E; 0x2D]] []).
Proof. vm_compute. reflexivity. Qed.

(** C5, amended. [send_atecc_cmd] fails as an invalid argument exactly when
    the declared length exceeds [ATECC_CMD_SIZE - 7] or a nonzero length
    comes with a null payload pointer; it then emits no frame and issues no
    transport call.  In every other case it writes one frame, whose payload
    is the first [data_len] bytes that [data] addresses; so with a length
    of zero the command is sent without payload, whether the pointer is
    null or not. *)
Theorem send_atecc_cmd_invalid_argument :
  forall dev opcode param1 param2 data data_len st,
    let run := send_atecc_cmd dev opcode param1 param2 data data_len st in
    (fst run = Err InvalidArgument
     <-> (data_len > ATECC_CMD_SIZE - 7 \/ (0 < data_len /\ data = None)))
    /\ (fst run = Err InvalidArgument -> snd run = st)
    /\ (fst run <> Err InvalidArgument ->
        forall bytes, data = Some bytes -> 0 < data_len ->
        wire (snd run)
        = wire st
          ++ [I2cWrite (ATECC_WORDADDR_CMD ::
                build_command opcode param1 param2
                  (firstn (Z.to_nat data_len) bytes) data_len)])
    /\ (data_len = 0 ->
        fst run <> Err InvalidArgument
        /\ wire (snd run)
           = wire st
             ++ [I2cWrite (ATECC_WORDADDR_CMD ::
                   build_command opcode param1 param2 [] 0)]).
Proof.
  intros dev opcode param1 param2 data data_len st. cbv zeta.
  destruct (send_atecc_cmd_cases dev opcode param1 param2 data data_len st)
    as [[Hrun Hcond] | (Hfit & Hptr & payload & Hcopy & Hrun)];
    cbv zeta in Hrun; rewrite Hrun; cbn [fst snd].
  - split; [split; [intros _; exact Hcond|reflexivity]|].
    split; [reflexivity|].
    split; [intros H; exfalso; apply H; reflexivity|].
    intros Hzero. exfalso. unfold ATECC_CMD_SIZE in Hcond. lia.
  - assert (Hne : (match
                     dev (wire st ++
                          [I2cWrite (ATECC_WORDADDR_CMD ::
                             build_command opcode param1 param2 payload data_len)])
                   with
                   | IoctlDone _ => Ok tt
                   | IoctlFailed errno =>
                       if not_tolerated errno then Err (I2cWriteFailed errno)
                       else Ok tt
                   end) <> Err InvalidArgument).
    { destruct (dev _) as [rx|errno]; [discriminate|].
      destruct (not_tolerated errno); discriminate. }
    repeat split.
    + intros H. contradiction.
    + intros [Hbig|[Hpos Hnull]]; [lia|]. exfalso. apply Hptr; assumption.
    + intros H. contradiction.
    + intros _ bytes Hdata Hpos. subst data.
      rewrite copy_payload_present in Hcopy by lia.
      assert (Hp : payload = firstn (Z.to_nat data_len) bytes)
        by congruence.
      rewrite Hp. reflexivity.
    + exact Hne.
    + subst data_len. rewrite copy_payload_empty in Hcopy by lia.
      assert (Hp : payload = []) by congruence.
      rewrite Hp. reflexivity.
Qed.

End FramerFacts.

(** * Properties of the response reader *)

Module ReaderFacts.
Import Crc.

(** The ways [receive_atecc_response] ends: an argument failure, a fatal
    transport failure, or the decision on the response array. *)
Lemma receive_atecc_response_cases dev buffer length full_response st :
  let len := response_read_length length full_response in
  let run := receive_atecc_response dev buffer length full_response st in
  (run = (Err InvalidArgument, st) /\ (buffer = None \/ length = 0))
  \/ (exists errno,
        dev (wire st ++ [I2cRead len]) = IoctlFailed errno
        /\ not_tolerated errno = true
        /\ run = (Err (I2cReadFailed errno), issued st (I2cRead len)))
  \/ (exists buf,
        buffer = Some buf /\ length <> 0
        /\ (forall errno, dev (wire st ++ [I2cRead len]) = IoctlFailed errno ->
                          not_tolerated errno = false)
        /\ run = (extract_payload
                    (response_after dev (wire st)
                       (Z.to_nat ATECC_RESPONSE_SIZE) len) buf length,
                  issued st (I2cRead len))).
Proof.
  cbv zeta. unfold receive_atecc_response.
  destruct buffer as [buf|]; [|left; split; [reflexivity|now left]].
  destruct (Z.eqb_spec length 0) as [Hz|Hnz];
    [left; split; [reflexivity|now right]|].
  right. unfold bind, ioctl, issued, response_after.
  destruct (dev _) as [rx|errno] eqn:Hdev.
  - right. exists buf.
    split; [reflexivity|]. split; [exact Hnz|]. split; [|reflexivity].
    intros errno Hfail. discriminate.
  - destruct (not_tolerated errno) eqn:Htol.
    + left. exists errno. repeat split; auto.
    + right. exists buf.
      split; [reflexivity|]. split; [exact Hnz|]. split; [|reflexivity].
      intros errno' Hfail. injection Hfail as <-. exact Htol.
Qed.

(** C7. Given a buffer and a nonzero length, and a read that did not fail
    with an [errno] other than [EIO] or [EREMOTEIO], the reader decides on
    the count byte of the response: below 4 it fails as an invalid count; at
    exactly 4 it fails as well, reporting "no data returned" for status
    0x00 and the raw status code for any other status; a payload is copied
    out only when the count exceeds 4. *)
Theorem receive_atecc_response_classifies :
  forall dev buf length full_response st,
    let len := response_read_length length full_response in
    let response :=
      response_after dev (wire st) (Z.to_nat ATECC_RESPONSE_SIZE) len in
    let count := nth 0 response 0 in
    let status := nth 1 response 0 in
    let outcome :=
      fst (receive_atecc_response dev (Some buf) length full_response st) in
    length <> 0 ->
    (forall errno, dev (wire st ++ [I2cRead len]) = IoctlFailed errno ->
                   tolerable errno) ->
    (count < 4 -> outcome = Err (InvalidCount count))
    /\ (count = 4 -> status = ATECC_STATUS_SUCCESS ->
          outcome = Err NoDataReturned)
    /\ (count = 4 -> status <> ATECC_STATUS_SUCCESS ->
          outcome = Err (DeviceStatus status))
    /\ (forall payload, outcome = Ok payload ->
          4 < count
          /\ (length <= 127 ->
              payload = firstn (Z.to_nat length) (skipn 1 response)
                        ++ skipn (Z.to_nat length) buf)).
Proof.
  intros dev buf0 length full_response st. cbv zeta. intros Hlength Hread.
  destruct (receive_atecc_response_cases dev (Some buf0) length full_response
              st)
    as [[_ [Hnone|Hzero]]
       | [(errno & Hdev & Hfatal & _) | (buf & Hbuf & _ & _ & Hrun)]].
  - discriminate Hnone.
  - contradiction.
  - exfalso. specialize (Hread errno Hdev).
    unfold tolerable in Hread. unfold not_tolerated in Hfatal.
    destruct Hread as [-> | ->]; discriminate Hfatal.
  - assert (Hsame : buf = buf0) by congruence. subst buf.
    cbv zeta in Hrun. rewrite Hrun. cbn [fst].
    set (response := response_after dev (wire st) _ _).
    unfold extract_payload.
    destruct (Z.ltb_spec (nth 0 response 0) 4) as [Hlt|Hge].
    { repeat split; try (intros; lia); try discriminate. }
    destruct (Z.eqb_spec (nth 0 response 0) 4) as [Heq|Hne].
    { destruct (Z.eqb_spec (nth 1 response 0) ATECC_STATUS_SUCCESS) as [Hs|Hs];
        cbn [negb]; repeat split; try (intros; lia); try discriminate;
        try reflexivity; intros; contradiction. }
    split; [intros; lia|]. split; [intros; lia|]. split; [intros; lia|].
    intros payload Hok. split; [lia|]. intros _.
    destruct (Z.ltb_spec (nth 0 response 0 - 1) length) as [Hshort|Hfull];
      [discriminate|].
    assert (Hinj : forall x y : list Z, Ok x = Ok y -> x = y) by congruence.
    apply Hinj in Hok. subst payload. reflexivity.
Qed.

Lemma receive_atecc_response_classifies_witness :
  fst (receive_atecc_response (fun _ => IoctlDone [0x04; 0x0F; 0x00; 0x00])
         (Some [0; 0; 0; 0]) 4 true power_on)
  = Err (DeviceStatus 0x0F).
Proof.
  assert (Hlength : 4 <> 0) by discriminate.
  assert (Hread : forall errno,
            (fun _ : list i2c_msg => IoctlDone [0x04; 0x0F; 0x00; 0x00])
              (wire power_on ++ [I2cRead (response_read_length 4 true)])
            = IoctlFailed errno -> tolerable errno)
    by (intros errno H; discriminate H).
  destruct (receive_atecc_response_classifies
              (fun _ => IoctlDone [0x04; 0x0F; 0x00; 0x00])
              [0; 0; 0; 0] 4 true power_on Hlength Hread)
    as (_ & _ & Hstatus & _).
  apply Hstatus; [reflexivity|discriminate].
Defined.

(** C2, the failing input.  The response 07 01 02 03 04 00 00 carries a
    trailer that [validate_crc] rejects, and [receive_atecc_response] asked
    for the full response returns its four payload bytes all the same. *)
Lemma receive_atecc_response_ignores_checksum :
  let response := [0x07; 0x01; 0x02; 0x03; 0x04; 0x00; 0x00] in
  validate_crc response 7 = false
  /\ receive_atecc_response (fun _ => IoctlDone response)
       (Some [0; 0; 0; 0]) 4 true power_on
     = (Ok [0x01; 0x02; 0x03; 0x04], mkState [I2cRead 7] []).
Proof. split; vm_compute; reflexivity. Qed.

End ReaderFacts.

(** * Properties of the streaming hash *)

Module HashFacts.
Import Crc FramerFacts.

(** One turn of the update loop. *)
Lemma sha256_update_loop_step dev data data_len offset st :
  sha256_update_loop dev data data_len offset st
  = if Z_le_dec 64 (uint64 (data_len - offset)) then
      match send_atecc_cmd dev ATECC_CMD_SHA 0x01 0x0000
              (ptr_add data offset) (uint8 64) st with
      | (Ok _, st') =>
          sha256_update_loop dev data data_len (uint64 (offset + 64)) st'
      | (Err e, st') => (Err e, st')
      end
    else (Ok offset, st).
Proof.
  simp sha256_update_loop.
  destruct (Z_le_dec 64 (uint64 (data_len - offset)));
    simp sha256_update_loop; [|reflexivity].
  destruct (send_atecc_cmd dev ATECC_CMD_SHA 1 0 (ptr_add data offset)
              (uint8 64) st) as [[[]|e] st'];
    simp sha256_update_loop; reflexivity.
Qed.

(** The response part issues the one read, whatever it decides. *)
Lemma sha256_response_wire dev output st :
  wire (snd (sha256_response dev output st)) = wire st ++ [I2cRead 35].
Proof.
  unfold sha256_response, debug_crc_mismatch, bind, ioctl.
  destruct (dev _) as [rx|errno]; [|reflexivity].
  unfold ret, fail, printf.
  repeat match goal with
         | |- context [if ?c then _ else _] => destruct c
         end; reflexivity.
Qed.

Section AcceptingBus.

Variable dev : device.
Hypothesis bus_accepts : writes_accepted dev.

(** A command within the size limits is framed and sent. *)
Lemma send_atecc_cmd_accepted opcode param1 param2 data data_len st :
  within_size_limits data data_len ->
  send_atecc_cmd dev opcode param1 param2 data data_len st
  = (Ok tt,
     issued st (I2cWrite (ATECC_WORDADDR_CMD ::
                  build_command opcode param1 param2
                    match data with
                    | Some bytes => firstn (Z.to_nat data_len) bytes
                    | None => []
                    end data_len))).
Proof.
  intros Hlim.
  destruct (copy_payload_within data data_len st Hlim)
    as (payload & Hcopy & _ & Hpayload).
  destruct Hlim as [Hrange Hdata].
  destruct (send_atecc_cmd_cases dev opcode param1 param2 data data_len st)
    as [[_ [Hbig|[Hpos Hnull]]] | (_ & _ & payload' & Hcopy' & Hrun)].
  - lia.
  - subst data. lia.
  - rewrite Hcopy in Hcopy'. injection Hcopy' as <-.
    cbv zeta in Hrun. rewrite Hrun, <- Hpayload.
    destruct (dev _) as [rx|errno] eqn:Hdev; [reflexivity|].
    rewrite (bus_accepts _ _ _ Hdev). reflexivity.
Qed.

(** From offset [64 * j] the loop sends the chunks [j], [j+1], ... in
    order, one update phase each, and leaves at the last whole chunk. *)
Lemma sha256_update_loop_chunks bytes :
  Z.of_nat (length bytes) < 2 ^ 64 ->
  forall (m j : nat) st,
    (j + m = length bytes / 64)%nat ->
    sha256_update_loop dev (Some bytes) (Z.of_nat (length bytes))
      (Z.of_nat (64 * j)) st
    = (Ok (Z.of_nat (64 * (length bytes / 64))),
       mkState
         (wire st ++ map phase_write (map (update_phase bytes) (seq j m)))
         (console st)).
Proof.
  intros Hsize.
  pose proof (Nat.div_mod_eq (length bytes) 64) as Hdm.
  pose proof (Nat.mod_upper_bound (length bytes) 64 ltac:(lia)) as Hmod.
  induction m as [|m IH]; intros j st Hj; rewrite sha256_update_loop_step.
  - assert (Hu : uint64 (Z.of_nat (length bytes) - Z.of_nat (64 * j))
                 = Z.of_nat (length bytes mod 64)).
    { unfold uint64. rewrite Z.mod_small by lia. lia. }
    rewrite Hu.
    destruct (Z_le_dec 64 (Z.of_nat (length bytes mod 64))) as [Hle|_]; [lia|].
    cbn [seq map]. rewrite app_nil_r. destruct st.
    replace j with (length bytes / 64)%nat by lia. reflexivity.
  - assert (Hu : uint64 (Z.of_nat (length bytes) - Z.of_nat (64 * j))
                 = Z.of_nat (length bytes) - Z.of_nat (64 * j)).
    { unfold uint64. apply Z.mod_small. lia. }
    rewrite Hu.
    destruct (Z_le_dec 64 (Z.of_nat (length bytes) - Z.of_nat (64 * j)))
      as [_|Hgt]; [|lia].
    change (uint8 64) with 64.
    rewrite send_atecc_cmd_accepted.
    2:{ unfold within_size_limits, ATECC_CMD_SIZE, ptr_add. cbn [option_map].
        rewrite length_skipn. lia. }
    assert (Ho : uint64 (Z.of_nat (64 * j) + 64) = Z.of_nat (64 * S j)).
    { unfold uint64. rewrite Z.mod_small by lia. lia. }
    rewrite Ho, IH by lia.
    unfold issued. cbn [wire console seq map ptr_add option_map].
    rewrite <- app_assoc. cbn [app].
    do 3 f_equal.
    unfold update_phase, phase_write.
    rewrite Nat2Z.id. change (Z.to_nat 64) with 64%nat.
    rewrite length_firstn, length_skipn.
    replace (Z.of_nat (Nat.min 64 (length bytes - 64 * j))) with 64 by lia.
    reflexivity.
Qed.

(** The phases of an input given by a pointer are sent in full and the
    operation goes on to read the response. *)
Lemma compute_sha256_sends_bytes bytes output st :
  Z.of_nat (length bytes) < 2 ^ 64 ->
  compute_sha256 dev (Some bytes) (Z.of_nat (length bytes)) (Some output) st
  = sha256_response dev output
      (mkState (wire st ++ map phase_write (spec_sha256_phases bytes))
         (console st)).
Proof.
  intros Hsize.
  pose proof (Nat.div_mod_eq (length bytes) 64) as Hdm.
  pose proof (Nat.mod_upper_bound (length bytes) 64 ltac:(lia)) as Hmod.
  unfold compute_sha256. cbn [andb].
  unfold bind at 1.
  rewrite send_atecc_cmd_accepted
    by (unfold within_size_limits, ATECC_CMD_SIZE; lia).
  unfold bind at 1.
  rewrite (sha256_update_loop_chunks bytes Hsize (length bytes / 64) 0) by lia.
  set (offset := Z.of_nat (64 * (length bytes / 64))).
  assert (Hrem : uint8 (uint64 (Z.of_nat (length bytes) - offset))
                 = Z.of_nat (length bytes mod 64)).
  { unfold uint8, uint64, offset.
    rewrite (Z.mod_small _ (2 ^ 64)) by lia.
    rewrite Z.mod_small by lia. lia. }
  rewrite Hrem.
  set (remaining := Z.of_nat (length bytes mod 64)).
  unfold bind at 1.
  rewrite send_atecc_cmd_accepted.
  2:{ unfold within_size_limits, ATECC_CMD_SIZE, ptr_add, remaining, offset.
      split; [lia|].
      destruct (Z.ltb_spec 0 (Z.of_nat (length bytes mod 64))); [|lia].
      cbn [option_map]. rewrite length_skipn. lia. }
  assert (Hpayload :
            match (if 0 <? remaining then ptr_add (Some bytes) offset
                   else None) with
            | Some final_block => firstn (Z.to_nat remaining) final_block
            | None => []
            end = skipn (64 * (length bytes / 64)) bytes).
  { unfold remaining, offset, ptr_add.
    destruct (Z.ltb_spec 0 (Z.of_nat (length bytes mod 64))).
    - cbn [option_map]. rewrite !Nat2Z.id.
      apply firstn_all2. rewrite length_skipn. lia.
    - symmetry. apply length_zero_iff_nil. rewrite length_skipn. lia. }
  rewrite Hpayload. f_equal.
  unfold issued, spec_sha256_phases. cbn [wire console].
  f_equal.
  rewrite !map_app, <- !app_assoc. cbn [map app].
  do 4 f_equal.
  unfold phase_write, remaining, uint16.
  rewrite length_skipn, Z.mod_small by lia.
  replace (Z.of_nat (length bytes - 64 * (length bytes / 64)))
    with (Z.of_nat (length bytes mod 64)) by lia.
  reflexivity.
Qed.

(** The same for the empty input given as a null pointer. *)
Lemma compute_sha256_sends_null output st :
  compute_sha256 dev None 0 (Some output) st
  = sha256_response dev output
      (mkState (wire st ++ map phase_write (spec_sha256_phases []))
         (console st)).
Proof.
  unfold compute_sha256. cbn [andb negb Z.eqb].
  unfold bind at 1.
  rewrite send_atecc_cmd_accepted
    by (unfold within_size_limits, ATECC_CMD_SIZE; lia).
  unfold bind at 1.
  rewrite sha256_update_loop_step.
  change (uint64 (0 - 0)) with 0.
  destruct (Z_le_dec 64 0) as [Hle|_]; [lia|].
  change (uint8 (uint64 (0 - 0))) with 0.
  change (0 <? 0) with false. cbv iota.
  unfold bind at 1.
  rewrite send_atecc_cmd_accepted
    by (unfold within_size_limits, ATECC_CMD_SIZE; lia).
  f_equal. unfold issued. cbn [wire console].
  rewrite <- app_assoc. reflexivity.
Qed.

(** The input a data pointer stands for. *)
Lemma compute_sha256_sends data output st :
  let input := match data with Some bytes => bytes | None => [] end in
  Z.of_nat (length input) < 2 ^ 64 ->
  compute_sha256 dev data (Z.of_nat (length input)) (Some output) st
  = sha256_response dev output
      (mkState (wire st ++ map phase_write (spec_sha256_phases input))
         (console st)).
Proof.
  destruct data as [bytes|]; cbv zeta; intros Hsize.
  - apply compute_sha256_sends_bytes, Hsize.
  - apply compute_sha256_sends_null.
Qed.

(** C4. On a bus that accepts the writes, hashing an input of [n] bytes
    issues exactly one start phase (phase byte 0, no payload), then one
    update phase (phase byte 1, 64-byte payload, param2 0) for each of the
    [n / 64] whole chunks of the input in order, then exactly one end phase
    (phase byte 2) whose payload is the remaining [n mod 64] bytes and whose
    param2 is that count, and then reads the response; a 130-byte input
    gives two 64-byte update phases and one 2-byte end phase. *)
Theorem compute_sha256_issues_phases :
  forall data output st,
    let input := match data with Some bytes => bytes | None => [] end in
    Z.of_nat (length input) < 2 ^ 64 ->
    wire (snd (compute_sha256 dev data (Z.of_nat (length input))
                 (Some output) st))
    = wire st ++ map phase_write (spec_sha256_phases input) ++ [I2cRead 35]
    /\ length (spec_sha256_phases input) = (1 + length input / 64 + 1)%nat
    /\ (length input = 130%nat ->
        spec_sha256_phases input
        = [(0, 0, []);
           (1, 0, firstn 64 input);
           (1, 0, firstn 64 (skipn 64 input));
           (2, 2, skipn 128 input)]).
Proof.
  intros data output st input Hsize. split; [|split].
  - rewrite compute_sha256_sends by exact Hsize.
    rewrite sha256_response_wire. cbn [wire]. symmetry. apply app_assoc.
  - unfold spec_sha256_phases.
    rewrite !length_app, length_map, length_seq. reflexivity.
  - intros H130. unfold spec_sha256_phases. rewrite H130. reflexivity.
Qed.

End AcceptingBus.

Lemma idle_bus_accepts : writes_accepted idle_bus.
Proof. intros history frame errno H. discriminate H. Qed.

Lemma compute_sha256_issues_phases_witness :
  writes_accepted idle_bus
  /\ Z.of_nat (length (repeat 0x61 130)) < 2 ^ 64
  /\ wire (snd (compute_sha256 idle_bus (Some (repeat 0x61 130))
                  (Z.of_nat (length (repeat 0x61 130)))
                  (Some (repeat 0 32)) power_on))
     = wire power_on
       ++ map phase_write (spec_sha256_phases (repeat 0x61 130))
       ++ [I2cRead 35].
Proof.
  assert (Hsize : Z.of_nat (length (repeat 0x61 130)) < 2 ^ 64)
    by (rewrite repeat_length; reflexivity).
  split; [exact idle_bus_accepts|]. split; [exact Hsize|].
  exact (proj1 (compute_sha256_issues_phases idle_bus idle_bus_accepts
                  (Some (repeat 0x61 130)) (repeat 0 32) power_on Hsize)).
Defined.

End HashFacts.

(** * Properties of the state threading *)

Module StateFacts.
Import FramerFacts ReaderFacts.

(** A command without payload: framed, written, and the outcome of the
    write decided by [errno]. *)
Lemma send_atecc_cmd_no_payload dev opcode param1 param2 st :
  let msg := I2cWrite (ATECC_WORDADDR_CMD ::
               build_command opcode param1 param2 [] 0) in
  send_atecc_cmd dev opcode param1 param2 None 0 st
  = (match dev (wire st ++ [msg]) with
     | IoctlFailed errno =>
         if not_tolerated errno then Err (I2cWriteFailed errno) else Ok tt
     | IoctlDone _ => Ok tt
     end, issued st msg).
Proof.
  cbv zeta.
  destruct (send_atecc_cmd_cases dev opcode param1 param2 None 0 st)
    as [[_ [Hbig|[Hpos _]]] | (_ & _ & payload & Hcopy & Hrun)].
  - unfold ATECC_CMD_SIZE in Hbig. lia.
  - lia.
  - rewrite copy_payload_empty in Hcopy by lia. injection Hcopy as <-.
    exact Hrun.
Qed.

Lemma send_atecc_cmd_console dev opcode param1 param2 data data_len st :
  console (snd (send_atecc_cmd dev opcode param1 param2 data data_len st))
  = console st.
Proof.
  destruct (send_atecc_cmd_cases dev opcode param1 param2 data data_len st)
    as [[Hrun _] | (_ & _ & payload & _ & Hrun)];
    cbv zeta in Hrun; rewrite Hrun; reflexivity.
Qed.

Lemma receive_atecc_response_console dev buffer length full_response st :
  console (snd (receive_atecc_response dev buffer length full_response st))
  = console st.
Proof.
  destruct (receive_atecc_response_cases dev buffer length full_response st)
    as [[Hrun _] | [(errno & _ & _ & Hrun) | (buf & _ & _ & _ & Hrun)]];
    cbv zeta in Hrun; rewrite Hrun; reflexivity.
Qed.


Lemma read_buffer_length buf len r :
  (Z.to_nat len <= length buf)%nat ->
  length (read_buffer buf len r) = length buf.
Proof.
  intros Hlen. destruct r as [rx|errno]; [|reflexivity].
  unfold read_buffer, memcpy.
  rewrite Nat2Z.id, firstn_all, length_app, length_skipn, length_firstn.
  lia.
Qed.

(** What a successful call of the reader has done. *)
Lemma receive_atecc_response_ok dev buffer length full_response st payload st' :
  receive_atecc_response dev buffer length full_response st = (Ok payload, st') ->
  let len := response_read_length length full_response in
  st' = issued st (I2cRead len)
  /\ exists buf,
       buffer = Some buf
       /\ payload
          = memcpy buf
              (skipn 1 (response_after dev (wire st)
                          (Z.to_nat ATECC_RESPONSE_SIZE) len)) length.
Proof.
  intros Hrun. cbv zeta.
  destruct (receive_atecc_response_cases dev buffer length full_response st)
    as [[Hrun' _] | [(errno & _ & _ & Hrun') | (buf & Hbuf & _ & _ & Hrun')]];
    cbv zeta in Hrun'; rewrite Hrun' in Hrun; try discriminate.
  injection Hrun as Hextract <-. split; [reflexivity|].
  exists buf. split; [exact Hbuf|].
  unfold extract_payload in Hextract.
  repeat match type of Hextract with
         | context [if ?c then _ else _] => destruct c
         end; try discriminate.
  injection Hextract as <-. reflexivity.
Qed.

(** What a successful send of a command without payload has done. *)
Lemma send_atecc_cmd_no_payload_ok dev opcode param1 param2 st st' :
  send_atecc_cmd dev opcode param1 param2 None 0 st = (Ok tt, st') ->
  st' = issued st (I2cWrite (ATECC_WORDADDR_CMD ::
                     build_command opcode param1 param2 [] 0)).
Proof.
  rewrite send_atecc_cmd_no_payload. intros H. injection H as _ <-.
  reflexivity.
Qed.

End StateFacts.

(** * Properties of the random-number operations *)

Module RandomFacts.
Import FramerFacts ReaderFacts StateFacts.

Lemma lor_shiftl_byte value byte :
  is_byte byte -> Z.lor (Z.shiftl value 8) byte = 256 * value + byte.
Proof.
  unfold is_byte. intros Hb.
  assert (Hland : Z.land (Z.shiftl value 8) byte = 0).
  { apply Z.bits_inj'. intros n Hn.
    rewrite Z.land_spec, Z.bits_0.
    destruct (Z.lt_ge_cases n 8) as [Hlow|Hhigh].
    - rewrite Z.shiftl_spec_low by lia. reflexivity.
    - replace byte with (byte mod 2 ^ 8) by (apply Z.mod_small; cbn; lia).
      rewrite Z.mod_pow2_bits_high by lia. apply andb_false_r. }
  rewrite <- Z.lxor_lor, <- Z.add_nocarry_lxor by exact Hland.
  rewrite Z.shiftl_mul_pow2 by lia. change (2 ^ 8) with 256. lia.
Qed.

(** One turn of the loop of [map_random_to_range] without wrap-around. *)
Lemma shift_in_byte value byte :
  0 <= value < 2 ^ 56 -> is_byte byte ->
  uint64 (Z.lor (Z.shiftl value 8) byte) = 256 * value + byte.
Proof.
  intros Hv Hb. rewrite lor_shiftl_byte by exact Hb.
  unfold uint64, is_byte in *. apply Z.mod_small.
  change (2 ^ 56) with 72057594037927936 in Hv.
  change (2 ^ 64) with 18446744073709551616. lia.
Qed.

(** The loop reads its eight bytes as one big-endian integer. *)
Lemma random_value_big_endian random_bytes :
  length random_bytes = 8%nat -> Forall is_byte random_bytes ->
  fold_left
    (fun random_value i =>
       uint64 (Z.lor (Z.shiftl random_value 8) (nth i random_bytes 0)))
    (seq 0 8) 0
  = big_endian random_bytes.
Proof.
  intros Hlen Hbytes.
  do 8 (destruct random_bytes as [|? random_bytes]; [discriminate Hlen|]).
  destruct random_bytes; [|discriminate Hlen].
  repeat match goal with
         | H : Forall _ (_ :: _) |- _ => inversion H; subst; clear H
         end.
  unfold big_endian. cbn [fold_left seq nth].
  unfold is_byte in *.
  repeat match goal with
         | |- context [uint64 (Z.lor (Z.shiftl ?v 8) ?b)] =>
             lazymatch v with
             | context [uint64] => fail
             | _ => idtac
             end;
             rewrite (shift_in_byte v b)
               by (unfold is_byte;
                   change (2 ^ 56) with 72057594037927936; lia)
         end.
  reflexivity.
Qed.

Lemma random_value_range random_bytes :
  0 <= fold_left
         (fun random_value i =>
            uint64 (Z.lor (Z.shiftl random_value 8) (nth i random_bytes 0)))
         (seq 0 8) 0 < 2 ^ 64.
Proof.
  change (seq 0 8) with (seq 0 7 ++ [7%nat]).
  rewrite fold_left_app. cbn [fold_left].
  apply Z.mod_pos_bound. reflexivity.
Qed.

Lemma map_random_to_range_bounds random_bytes min max :
  0 <= min -> min <= max -> max < 2 ^ 64 -> uint64 (max - min + 1) <> 0 ->
  exists random_value,
    0 <= random_value < 2 ^ 64
    /\ map_random_to_range random_bytes min max
       = min + random_value mod (max - min + 1)
    /\ min <= map_random_to_range random_bytes min max <= max.
Proof.
  intros Hmin Hle Hmax Hnz. unfold map_random_to_range.
  set (random_value := fold_left _ _ _).
  pose proof (random_value_range random_bytes) as Hv. fold random_value in Hv.
  assert (Hm : uint64 (max - min + 1) = max - min + 1).
  { unfold uint64 in *.
    destruct (Z.eq_dec (max - min + 1) (2 ^ 64)) as [E|E].
    - rewrite E, Z.mod_same in Hnz by (cbn; lia). contradiction.
    - apply Z.mod_small. lia. }
  rewrite Hm.
  pose proof (Z.mod_pos_bound random_value (max - min + 1) ltac:(lia)) as Hr.
  exists random_value. split; [exact Hv|].
  unfold uint64. rewrite Z.mod_small by lia. split; [reflexivity|lia].
Qed.

(** Only the first eight bytes are read. *)
Lemma map_random_to_range_firstn random_bytes min max :
  map_random_to_range random_bytes min max
  = map_random_to_range (firstn 8 random_bytes) min max.
Proof.
  unfold map_random_to_range. cbn [seq fold_left].
  rewrite !nth_firstn. reflexivity.
Qed.

Lemma Forall_firstn_skipn (P : Z -> Prop) n m (l : list Z) :
  Forall P l -> Forall P (firstn n (skipn m l)).
Proof.
  intros H.
  rewrite <- (firstn_skipn m l) in H. apply Forall_app in H as [_ H].
  rewrite <- (firstn_skipn n (skipn m l)) in H.
  apply Forall_app in H as [H _]. exact H.
Qed.

(** C6, the failing input.  For a device that returns the 32 random bytes
    FF 00 .. 00, [genrate_random_number_in_range] asked for a value in
    [0, 10000000] reports 0, the mapping of the returned bytes 1 to 8,
    where the first eight returned bytes give
    0xFF00000000000000 mod 10000001 = 3159460.  Besides, with [min] above
    [max] the divisor [max - min + 1] is nonzero and the result of
    [map_random_to_range] is outside the (empty) interval. *)
Lemma genrate_random_number_in_range_skips_byte :
  (let returned := 0xFF :: repeat 0 31 in
   let response := 0x23 :: returned ++ [0x00; 0x00] in
   console (snd (genrate_random_number_in_range
                   (fun _ => IoctlDone response) 0 10000000 power_on))
   = [PrintRandomInRange 0 10000000 0]
   /\ 0 + big_endian (firstn 8 returned) mod (10000000 - 0 + 1) = 3159460)
  /\ (3 - 5 + 1 <> 0
      /\ uint64 (3 - 5 + 1) <> 0
      /\ map_random_to_range [0; 0; 0; 0; 0; 0; 0; 0] 5 3 = 5
      /\ ~ (5 <= map_random_to_range [0; 0; 0; 0; 0; 0; 0; 0] 5 3 <= 3)).
Proof.
  split.
  - cbv zeta. split; vm_compute; reflexivity.
  - repeat split; try (vm_compute; discriminate).
    vm_compute. intros [_ H]. apply H. reflexivity.
Qed.

(** C6, what the code computes.  For every [min <= max] (64-bit values)
    with [max - min + 1] nonzero as a 64-bit value, [map_random_to_range]
    reads the eight bytes it is handed as one big-endian 64-bit integer [v]
    and returns [min + v mod (max - min + 1)], a value of [[min, max]];
    and the value [genrate_random_number_in_range] reports is that
    expression for the returned random bytes 1 to 8: the first returned
    byte is skipped. *)
Theorem map_random_to_range_in_range :
  forall min max,
    0 <= min -> min <= max -> max < 2 ^ 64 -> uint64 (max - min + 1) <> 0 ->
    (forall random_bytes,
        length random_bytes = 8%nat -> Forall is_byte random_bytes ->
        map_random_to_range random_bytes min max
        = min + big_endian random_bytes mod (max - min + 1))
    /\ (forall random_bytes,
          min <= map_random_to_range random_bytes min max <= max)
    /\ (forall dev st,
          let command :=
            I2cWrite (ATECC_WORDADDR_CMD ::
                      build_command ATECC_CMD_RANDOM 0x00 0x0000 [] 0) in
          let response :=
            response_after dev (wire st ++ [command])
              (Z.to_nat ATECC_RESPONSE_SIZE) 35 in
          let returned := firstn 32 (skipn 1 response) in
          Forall is_byte returned ->
          fst (genrate_random_number_in_range dev min max st) = Ok tt ->
          console (snd (genrate_random_number_in_range dev min max st))
          = console st
            ++ [PrintRandomInRange min max
                  (min + big_endian (firstn 8 (skipn 1 returned))
                         mod (max - min + 1))]).
Proof.
  intros min max Hmin Hle Hmax Hnz.
  assert (Hmap : forall random_bytes,
            length random_bytes = 8%nat -> Forall is_byte random_bytes ->
            map_random_to_range random_bytes min max
            = min + big_endian random_bytes mod (max - min + 1)).
  { intros random_bytes Hlen Hbytes.
    unfold map_random_to_range.
    rewrite random_value_big_endian by assumption.
    assert (Hm : uint64 (max - min + 1) = max - min + 1).
    { unfold uint64 in *.
      destruct (Z.eq_dec (max - min + 1) (2 ^ 64)) as [E|E].
      - rewrite E, Z.mod_same in Hnz by (cbn; lia). contradiction.
      - apply Z.mod_small. lia. }
    rewrite Hm.
    pose proof (Z.mod_pos_bound (big_endian random_bytes) (max - min + 1)
                  ltac:(lia)).
    unfold uint64. apply Z.mod_small. lia. }
  split; [exact Hmap|split].
  - intros random_bytes.
    destruct (map_random_to_range_bounds random_bytes min max Hmin Hle Hmax Hnz)
      as (v & _ & _ & H). exact H.
  - intros dev st. cbv zeta. intros Hbytes.
    unfold genrate_random_number_in_range, bind.
    destruct (send_atecc_cmd dev ATECC_CMD_RANDOM 0 0 None 0 st)
      as [[[]|e] st1] eqn:Hsend; [|discriminate].
    apply send_atecc_cmd_no_payload_ok in Hsend.
    destruct (receive_atecc_response dev (Some (repeat 0 32)) 32 true st1)
      as [[resp|e] st2] eqn:Hrecv; [|discriminate].
    apply receive_atecc_response_ok in Hrecv. cbv zeta in Hrecv.
    change (response_read_length 32 true) with 35 in Hrecv.
    destruct Hrecv as (Hst2 & buf & Hbuf & Hresp).
    assert (Hzeros : buf = repeat 0 32) by congruence.
    intros _. unfold printf. cbn [snd console].
    subst st2 st1 buf. unfold issued in *. cbn [wire console] in *.
    do 3 f_equal.
    set (response := response_after dev _ _ 35) in *.
    assert (Hlen : length response = 128%nat).
    { unfold response, response_after.
      change (Z.to_nat ATECC_RESPONSE_SIZE) with 128%nat.
      rewrite read_buffer_length
        by (rewrite repeat_length; change (Z.to_nat 35) with 35%nat; lia).
      apply repeat_length. }
    assert (Hreturned : resp = firstn 32 (skipn 1 response)).
    { rewrite Hresp. unfold memcpy. change (Z.to_nat 32) with 32%nat.
      change (skipn 32 (repeat 0 32)) with (@nil Z). apply app_nil_r. }
    rewrite <- Hreturned in *.
    rewrite map_random_to_range_firstn.
    apply Hmap.
    + rewrite length_firstn, length_skipn, Hreturned, length_firstn,
        length_skipn, Hlen. reflexivity.
    + apply Forall_firstn_skipn. exact Hbytes.
Qed.

Lemma map_random_to_range_in_range_witness :
  0 <= 0 /\ 0 <= 10000000 /\ 10000000 < 2 ^ 64
  /\ uint64 (10000000 - 0 + 1) <> 0
  /\ map_random_to_range [0; 0; 0; 0; 0; 0x98; 0x96; 0x81] 0 10000000 = 0
  /\ 0 <= map_random_to_range [1; 2; 3; 4; 5; 6; 7; 8] 0 10000000 <= 10000000.
Proof.
  assert (H1 : 0 <= 0) by lia.
  assert (H2 : 0 <= 10000000) by lia.
  assert (H3 : 10000000 < 2 ^ 64) by reflexivity.
  assert (H4 : uint64 (10000000 - 0 + 1) <> 0) by (vm_compute; discriminate).
  pose proof (map_random_to_range_in_range 0 10000000 H1 H2 H3 H4)
    as (Heq & Hrange & _).
  split; [exact H1|]. split; [exact H2|]. split; [exact H3|].
  split; [exact H4|]. split.
  - rewrite Heq; [vm_compute; reflexivity|reflexivity|].
    repeat constructor; unfold is_byte; lia.
  - exact (Hrange [1; 2; 3; 4; 5; 6; 7; 8]).
Defined.

End RandomFacts.

(** * How the transactions treat a failed [ioctl] *)

Module TransportFacts.
Import FramerFacts ReaderFacts HashFacts StateFacts.

Lemma not_tolerated_false errno :
  not_tolerated errno = false <-> tolerable errno.
Proof.
  unfold not_tolerated, tolerable.
  destruct (Z.eqb_spec errno EIO), (Z.eqb_spec errno EREMOTEIO);
    cbn; intuition congruence.
Qed.

Lemma not_tolerated_true errno :
  not_tolerated errno = true <-> ~ tolerable errno.
Proof.
  rewrite <- not_tolerated_false.
  destruct (not_tolerated errno); intuition congruence.
Qed.

(** C8 as stated fails: the write of [atecc_sleep] and the read of
    [atecc_wake] are fatal on [EIO] too. *)
Lemma atecc_sleep_fails_on_eio :
  atecc_sleep (fun _ => IoctlFailed EIO) power_on
  = (Err (I2cWriteFailed EIO), mkState [I2cWrite [ATECC_CMD_SLEEP]] [])
  /\ atecc_wake (fun _ => IoctlFailed EREMOTEIO) power_on
     = (Err (I2cReadFailed EREMOTEIO),
        mkState [I2cWrite [ATECC_WAKE_TOKEN]; I2cRead 4] []).
Proof. split; reflexivity. Qed.

(** C8, amended.  In the command send and the write of the wake token a
    failed transaction is let pass exactly when [errno] is [EIO] or
    [EREMOTEIO], and the operation goes on; any other [errno] is fatal.
    The response read and the cipher read report a transport failure for
    any other [errno]; with [EIO] or [EREMOTEIO] they skip that report and
    then fail on the count byte 0 of the response array the read left
    untouched, so the operation fails there too, as an invalid count.  The
    read of the wake response, the write of the sleep command and the read
    of the hash response are fatal for every [errno], [EIO] and [EREMOTEIO]
    included. *)
Theorem failed_transaction_handling :
  forall dev st errno,
    (* command send *)
    (forall opcode param1 param2 data data_len payload,
        data_len <= ATECC_CMD_SIZE - 7 ->
        copy_payload data data_len st = (Ok payload, st) ->
        dev (wire st ++ [I2cWrite (ATECC_WORDADDR_CMD ::
               build_command opcode param1 param2 payload data_len)])
        = IoctlFailed errno ->
        let outcome :=
          fst (send_atecc_cmd dev opcode param1 param2 data data_len st) in
        (tolerable errno -> outcome = Ok tt)
        /\ (~ tolerable errno -> outcome = Err (I2cWriteFailed errno)))
    (* response read *)
    /\ (forall buffer length full_response,
          length <> 0 ->
          dev (wire st ++ [I2cRead (response_read_length length full_response)])
          = IoctlFailed errno ->
          let outcome :=
            fst (receive_atecc_response dev (Some buffer) length
                   full_response st) in
          (tolerable errno -> outcome = Err (InvalidCount 0))
          /\ (~ tolerable errno -> outcome = Err (I2cReadFailed errno)))
    (* cipher read *)
    /\ (forall fd output_data,
          0 <= fd ->
          dev (wire st ++ [I2cRead AES_RESPONSE_SIZE]) = IoctlFailed errno ->
          let outcome :=
            fst (receive_aes_response dev fd (Some output_data) st) in
          (tolerable errno -> outcome = Err (InvalidCount 0))
          /\ (~ tolerable errno -> outcome = Err (I2cReadFailed errno)))
    (* wake: write of the token *)
    /\ (dev (wire st ++ [I2cWrite [ATECC_WAKE_TOKEN]]) = IoctlFailed errno ->
        (tolerable errno ->
           wire (snd (atecc_wake dev st))
           = wire st ++ [I2cWrite [ATECC_WAKE_TOKEN]; I2cRead 4])
        /\ (~ tolerable errno ->
              atecc_wake dev st
              = (Err (I2cWriteFailed errno),
                 issued st (I2cWrite [ATECC_WAKE_TOKEN]))))
    (* wake: read of the response *)
    /\ ((forall e, dev (wire st ++ [I2cWrite [ATECC_WAKE_TOKEN]])
                   = IoctlFailed e -> tolerable e) ->
        dev (wire st ++ [I2cWrite [ATECC_WAKE_TOKEN]; I2cRead 4])
        = IoctlFailed errno ->
        fst (atecc_wake dev st) = Err (I2cReadFailed errno))
    (* sleep *)
    /\ (dev (wire st ++ [I2cWrite [ATECC_CMD_SLEEP]]) = IoctlFailed errno ->
        fst (atecc_sleep dev st) = Err (I2cWriteFailed errno))
    (* hash read *)
    /\ (forall bytes output,
          writes_accepted dev ->
          Z.of_nat (length bytes) < 2 ^ 64 ->
          dev (wire st ++ map phase_write (spec_sha256_phases bytes)
               ++ [I2cRead 35]) = IoctlFailed errno ->
          fst (compute_sha256 dev (Some bytes) (Z.of_nat (length bytes))
                 (Some output) st) = Err (I2cReadFailed errno)).
Proof.
  intros dev st errno.
  pose proof (not_tolerated_false errno) as Hf.
  pose proof (not_tolerated_true errno) as Ht.
  repeat apply conj.
  - intros opcode param1 param2 data data_len payload Hfit Hcopy Hdev.
    cbv zeta.
    destruct (send_atecc_cmd_cases dev opcode param1 param2 data data_len st)
      as [[_ [Hbig|[Hpos Hnull]]] | (_ & _ & payload' & Hcopy' & Hrun)].
    + lia.
    + subst data. unfold copy_payload in Hcopy.
      destruct (Z.ltb_spec 0 data_len); [discriminate|lia].
    + rewrite Hcopy in Hcopy'. injection Hcopy' as <-.
      cbv zeta in Hrun. rewrite Hrun, Hdev. cbn [fst].
      destruct (not_tolerated errno); split; intros H;
        try reflexivity; intuition congruence.
  - intros buffer length full_response Hlen Hdev. cbv zeta.
    destruct (receive_atecc_response_cases dev (Some buffer) length
                full_response st)
      as [[_ [Hnone|Hzero]]
         | [(e & Hdev' & Htol & Hrun) | (buf & Hbuf & _ & Hpass & Hrun)]].
    + discriminate.
    + contradiction.
    + rewrite Hdev in Hdev'. injection Hdev' as <-.
      cbv zeta in Hrun. rewrite Hrun. cbn [fst].
      split; intros H; [intuition congruence|reflexivity].
    + cbv zeta in Hrun. rewrite Hrun. cbn [fst].
      specialize (Hpass errno Hdev).
      unfold response_after, read_buffer. rewrite Hdev.
      split; intros H; [reflexivity|intuition congruence].
  - intros fd output_data Hfd Hdev. cbv zeta.
    unfold receive_aes_response, bind, ioctl.
    destruct (Z.ltb_spec fd 0) as [|_]; [lia|].
    rewrite Hdev.
    destruct (not_tolerated errno); split; intros H;
      try reflexivity; intuition congruence.
  - intros Hdev. unfold atecc_wake, bind, ioctl, issued. rewrite Hdev.
    clear Hdev.
    destruct (not_tolerated errno); split; intros H;
      try reflexivity; try (intuition congruence).
    unfold ret. cbv beta iota zeta. cbn [wire console].
    rewrite <- app_assoc. cbn [app].
    match goal with |- context [dev ?h] => destruct (dev h) as [rx|e] end;
      [|reflexivity].
    unfold fail, printf.
    match goal with |- context [if ?c then _ else _] => destruct c end;
      reflexivity.
  - intros Hwrite Hread. unfold atecc_wake, bind, ioctl.
    destruct (dev (wire st ++ [I2cWrite [ATECC_WAKE_TOKEN]])) as [rx|e] eqn:Hw.
    + unfold ret. cbv beta iota zeta. cbn [wire console].
      rewrite <- app_assoc. cbn [app]. rewrite Hread. reflexivity.
    + specialize (Hwrite e eq_refl). apply not_tolerated_false in Hwrite.
      rewrite Hwrite.
      unfold ret. cbv beta iota zeta. cbn [wire console].
      rewrite <- app_assoc. cbn [app]. rewrite Hread. reflexivity.
  - intros Hdev. unfold atecc_sleep, bind, ioctl. rewrite Hdev. reflexivity.
  - intros bytes output Hbus Hsize Hdev.
    rewrite compute_sha256_sends_bytes by assumption.
    unfold sha256_response, bind, ioctl. cbn [wire console].
    rewrite <- app_assoc, Hdev. reflexivity.
Qed.

Lemma failed_transaction_handling_witness :
  fst (atecc_sleep (fun _ => IoctlFailed EIO) power_on)
  = Err (I2cWriteFailed EIO)
  /\ fst (send_atecc_cmd (fun _ => IoctlFailed EREMOTEIO)
            ATECC_CMD_READ 0x00 0x0000 None 0 power_on) = Ok tt
  /\ fst (send_atecc_cmd (fun _ => IoctlFailed EINVAL)
            ATECC_CMD_READ 0x00 0x0000 None 0 power_on)
     = Err (I2cWriteFailed EINVAL).
Proof.
  split; [|split].
  - destruct (failed_transaction_handling (fun _ => IoctlFailed EIO)
                power_on EIO) as (_ & _ & _ & _ & _ & Hsleep & _).
    apply Hsleep. reflexivity.
  - destruct (failed_transaction_handling (fun _ => IoctlFailed EREMOTEIO)
                power_on EREMOTEIO) as (Hsend & _).
    apply (Hsend ATECC_CMD_READ 0x00 0x0000 None 0 []).
    + unfold ATECC_CMD_SIZE. lia.
    + reflexivity.
    + reflexivity.
    + right. reflexivity.
  - destruct (failed_transaction_handling (fun _ => IoctlFailed EINVAL)
                power_on EINVAL) as (Hsend & _).
    apply (Hsend ATECC_CMD_READ 0x00 0x0000 None 0 []).
    + unfold ATECC_CMD_SIZE. lia.
    + reflexivity.
    + reflexivity.
    + unfold tolerable, EINVAL, EIO, EREMOTEIO. lia.
Defined.

End TransportFacts.

(** * Properties of the lock-status operation *)

Module LockFacts.
Import Crc CrcFacts DiagnosticFacts StateFacts TransportFacts.






End LockFacts.

(** * Properties of the serial-number read *)

Module SerialFacts.
Import StateFacts.

(** The four payload bytes a 7-byte read holds after the count byte. *)
Lemma response_payload_length dev history :
  length (firstn 4 (skipn 1 (response_after dev history
                               (Z.to_nat ATECC_RESPONSE_SIZE) 7))) = 4%nat.
Proof.
  unfold response_after. change (Z.to_nat ATECC_RESPONSE_SIZE) with 128%nat.
  rewrite length_firstn, length_skipn, read_buffer_length.
  - rewrite repeat_length. reflexivity.
  - rewrite repeat_length. change (Z.to_nat 7) with 7%nat. lia.
Qed.

(** The local array [serial] after the three reads. *)
Lemma serial_assembly source_1 source_2 source_3 :
  length (firstn 4 source_1) = 4%nat ->
  length (firstn 4 source_2) = 4%nat ->
  length (firstn 4 source_3) = 4%nat ->
  let serial := repeat 0 (Z.to_nat ATECC_SERIAL_NUMBER_SIZE) in
  let serial :=
    firstn 0 serial ++ memcpy (skipn (Z.to_nat 0) serial) source_1 4 in
  let serial :=
    firstn 4 serial ++ memcpy (skipn (Z.to_nat 4) serial) source_2 4 in
  firstn 8 serial
  ++ nth 0 (memcpy (repeat 0 4) source_3 4) 0 :: skipn 9 serial
  = firstn 4 source_1 ++ firstn 4 source_2 ++ [nth 0 (firstn 4 source_3) 0].
Proof.
  intros L1 L2 L3. cbv zeta. unfold memcpy.
  change (Z.to_nat 4) with 4%nat. change (Z.to_nat 0) with 0%nat.
  change (Z.to_nat ATECC_SERIAL_NUMBER_SIZE) with 9%nat.
  set (q1 := firstn 4 source_1) in *.
  set (q2 := firstn 4 source_2) in *.
  set (q3 := firstn 4 source_3) in *.
  clearbody q1 q2 q3.
  do 4 (destruct q1 as [|? q1]; [discriminate L1|]).
  destruct q1; [|discriminate L1].
  do 4 (destruct q2 as [|? q2]; [discriminate L2|]).
  destruct q2; [|discriminate L2].
  do 4 (destruct q3 as [|? q3]; [discriminate L3|]).
  destruct q3; [|discriminate L3].
  reflexivity.
Qed.

(** C10. Whatever the call does, the caller's [serial_number] buffer holds
    after it what it held before; a successful call has assembled the
    identifier from the four payload bytes of its first read, the four of
    its second and the first of its third in a local array, and printed
    it. *)
Theorem read_atecc_serial_number_leaves_output :
  forall dev serial_number st,
    let run := read_atecc_serial_number dev serial_number st in
    snd (fst run) = serial_number
    /\ (fst (fst run) = Ok tt ->
        let read_cmd address :=
          I2cWrite (ATECC_WORDADDR_CMD ::
                    build_command ATECC_CMD_READ 0x00 address [] 0) in
        let history_1 := wire st ++ [read_cmd 0x0000] in
        let history_2 := history_1 ++ [I2cRead 7; read_cmd 0x0002] in
        let history_3 := history_2 ++ [I2cRead 7; read_cmd 0x0003] in
        let payload history :=
          firstn 4 (skipn 1 (response_after dev history
                               (Z.to_nat ATECC_RESPONSE_SIZE) 7)) in
        console (snd run)
        = console st
          ++ [PrintSerialNumber
                (payload history_1 ++ payload history_2
                 ++ [nth 0 (payload history_3) 0])]).
Proof.
  intros dev serial_number st. cbv zeta.
  unfold read_atecc_serial_number.
  destruct serial_number as [caller_buffer|];
    [|split; [reflexivity|cbn [fst]; discriminate]].
  match goal with
  | |- context [let (r, st') := ?body st in _] =>
      destruct (body st) as [outcome st_end] eqn:Hbody
  end.
  cbn [fst snd]. split; [reflexivity|]. intros ->.
  unfold bind in Hbody.
  destruct (send_atecc_cmd dev ATECC_CMD_READ 0 0 None 0 st)
    as [[[]|e] s1] eqn:E1; [|discriminate].
  apply send_atecc_cmd_no_payload_ok in E1.
  destruct (receive_atecc_response dev _ 4 true s1)
    as [[p1|e] s2] eqn:E2; [|discriminate].
  apply receive_atecc_response_ok in E2.
  destruct E2 as (-> & buf1 & Hbuf1 & ->).
  destruct (send_atecc_cmd dev ATECC_CMD_READ 0 2 None 0 _)
    as [[[]|e] s3] eqn:E3; [|discriminate].
  apply send_atecc_cmd_no_payload_ok in E3.
  destruct (receive_atecc_response dev _ 4 true s3)
    as [[p2|e] s4] eqn:E4; [|discriminate].
  apply receive_atecc_response_ok in E4.
  destruct E4 as (-> & buf2 & Hbuf2 & ->).
  destruct (send_atecc_cmd dev ATECC_CMD_READ 0 3 None 0 _)
    as [[[]|e] s5] eqn:E5; [|discriminate].
  apply send_atecc_cmd_no_payload_ok in E5.
  destruct (receive_atecc_response dev _ 4 true s5)
    as [[p3|e] s6] eqn:E6; [|discriminate].
  apply receive_atecc_response_ok in E6.
  destruct E6 as (-> & buf3 & Hbuf3 & ->).
  unfold printf in Hbody. injection Hbody as <-.
  subst s5 s3 s1.
  unfold ptr_add, option_map in Hbuf1, Hbuf2.
  injection Hbuf1 as <-. injection Hbuf2 as <-. injection Hbuf3 as <-.
  cbn [console wire issued].
  change (response_read_length 4 true) with 7.
  rewrite <- !app_assoc. cbn [app].
  do 2 f_equal. f_equal.
  apply serial_assembly; apply response_payload_length.
Qed.

End SerialFacts.

(** * Further properties: frame layout, reader and wake outcomes *)

Module LayoutFacts.
Import Crc CrcFacts FramerFacts ReaderFacts StateFacts TransportFacts.

Lemma Forall_firstn_bytes (P : Z -> Prop) n l :
  Forall P l -> Forall P (firstn n l).
Proof.
  intros H. revert n. induction H as [|x l Hx Hl IH]; intros [|n]; cbn;
    constructor; auto.
Qed.

Lemma nth_skipn_zeros k (l : list Z) i :
  (forall j, nth j l 0 = 0) -> nth i (skipn k l) 0 = 0.
Proof.
  revert l. induction k as [|k IH]; intros l H; cbn; [apply H|].
  destruct l as [|x l]; [destruct i; reflexivity|].
  apply IH. intros j. exact (H (S j)).
Qed.

Lemma calc_crc16_ccitt_bytes length data :
  exists crc_0 crc_1,
    calc_crc16_ccitt length data = [crc_0; crc_1]
    /\ is_byte crc_0 /\ is_byte crc_1.
Proof.
  unfold calc_crc16_ccitt, is_byte, uint8. do 2 eexists.
  split; [reflexivity|].
  split; apply Z.mod_pos_bound; lia.
Qed.

Lemma param2_bytes param2 :
  0 <= param2 < 65536 ->
  uint8 (Z.land param2 0xFF) = param2 mod 256
  /\ uint8 (Z.land (Z.shiftr param2 8) 0xFF) = param2 / 256.
Proof.
  intros H. unfold uint8. change 0xFF with (Z.ones 8).
  rewrite !Z.land_ones, Z.shiftr_div_pow2 by lia.
  change (2 ^ 8) with 256. rewrite !Z.mod_mod by lia.
  split; [reflexivity|].
  apply Z.mod_small.
  split; [apply Z.div_pos|apply Z.div_lt_upper_bound]; lia.
Qed.

(** X1. The bytes of a command on the bus: word address 0x03, then the
    body made of the count [7 + data_len] (never wrapped), opcode, param1,
    param2 low byte then high byte and the [data_len] payload bytes, then
    the two bytes of the checksum of that body; [8 + data_len] bytes in
    all, each a byte, and the two param2 bytes give param2 back. *)
Theorem send_atecc_cmd_frame_layout :
  forall dev opcode param1 param2 data data_len st,
    within_size_limits data data_len ->
    is_byte opcode -> is_byte param1 -> 0 <= param2 < 65536 ->
    (forall bytes, data = Some bytes -> Forall is_byte bytes) ->
    exists payload crc_0 crc_1,
      let body :=
        [7 + data_len; opcode; param1; param2 mod 256; param2 / 256]
        ++ payload in
      let frame := ATECC_WORDADDR_CMD :: body ++ [crc_0; crc_1] in
      wire (snd (send_atecc_cmd dev opcode param1 param2 data data_len st))
      = wire st ++ [I2cWrite frame]
      /\ payload = match data with
                   | Some bytes => firstn (Z.to_nat data_len) bytes
                   | None => []
                   end
      /\ [crc_0; crc_1] = calc_crc16_ccitt (Z.of_nat (length body)) body
      /\ Z.of_nat (length frame) = 8 + data_len
      /\ Forall is_byte frame
      /\ nth 4 frame 0 + 256 * nth 5 frame 0 = param2.
Proof.
  intros dev opcode param1 param2 data data_len st Hlim Hop Hp1 Hp2 Hdata.
  destruct (copy_payload_within data data_len st Hlim)
    as (payload & Hcopy & Hlen & Hpayload).
  pose proof Hlim as [Hrange Hptr]. unfold ATECC_CMD_SIZE in Hrange.
  destruct (send_atecc_cmd_cases dev opcode param1 param2 data data_len st)
    as [[_ [Hbig|[Hpos Hnull]]] | (_ & _ & payload' & Hcopy' & Hrun)].
  - unfold ATECC_CMD_SIZE in Hbig. lia.
  - subst data. lia.
  - rewrite Hcopy in Hcopy'. injection Hcopy' as <-.
    cbv zeta in Hrun. rewrite Hrun. cbn [snd issued wire].
    unfold build_command.
    destruct (param2_bytes param2 Hp2) as [-> ->].
    assert (Hcount : uint8 (7 + data_len) = 7 + data_len)
      by (unfold uint8; apply Z.mod_small; lia).
    rewrite Hcount.
    set (body := [7 + data_len; opcode; param1; param2 mod 256;
                  param2 / 256] ++ payload).
    assert (Hbody : Z.of_nat (length body) = 5 + data_len).
    { unfold body. rewrite length_app. cbn [length]. lia. }
    destruct (calc_crc16_ccitt_bytes (5 + data_len) body)
      as (crc_0 & crc_1 & Hcrc & Hc0 & Hc1).
    rewrite Hcrc.
    exists payload, crc_0, crc_1. cbv zeta. fold body.
    assert (Hbytes : Forall is_byte payload).
    { rewrite Hpayload. destruct data as [bytes|]; [|constructor].
      apply Forall_firstn_bytes, Hdata. reflexivity. }
    split; [reflexivity|]. split; [exact Hpayload|].
    split; [rewrite Hbody; symmetry; exact Hcrc|].
    unfold body. cbn [app].
    split; [|split].
    + cbn [length]. rewrite !length_app. cbn [length]. lia.
    + apply Forall_cons; [unfold is_byte, ATECC_WORDADDR_CMD; lia|].
      apply Forall_cons; [unfold is_byte; lia|].
      apply Forall_cons; [exact Hop|].
      apply Forall_cons; [exact Hp1|].
      apply Forall_cons; [apply Z.mod_pos_bound; lia|].
      apply Forall_cons;
        [split; [apply Z.div_pos|apply Z.div_lt_upper_bound]; lia|].
      apply Forall_app. split; [exact Hbytes|].
      apply Forall_cons; [exact Hc0|].
      apply Forall_cons; [exact Hc1|]. apply Forall_nil.
    + cbn [nth]. pose proof (Z.div_mod param2 256 ltac:(lia)). lia.
Qed.

Lemma send_atecc_cmd_frame_layout_witness :
  exists payload crc_0 crc_1,
    wire (snd (send_atecc_cmd idle_bus ATECC_CMD_READ 0x00 0x0215
                 (Some [0xAA; 0xBB; 0xCC]) 2 power_on))
    = wire power_on
      ++ [I2cWrite (ATECC_WORDADDR_CMD ::
                    ([7 + 2; ATECC_CMD_READ; 0x00;
                      0x0215 mod 256; 0x0215 / 256] ++ payload)
                    ++ [crc_0; crc_1])]
    /\ payload = [0xAA; 0xBB].
Proof.
  destruct (send_atecc_cmd_frame_layout idle_bus ATECC_CMD_READ 0x00 0x0215
              (Some [0xAA; 0xBB; 0xCC]) 2 power_on)
    as (payload & crc_0 & crc_1 & Hwire & Hpayload & _).
  - unfold within_size_limits, ATECC_CMD_SIZE. cbn. lia.
  - unfold is_byte, ATECC_CMD_READ. lia.
  - unfold is_byte. lia.
  - lia.
  - intros bytes H. injection H as <-.
    repeat constructor; unfold is_byte; lia.
  - exists payload, crc_0, crc_1. split; [exact Hwire|exact Hpayload].
Defined.

(** Bytes of a read buffer that started as zeros. *)
Lemma nth_read_buffer (size : nat) len rx i :
  (i < Z.to_nat len)%nat -> (Z.to_nat len <= size)%nat ->
  nth i (read_buffer (repeat 0 size) len (IoctlDone rx)) 0 = nth i rx 0.
Proof.
  intros Hi Hlen. unfold read_buffer. cbv zeta. unfold memcpy.
  rewrite Nat2Z.id, firstn_all.
  set (delivered := firstn (Z.to_nat len) rx).
  destruct (Nat.lt_ge_cases i (length delivered)) as [Hin|Hout].
  - rewrite app_nth1 by exact Hin. unfold delivered.
    rewrite nth_firstn.
    destruct (Nat.ltb_spec i (Z.to_nat len)); [reflexivity|lia].
  - rewrite app_nth2 by exact Hout.
    assert (Hrx : (length rx <= i)%nat).
    { unfold delivered in Hout. rewrite length_firstn in Hout. lia. }
    rewrite (nth_overflow rx) by exact Hrx.
    apply nth_skipn_zeros. intros j. apply nth_repeat.
Qed.

Lemma nth_response_failed dev history size len errno i :
  dev (history ++ [I2cRead len]) = IoctlFailed errno ->
  nth i (response_after dev history size len) 0 = 0.
Proof.
  intros Hdev. unfold response_after, read_buffer. rewrite Hdev.
  apply nth_repeat.
Qed.

(** X2. For a length of at most 127, the most the [response] array holds
    after its count byte, [receive_atecc_response] succeeds exactly when it
    is given a buffer and a nonzero length and the count byte of the
    response exceeds 4 and [length] does not exceed [count - 1]; it then
    returns the [length] bytes that follow the count byte and has issued the
    one read.  The two checksum bytes count as available: nothing more is
    asked of them. *)
Theorem receive_atecc_response_succeeds_iff :
  forall dev buffer length full_response st,
    let len := response_read_length length full_response in
    let response :=
      response_after dev (wire st) (Z.to_nat ATECC_RESPONSE_SIZE) len in
    let run := receive_atecc_response dev buffer length full_response st in
    0 <= length <= 127 ->
    ((exists payload, fst run = Ok payload)
     <-> (buffer <> None /\ length <> 0
          /\ 4 < nth 0 response 0 /\ length <= nth 0 response 0 - 1))
    /\ (forall payload,
          fst run = Ok payload ->
          snd run = issued st (I2cRead len)
          /\ exists buf,
               buffer = Some buf
               /\ payload = firstn (Z.to_nat length) (skipn 1 response)
                            ++ skipn (Z.to_nat length) buf).
Proof.
  intros dev buffer length full_response st. cbv zeta. intros _.
  destruct (receive_atecc_response_cases dev buffer length full_response st)
    as [[Hrun Harg] | [(errno & Hdev & _ & Hrun)
                      | (buf & Hbuf & Hlen & _ & Hrun)]];
    cbv zeta in Hrun; rewrite Hrun; cbn [fst snd].
  - split; [|intros payload H; discriminate].
    split; [intros [payload H]; discriminate|].
    intros (Hb & Hl & _). destruct Harg; contradiction.
  - split; [|intros payload H; discriminate].
    split; [intros [payload H]; discriminate|].
    intros (_ & _ & Hcount & _).
    rewrite (nth_response_failed _ _ _ _ errno) in Hcount by exact Hdev. lia.
  - set (response := response_after dev (wire st) _ _).
    unfold extract_payload.
    destruct (Z.ltb_spec (nth 0 response 0) 4) as [Hlt|Hge].
    { split; [|intros payload H; discriminate].
      split; [intros [payload H]; discriminate|]. intros (_ & _ & H & _). lia. }
    destruct (Z.eqb_spec (nth 0 response 0) 4) as [Heq|Hne].
    { split.
      - split; [|intros (_ & _ & H & _); lia].
        intros [payload H].
        destruct (negb (nth 1 response 0 =? ATECC_STATUS_SUCCESS));
          discriminate.
      - intros payload H.
        destruct (negb (nth 1 response 0 =? ATECC_STATUS_SUCCESS));
          discriminate. }
    destruct (Z.ltb_spec (nth 0 response 0 - 1) length) as [Hshort|Hfull].
    { split; [|intros payload H; discriminate].
      split; [intros [payload H]; discriminate|]. intros (_ & _ & _ & H). lia. }
    split.
    + split; [|intros _; eexists; reflexivity].
      intros _. subst buffer. repeat split; try discriminate; try lia.
    + intros payload H. injection H as <-. split; [reflexivity|].
      exists buf. split; [exact Hbuf|reflexivity].
Qed.

Lemma receive_atecc_response_succeeds_iff_witness :
  exists payload,
    fst (receive_atecc_response
           (fun _ => IoctlDone [0x07; 0x01; 0x02; 0x03; 0x04; 0x00; 0x00])
           (Some [0; 0; 0; 0; 0; 0]) 6 false power_on) = Ok payload.
Proof.
  assert (Hbound : 0 <= 6 <= 127) by lia.
  apply (proj1 (receive_atecc_response_succeeds_iff
                  (fun _ => IoctlDone [0x07; 0x01; 0x02; 0x03; 0x04; 0x00; 0x00])
                  (Some [0; 0; 0; 0; 0; 0]) 6 false power_on Hbound)).
  vm_compute. repeat split; discriminate.
Defined.

(** X3. [atecc_wake] succeeds exactly when the write of the wake token
    does not fail fatally and the read completes with a response that begins
    04 11; it then has issued those two transactions and printed the four
    response bytes. *)
Theorem atecc_wake_succeeds_iff :
  forall dev st,
    let token := I2cWrite [ATECC_WAKE_TOKEN] in
    (fst (atecc_wake dev st) = Ok tt
     <-> ((forall errno, dev (wire st ++ [token]) = IoctlFailed errno ->
                         tolerable errno)
          /\ exists rx,
               dev (wire st ++ [token; I2cRead 4]) = IoctlDone rx
               /\ nth 0 rx 0 = 0x04 /\ nth 1 rx 0 = ATECC_STATUS_WAKE))
    /\ (fst (atecc_wake dev st) = Ok tt ->
        wire (snd (atecc_wake dev st)) = wire st ++ [token; I2cRead 4]
        /\ console (snd (atecc_wake dev st))
           = console st
             ++ [PrintWakeResponse
                   (response_after dev (wire st ++ [token]) 4 4)]).
Proof.
  intros dev st. cbv zeta.
  unfold atecc_wake, bind, ioctl, response_after.
  set (token := I2cWrite [ATECC_WAKE_TOKEN]).
  assert (Hread :
    forall st1, wire st1 = wire st ++ [token] -> console st1 = console st ->
    let run :=
      (let (r, st') :=
         (Ok (dev (wire st1 ++ [I2cRead 4])),
          mkState (wire st1 ++ [I2cRead 4]) (console st1)) in
       match r with
       | Ok a =>
           (let (r0, st'0) :=
              match a with
              | IoctlDone _ => ret tt
              | IoctlFailed errno => fail (I2cReadFailed errno)
              end st' in
            match r0 with
            | Ok _ =>
                (if negb (nth 0 (read_buffer (repeat 0 4) 4 a) 0 =? 4)
                    || negb (nth 1 (read_buffer (repeat 0 4) 4 a) 0
                             =? ATECC_STATUS_WAKE)
                 then fail (InvalidWakeResponse (read_buffer (repeat 0 4) 4 a))
                 else printf (PrintWakeResponse (read_buffer (repeat 0 4) 4 a)))
                  st'0
            | Err e => (Err e, st'0)
            end)
       | Err e => (Err e, st')
       end) in
    (fst run = Ok tt
     <-> exists rx,
          dev (wire st ++ [token; I2cRead 4]) = IoctlDone rx
          /\ nth 0 rx 0 = 4 /\ nth 1 rx 0 = ATECC_STATUS_WAKE)
    /\ (fst run = Ok tt ->
        wire (snd run) = wire st ++ [token; I2cRead 4]
        /\ console (snd run)
           = console st
             ++ [PrintWakeResponse
                   (read_buffer (repeat 0 4) 4
                      (dev ((wire st ++ [token]) ++ [I2cRead 4])))])).
  { intros st1 Hw Hc. cbv zeta. rewrite Hw, Hc, <- app_assoc. cbn [app].
    destruct (dev (wire st ++ [token; I2cRead 4])) as [rx|errno] eqn:Hdev.
    - unfold ret. cbv beta iota.
      rewrite !nth_read_buffer by (cbn; lia).
      destruct (Z.eqb_spec (nth 0 rx 0) 4) as [H0|H0];
        destruct (Z.eqb_spec (nth 1 rx 0) ATECC_STATUS_WAKE) as [H1|H1];
        cbn [negb orb]; unfold fail, printf; cbn [fst snd wire console].
      + split; [|intros _; split; reflexivity].
        split; [intros _; exists rx; auto|reflexivity].
      + split; [|discriminate].
        split; [discriminate|]. intros (rx' & E & _ & H). injection E as <-.
        contradiction.
      + split; [|discriminate].
        split; [discriminate|]. intros (rx' & E & H & _). injection E as <-.
        contradiction.
      + split; [|discriminate].
        split; [discriminate|]. intros (rx' & E & H & _). injection E as <-.
        contradiction.
    - unfold fail. cbv beta iota. cbn [fst].
      split; [|discriminate].
      split; [discriminate|]. intros (rx' & E & _). discriminate. }
  destruct (dev (wire st ++ [token])) as [rx0|errno0] eqn:Hwrite.
  - unfold ret at 1. cbv beta iota.
    destruct (Hread (mkState (wire st ++ [token]) (console st))
                eq_refl eq_refl) as [Hiff Hok].
    cbv zeta in Hiff, Hok. cbn [wire console] in Hiff, Hok.
    split; [|exact Hok].
    rewrite Hiff. split; [intros H; split; [intros e He; discriminate|exact H]
                         |intros [_ H]; exact H].
  - destruct (not_tolerated errno0) eqn:Htol.
    + unfold fail at 1. cbv beta iota. cbn [fst].
      split; [|discriminate].
      split; [discriminate|]. intros [H _].
      specialize (H errno0 eq_refl). apply not_tolerated_false in H.
      congruence.
    + unfold ret at 1. cbv beta iota.
      destruct (Hread (mkState (wire st ++ [token]) (console st))
                  eq_refl eq_refl) as [Hiff Hok].
      cbv zeta in Hiff, Hok. cbn [wire console] in Hiff, Hok.
      split; [|exact Hok].
      rewrite Hiff. split.
      * intros H; split; [|exact H]. intros e He. injection He as <-.
        apply not_tolerated_false. exact Htol.
      * intros [_ H]; exact H.
Qed.

End LayoutFacts.

(** * Further properties: integrity of the checksummed responses *)

Module IntegrityFacts.
Import DiagnosticFacts Crc CrcFacts FramerFacts HashFacts StateFacts TransportFacts LayoutFacts.

(** A device response as the chip builds it: a body that begins with its
    count byte, followed by the checksum of the body. *)
Lemma sealed_length body :
  length (body ++ calc_crc16_ccitt (Z.of_nat (length body)) body)
  = (length body + 2)%nat.
Proof. rewrite length_app. reflexivity. Qed.

Lemma nth_0_flip_bit frame index bit :
  (1 <= index)%nat -> nth 0 (flip_bit frame index bit) 0 = nth 0 frame 0.
Proof.
  intros H. destruct frame as [|b frame]; [reflexivity|].
  destruct index as [|index]; [lia|reflexivity].
Qed.

(** [validate_crc] looks at the first [length] bytes only. *)
Lemma validate_crc_prefix frame rest :
  (3 <= length frame <= 255)%nat ->
  validate_crc (frame ++ rest) (Z.of_nat (length frame))
  = validate_crc frame (Z.of_nat (length frame)).
Proof.
  intros Hlen. unfold validate_crc, compute_crc, calc_crc16_ccitt.
  destruct (Z.ltb_spec (Z.of_nat (length frame)) 3); [reflexivity|].
  assert (Hu : uint8 (Z.of_nat (length frame) - 2)
               = Z.of_nat (length frame - 2)).
  { unfold uint8. rewrite Z.mod_small by lia. lia. }
  rewrite Hu, Nat2Z.id.
  rewrite firstn_app.
  replace (length frame - 2 - length frame)%nat with 0%nat by lia.
  rewrite firstn_0, app_nil_r.
  rewrite !(app_nth1 frame rest) by lia.
  reflexivity.
Qed.

(** What a reader holds when the device delivers [rx], no longer than the
    read. *)
Lemma read_buffer_short (size : nat) len rx :
  (length rx <= Z.to_nat len)%nat -> (length rx <= size)%nat ->
  read_buffer (repeat 0 size) len (IoctlDone rx)
  = rx ++ repeat 0 (size - length rx).
Proof.
  intros Hlen Hsize. unfold read_buffer. cbv zeta. unfold memcpy.
  rewrite Nat2Z.id, firstn_all, (firstn_all2 rx) by lia.
  f_equal.
  replace size with (length rx + (size - length rx))%nat at 1 by lia.
  rewrite repeat_app, skipn_app, repeat_length, Nat.sub_diag.
  rewrite skipn_all2 by (rewrite repeat_length; lia).
  reflexivity.
Qed.

Section Sealed.

Variable body : list Z.
Let sealed := body ++ calc_crc16_ccitt (Z.of_nat (length body)) body.

Hypothesis body_length : (2 <= length body <= 253)%nat.

Lemma sealed_validates rest :
  validate_crc (sealed ++ rest) (Z.of_nat (length body) + 2) = true.
Proof.
  pose proof (sealed_length body) as Hlen. fold sealed in Hlen.
  replace (Z.of_nat (length body) + 2) with (Z.of_nat (length sealed)) by lia.
  rewrite validate_crc_prefix by lia.
  replace (Z.of_nat (length sealed)) with (Z.of_nat (length body) + 2) by lia.
  exact (proj1 (validate_crc_frame body ltac:(lia))).
Qed.

Lemma corrupted_rejected rest index bit :
  (index < length body + 2)%nat -> (bit < 8)%nat ->
  validate_crc (flip_bit sealed index bit ++ rest)
    (Z.of_nat (length body) + 2) = false.
Proof.
  intros Hi Hbit.
  pose proof (sealed_length body) as Hlen. fold sealed in Hlen.
  pose proof (flip_bit_length sealed index bit) as Hflip.
  replace (Z.of_nat (length body) + 2)
    with (Z.of_nat (length (flip_bit sealed index bit))) by lia.
  rewrite validate_crc_prefix by lia.
  replace (Z.of_nat (length (flip_bit sealed index bit)))
    with (Z.of_nat (length body) + 2) by lia.
  apply (proj2 (validate_crc_frame body ltac:(lia))); [|exact Hbit].
  fold sealed. lia.
Qed.

End Sealed.







(** What [receive_aes_response] decides on what the read delivers. *)
Lemma receive_aes_response_run dev fd output_data st :
  0 <= fd ->
  let r := dev (wire st ++ [I2cRead AES_RESPONSE_SIZE]) in
  let response :=
    read_buffer (repeat 0 (Z.to_nat AES_RESPONSE_SIZE)) AES_RESPONSE_SIZE r in
  let count := nth 0 response 0 in
  fst (receive_aes_response dev fd (Some output_data) st)
  = match r with
    | IoctlFailed errno =>
        if not_tolerated errno then Err (I2cReadFailed errno)
        else Err (InvalidCount 0)
    | IoctlDone _ =>
        if count <? 4 then Err (InvalidCount count)
        else if count =? 4 then Err (DeviceStatus (nth 1 response 0))
        else if negb (count =? AES_RESPONSE_SIZE)
        then Err (UnexpectedLength count)
        else if negb (validate_crc response count)
        then Err (CrcValidationFailed
                    (firstn 2 (skipn (Z.to_nat (count - 2)) response))
                    (compute_crc (count - 2) response))
        else Ok (memcpy output_data (skipn 1 response) AES_BLOCK_SIZE)
    end.
Proof.
  intros Hfd. cbv zeta. unfold receive_aes_response, bind, ioctl, issued.
  destruct (Z.ltb_spec fd 0); [lia|].
  destruct (dev _) as [rx|errno].
  - unfold debug_crc_mismatch, bind, printf, ret, fail.
    cbv beta iota zeta.
    repeat match goal with
           | |- context [if ?c then _ else _] => destruct c eqn:?
           end; try reflexivity.
    all: exfalso; lia.
  - destruct (not_tolerated errno); reflexivity.
Qed.

(** X6. [receive_aes_response] returns a block only from a 19-byte
    response whose checksum is right, and then the 16 bytes that follow the
    count byte; any other count is refused, and so is a 19-byte response
    with any single bit inverted after the count byte. *)
Theorem receive_aes_response_integrity :
  forall dev fd output_data st,
    0 <= fd ->
    let read := dev (wire st ++ [I2cRead AES_RESPONSE_SIZE]) in
    let outcome := fst (receive_aes_response dev fd (Some output_data) st) in
    (forall rx block,
        read = IoctlDone rx -> outcome = Ok block ->
        nth 0 rx 0 = AES_RESPONSE_SIZE)
    /\ (forall body,
          let sealed :=
            body ++ calc_crc16_ccitt (Z.of_nat (length body)) body in
          length body = 17%nat -> nth 0 body 0 = AES_RESPONSE_SIZE ->
          (read = IoctlDone sealed ->
           outcome = Ok (firstn 16 (skipn 1 body) ++ skipn 16 output_data))
          /\ (forall index bit,
                (1 <= index < 19)%nat -> (bit < 8)%nat ->
                read = IoctlDone (flip_bit sealed index bit) ->
                exists expected computed,
                  outcome = Err (CrcValidationFailed expected computed))).
Proof.
  intros dev fd output_data st Hfd. cbv zeta.
  rewrite (receive_aes_response_run dev fd output_data st Hfd).
  change (Z.to_nat AES_RESPONSE_SIZE) with 19%nat.
  change AES_RESPONSE_SIZE with 19. change AES_BLOCK_SIZE with 16.
  split.
  - intros rx block Hread. rewrite Hread.
    rewrite nth_read_buffer by (cbn; lia).
    destruct (nth 0 rx 0 <? 4); [discriminate|].
    destruct (nth 0 rx 0 =? 4); [discriminate|].
    destruct (Z.eqb_spec (nth 0 rx 0) 19) as [E|E]; [intros _; exact E|].
    discriminate.
  - intros body Hlen Hcount.
    pose proof (sealed_length body) as Hsealed.
    set (sealed := body ++ calc_crc16_ccitt (Z.of_nat (length body)) body)
      in *.
    assert (Hhead : nth 0 sealed 0 = 19).
    { unfold sealed. rewrite app_nth1 by lia. exact Hcount. }
    split.
    + intros Hread. rewrite Hread.
      rewrite read_buffer_short by (change (Z.to_nat 19) with 19%nat; lia).
      replace (19 - length sealed)%nat with 0%nat by lia.
      rewrite app_nth1 by lia. rewrite Hhead.
      change (19 <? 4) with false. change (19 =? 4) with false.
      change (negb (19 =? 19)) with false. cbv iota.
      assert (Hv : forall rest, validate_crc (sealed ++ rest) 19 = true).
      { intros rest. replace 19 with (Z.of_nat (length body) + 2) by lia.
        apply sealed_validates; lia. }
      rewrite Hv. cbn [negb].
      unfold memcpy. change (Z.to_nat 16) with 16%nat.
      do 2 f_equal. cbn [repeat]. rewrite app_nil_r. unfold sealed.
      rewrite skipn_app, firstn_app, length_skipn.
      replace (16 - (length body - 1))%nat with 0%nat by lia.
      rewrite firstn_0, app_nil_r. reflexivity.
    + intros index bit Hi Hbit Hread. rewrite Hread.
      pose proof (flip_bit_length sealed index bit) as Hflip.
      rewrite read_buffer_short by (change (Z.to_nat 19) with 19%nat; lia).
      rewrite app_nth1 by lia.
      rewrite nth_0_flip_bit by lia. rewrite Hhead.
      change (19 <? 4) with false. change (19 =? 4) with false.
      change (negb (19 =? 19)) with false. cbv iota.
      assert (Hv : forall rest,
                 validate_crc (flip_bit sealed index bit ++ rest) 19 = false).
      { intros rest. replace 19 with (Z.of_nat (length body) + 2) by lia.
        apply corrupted_rejected; lia. }
      rewrite Hv. cbn [negb].
      eexists. eexists. reflexivity.
Qed.

Lemma receive_aes_response_integrity_witness :
  let body :=
    [0x13; 0x07; 0x96; 0x94; 0xA6; 0x9E; 0xA6; 0x57; 0xE8;
     0x43; 0xD9; 0x4A; 0x60; 0x34; 0xD3; 0x38; 0x15] in
  let sealed := body ++ calc_crc16_ccitt 17 body in
  0 <= 3
  /\ fst (receive_aes_response (fun _ => IoctlDone sealed) 3
            (Some (repeat 0 16)) power_on)
     = Ok (skipn 1 body).
Proof.
  cbv zeta.
  assert (Hfd : 0 <= 3) by lia. split; [exact Hfd|].
  pose proof (receive_aes_response_integrity
                (fun _ => IoctlDone
                   ([0x13; 0x07; 0x96; 0x94; 0xA6; 0x9E; 0xA6; 0x57; 0xE8;
                     0x43; 0xD9; 0x4A; 0x60; 0x34; 0xD3; 0x38; 0x15]
                    ++ calc_crc16_ccitt 17
                         [0x13; 0x07; 0x96; 0x94; 0xA6; 0x9E; 0xA6; 0x57;
                          0xE8; 0x43; 0xD9; 0x4A; 0x60; 0x34; 0xD3; 0x38;
                          0x15]))
                3 (repeat 0 16) power_on Hfd) as [_ H].
  destruct (H [0x13; 0x07; 0x96; 0x94; 0xA6; 0x9E; 0xA6; 0x57; 0xE8;
               0x43; 0xD9; 0x4A; 0x60; 0x34; 0xD3; 0x38; 0x15]
              eq_refl eq_refl) as [Hok _].
  exact (Hok eq_refl).
Defined.

(** What the response part of [compute_sha256] decides on what the read
    delivers. *)
Lemma sha256_response_run dev output st :
  let r := dev (wire st ++ [I2cRead 35]) in
  let response := read_buffer (repeat 0 35) 35 r in
  let count := nth 0 response 0 in
  sha256_response dev output st
  = match r with
    | IoctlFailed errno => (Err (I2cReadFailed errno), issued st (I2cRead 35))
    | IoctlDone _ =>
        if negb (count =? 0x23) then
          (Err (InvalidCount count), issued st (I2cRead 35))
        else if negb (validate_crc response count) then
          (Err (CrcValidationFailed
                  (firstn 2 (skipn (Z.to_nat (count - 2)) response))
                  (compute_crc (count - 2) response)),
           mkState (wire st ++ [I2cRead 35])
             (console st
              ++ [PrintExpectedCrc (nth 33 response 0) (nth 34 response 0);
                  PrintComputedCrc
                    (nth 0 (compute_crc (count - 2) response) 0)
                    (nth 1 (compute_crc (count - 2) response) 0);
                  PrintCrcMismatch]))
        else
          (Ok (memcpy output (skipn 1 response) 32),
           mkState (wire st ++ [I2cRead 35])
             (console st
              ++ [PrintSha256
                    (firstn 32 (memcpy output (skipn 1 response) 32))]))
    end.
Proof.
  cbv zeta. unfold sha256_response, bind, ioctl, issued.
  destruct (dev _) as [rx|errno]; [|reflexivity].
  unfold ret, fail, printf. cbv beta iota zeta.
  destruct (Z.eqb_spec (nth 0 (read_buffer (repeat 0 35) 35 (IoctlDone rx)) 0)
              35) as [E|E]; cbn [negb orb].
  - rewrite E. change (35 >? 35) with false. change (35 <? 3) with false.
    cbn [orb]. destruct (validate_crc _ 35) eqn:Hv; [reflexivity|].
    cbn [negb]. unfold bind.
    rewrite debug_crc_mismatch_refused by (lia || exact Hv).
    reflexivity.
  - reflexivity.
Qed.

(** X7. On a bus that accepts the writes, [compute_sha256] returns and
    prints a digest only from a 35-byte response whose checksum is right,
    and the digest is the 32 bytes that follow the count byte; a response
    with another count byte is refused, and so is a 35-byte response with
    any single bit inverted after the count byte: then no digest is
    printed, only the three lines of [debug_crc_mismatch], the last of
    which is the mismatch line. *)
Theorem compute_sha256_digest_integrity :
  forall dev data output st,
    let input := match data with Some bytes => bytes | None => [] end in
    writes_accepted dev ->
    Z.of_nat (length input) < 2 ^ 64 ->
    let read :=
      dev (wire st ++ map phase_write (spec_sha256_phases input)
           ++ [I2cRead 35]) in
    let run :=
      compute_sha256 dev data (Z.of_nat (length input)) (Some output) st in
    (forall rx,
        read = IoctlDone rx -> nth 0 rx 0 <> 0x23 ->
        fst run = Err (InvalidCount (nth 0 rx 0)))
    /\ (forall body,
          let sealed :=
            body ++ calc_crc16_ccitt (Z.of_nat (length body)) body in
          length body = 33%nat -> nth 0 body 0 = 0x23 ->
          (read = IoctlDone sealed ->
           fst run = Ok (skipn 1 body ++ skipn 32 output)
           /\ console (snd run) = console st ++ [PrintSha256 (skipn 1 body)])
          /\ (forall index bit,
                let received := flip_bit sealed index bit in
                let computed := calc_crc16_ccitt 33 received in
                (1 <= index < 35)%nat -> (bit < 8)%nat ->
                read = IoctlDone received ->
                fst run
                = Err (CrcValidationFailed [nth 33 received 0;
                                            nth 34 received 0] computed)
                /\ console (snd run)
                   = console st
                     ++ [PrintExpectedCrc (nth 33 received 0)
                           (nth 34 received 0);
                         PrintComputedCrc (nth 0 computed 0)
                           (nth 1 computed 0);
                         PrintCrcMismatch])).
Proof.
  intros dev data output st. cbv zeta. intros Hbus Hsize.
  rewrite (compute_sha256_sends dev Hbus data output st Hsize).
  rewrite sha256_response_run. cbn [wire console].
  rewrite <- app_assoc.
  set (read := dev _).
  split.
  - intros rx Hread Hcount. rewrite Hread.
    rewrite nth_read_buffer by (cbn; lia).
    destruct (Z.eqb_spec (nth 0 rx 0) 35); [contradiction|]. reflexivity.
  - intros body Hlen Hcount.
    pose proof (sealed_length body) as Hsealed.
    set (sealed := body ++ calc_crc16_ccitt (Z.of_nat (length body)) body)
      in *.
    assert (Hhead : nth 0 sealed 0 = 35).
    { unfold sealed. rewrite app_nth1 by lia. exact Hcount. }
    split.
    + intros Hread. rewrite Hread.
      rewrite read_buffer_short by (change (Z.to_nat 35) with 35%nat; lia).
      replace (35 - length sealed)%nat with 0%nat by lia.
      cbn [repeat]. rewrite app_nil_r, Hhead.
      change (negb (35 =? 35)) with false. cbv iota.
      assert (Hv : validate_crc sealed 35 = true).
      { rewrite <- (app_nil_r sealed).
        replace 35 with (Z.of_nat (length body) + 2) by lia.
        apply sealed_validates; lia. }
      rewrite Hv. cbn [negb fst snd console].
      assert (Hdigest : memcpy output (skipn 1 sealed) 32
                        = skipn 1 body ++ skipn 32 output).
      { unfold memcpy, sealed. change (Z.to_nat 32) with 32%nat.
        f_equal. rewrite skipn_app, firstn_app, length_skipn.
        replace (32 - (length body - 1))%nat with 0%nat by lia.
        rewrite firstn_0, app_nil_r.
        apply firstn_all2. rewrite length_skipn. lia. }
      rewrite Hdigest. split; [reflexivity|].
      rewrite firstn_app, length_skipn.
      replace (32 - (length body - 1))%nat with 0%nat by lia.
      rewrite firstn_0, app_nil_r.
      rewrite firstn_all2 by (rewrite length_skipn; lia). reflexivity.
    + intros index bit. cbv zeta. intros Hi Hbit Hread. rewrite Hread.
      pose proof (flip_bit_length sealed index bit) as Hflip.
      assert (Hflip' : length (flip_bit sealed index bit) = 35%nat) by lia.
      rewrite read_buffer_short by (change (Z.to_nat 35) with 35%nat; lia).
      replace (35 - length (flip_bit sealed index bit))%nat with 0%nat by lia.
      cbn [repeat]. rewrite app_nil_r.
      rewrite nth_0_flip_bit by lia. rewrite Hhead.
      change (negb (35 =? 35)) with false. cbv iota.
      assert (Hv : validate_crc (flip_bit sealed index bit) 35 = false).
      { rewrite <- (app_nil_r (flip_bit sealed index bit)).
        replace 35 with (Z.of_nat (length body) + 2) by lia.
        apply corrupted_rejected; lia. }
      rewrite Hv. cbn [negb fst snd console issued].
      change (compute_crc (35 - 2) (flip_bit sealed index bit))
        with (calc_crc16_ccitt 33 (flip_bit sealed index bit)).
      split; [|reflexivity].
      do 2 f_equal. change (Z.to_nat (35 - 2)) with 33%nat.
      set (received := flip_bit sealed index bit) in *.
      do 35 (destruct received as [|? received]; [discriminate Hflip'|]).
      reflexivity.
Qed.

Lemma compute_sha256_digest_integrity_witness :
  let body := 0x23 :: repeat 0xAB 32 in
  let sealed := body ++ calc_crc16_ccitt 33 body in
  writes_accepted (fun _ => IoctlDone sealed)
  /\ fst (compute_sha256 (fun _ => IoctlDone sealed) None 0
            (Some (repeat 0 32)) power_on)
     = Ok (repeat 0xAB 32).
Proof.
  cbv zeta.
  assert (Hbus : writes_accepted
                   (fun _ => IoctlDone
                      ((0x23 :: repeat 0xAB 32)
                       ++ calc_crc16_ccitt 33 (0x23 :: repeat 0xAB 32)))).
  { intros history frame errno H. discriminate H. }
  split; [exact Hbus|].
  pose proof (compute_sha256_digest_integrity _ None (repeat 0 32) power_on
                Hbus ltac:(reflexivity)) as [_ H].
  destruct (H (0x23 :: repeat 0xAB 32) eq_refl eq_refl) as [Hok _].
  exact (proj1 (Hok eq_refl)).
Defined.

End IntegrityFacts.

(** * Further properties: cipher, random value and configuration zone *)

Module LibraryFacts.
Import Crc CrcFacts FramerFacts ReaderFacts StateFacts TransportFacts
  SerialFacts LayoutFacts.

(** A command within the size limits always reaches the bus; only the
    outcome of the write decides. *)
Lemma send_atecc_cmd_within dev opcode param1 param2 data data_len st :
  within_size_limits data data_len ->
  let msg :=
    I2cWrite (ATECC_WORDADDR_CMD ::
              build_command opcode param1 param2
                match data with
                | Some bytes => firstn (Z.to_nat data_len) bytes
                | None => []
                end data_len) in
  send_atecc_cmd dev opcode param1 param2 data data_len st
  = (match dev (wire st ++ [msg]) with
     | IoctlFailed errno =>
         if not_tolerated errno then Err (I2cWriteFailed errno) else Ok tt
     | IoctlDone _ => Ok tt
     end, issued st msg).
Proof.
  intros Hlim. cbv zeta.
  destruct (copy_payload_within data data_len st Hlim)
    as (payload & Hcopy & _ & Hpayload).
  destruct Hlim as [Hrange Hdata].
  destruct (send_atecc_cmd_cases dev opcode param1 param2 data data_len st)
    as [[_ [Hbig|[Hpos Hnull]]] | (_ & _ & payload' & Hcopy' & Hrun)].
  - lia.
  - subst data. lia.
  - rewrite Hcopy in Hcopy'. injection Hcopy' as <-.
    rewrite <- Hpayload. exact Hrun.
Qed.

(** X8. [aes_encrypt] and [aes_decrypt] write one command, opcode 0x51
    with the key slot in param2 and the 16-byte block as payload, that
    differs only in param1 (0 to encrypt, 1 to decrypt), and then read the
    19-byte response; a fatal write ends them before any read, and a
    negative descriptor before any transaction. *)
Theorem aes_operations_compose :
  forall dev fd block output key_slot st,
    (16 <= length block)%nat -> 0 <= key_slot < 256 ->
    (fd < 0 ->
     aes_encrypt dev fd (Some block) (Some output) key_slot st
     = (Err InvalidArgument, st)
     /\ aes_decrypt dev fd (Some block) (Some output) key_slot st
        = (Err InvalidArgument, st))
    /\ (0 <= fd ->
        forall mode,
          let command := aes_command mode key_slot block in
          let operation :=
            if mode =? 0 then aes_encrypt dev fd (Some block) (Some output)
                                key_slot st
            else aes_decrypt dev fd (Some block) (Some output) key_slot st in
          mode = 0 \/ mode = 1 ->
          match dev (wire st ++ [command]) with
          | IoctlFailed errno =>
              if not_tolerated errno
              then operation
                   = (Err (I2cWriteFailed errno), issued st command)
              else operation
                   = receive_aes_response dev fd (Some output)
                       (issued st command)
          | IoctlDone _ =>
              operation
              = receive_aes_response dev fd (Some output) (issued st command)
          end).
Proof.
  intros dev fd block output key_slot st Hblock Hslot. split.
  - intros Hfd. unfold aes_encrypt, aes_decrypt.
    destruct (Z.ltb_spec fd 0); [|lia]. split; reflexivity.
  - intros Hfd mode. cbv zeta. intros Hmode.
    assert (Hkey : uint16 (Z.land key_slot 0xFF) = key_slot).
    { change 0xFF with (Z.ones 8). rewrite Z.land_ones by lia.
      change (2 ^ 8) with 256. unfold uint16.
      rewrite (Z.mod_small key_slot 256) by lia. apply Z.mod_small. lia. }
    assert (Hlim : within_size_limits (Some block) AES_BLOCK_SIZE).
    { unfold within_size_limits, AES_BLOCK_SIZE, ATECC_CMD_SIZE. lia. }
    assert (Hsend :
      forall m,
        send_aes_command dev fd m key_slot (Some block) st
        = (match dev (wire st ++ [aes_command m key_slot block]) with
           | IoctlFailed errno =>
               if not_tolerated errno then Err (I2cWriteFailed errno)
               else Ok tt
           | IoctlDone _ => Ok tt
           end, issued st (aes_command m key_slot block))).
    { intros m. unfold send_aes_command.
      destruct (Z.ltb_spec fd 0); [lia|]. cbn [orb].
      rewrite Hkey.
      exact (send_atecc_cmd_within dev 0x51 m key_slot (Some block)
               AES_BLOCK_SIZE st Hlim). }
    unfold aes_encrypt, aes_decrypt.
    destruct (Z.ltb_spec fd 0); [lia|]. cbn [orb].
    unfold bind. rewrite !Hsend.
    destruct Hmode as [-> | ->]; cbn [Z.eqb];
      match goal with
      | |- context [dev ?h] => destruct (dev h) as [rx|errno]
      end; try reflexivity;
      destruct (not_tolerated errno); reflexivity.
Qed.

Lemma aes_operations_compose_witness :
  (16 <= length (repeat 0x48 16))%nat /\ 0 <= 3 < 256
  /\ aes_decrypt idle_bus 3 (Some (repeat 0x48 16)) (Some (repeat 0 16)) 3
       power_on
     = receive_aes_response idle_bus 3 (Some (repeat 0 16))
         (issued power_on (aes_command 1 3 (repeat 0x48 16))).
Proof.
  assert (H1 : (16 <= length (repeat 0x48 16))%nat) by (cbn; lia).
  assert (H2 : 0 <= 3 < 256) by lia.
  split; [exact H1|]. split; [exact H2|].
  exact (proj2 (aes_operations_compose idle_bus 3 (repeat 0x48 16)
                  (repeat 0 16) 3 power_on H1 H2)
           ltac:(lia) 1 (or_intror eq_refl)).
Defined.

(** X9. [generate_random_value] refuses a length above 31 before any
    transaction; for a length of 0 it sends the Random command and then
    fails; when it succeeds the length is between 1 and 31, it has written
    the command and read [length + 3] bytes, and the value is the [length]
    bytes that follow the count byte. *)
Theorem generate_random_value_bounds :
  forall dev length st,
    0 <= length < 256 ->
    let command :=
      I2cWrite (ATECC_WORDADDR_CMD ::
                build_command ATECC_CMD_RANDOM 0x00 0x0000 [] 0) in
    let run := generate_random_value dev length st in
    (31 < length -> run = (Err InvalidArgument, st))
    /\ (length = 0 ->
        wire (snd run) = wire st ++ [command] /\ exists e, fst run = Err e)
    /\ (forall bytes,
          fst run = Ok bytes ->
          1 <= length <= 31
          /\ wire (snd run) = wire st ++ [command; I2cRead (length + 3)]
          /\ bytes
             = firstn (Z.to_nat length)
                 (skipn 1 (response_after dev (wire st ++ [command])
                             (Z.to_nat ATECC_RESPONSE_SIZE) (length + 3)))
          /\ Z.of_nat (List.length bytes) = length).
Proof.
  intros dev length st Hrange. cbv zeta.
  unfold generate_random_value.
  destruct (Z.gtb_spec length (32 - 1)) as [Hbig|Hfit].
  - split; [reflexivity|]. split; [lia|]. intros bytes H. discriminate H.
  - split; [lia|].
    unfold bind. rewrite send_atecc_cmd_no_payload.
    set (command := I2cWrite (ATECC_WORDADDR_CMD ::
                      build_command ATECC_CMD_RANDOM 0 0 [] 0)).
    set (sent := match dev (wire st ++ [command]) with
                 | IoctlDone _ => Ok tt
                 | IoctlFailed errno =>
                     if not_tolerated errno then Err (I2cWriteFailed errno)
                     else Ok tt
                 end).
    split.
    + intros ->.
      destruct sent as [[]|e]; cbn [fst snd];
        [|split; [reflexivity|eexists; reflexivity]].
      cbn. split; [reflexivity|eexists; reflexivity].
    + intros bytes.
      destruct sent as [[]|e]; [|discriminate].
      destruct (receive_atecc_response_cases dev (Some (repeat 0 32)) length
                  true (issued st command))
        as [[Hrun _] | [(errno & _ & _ & Hrun)
                       | (buf & Hbuf & Hnz & _ & Hrun)]];
        cbv zeta in Hrun; rewrite Hrun; try discriminate.
      injection Hbuf as <-.
      assert (Hlen : response_read_length length true = length + 3).
      { unfold response_read_length, uint64, uint16, ATECC_RESPONSE_SIZE.
        rewrite (Z.mod_small (length + 3)) by lia.
        destruct (Z.gtb_spec (length + 3) 128); [lia|].
        apply Z.mod_small. lia. }
      rewrite Hlen. cbn [wire issued].
      set (response := response_after dev (wire st ++ [command])
                         (Z.to_nat ATECC_RESPONSE_SIZE) (length + 3)).
      assert (Hsize : List.length response = 128%nat).
      { unfold response, response_after.
        rewrite read_buffer_length; rewrite repeat_length;
          change (Z.to_nat ATECC_RESPONSE_SIZE) with 128%nat; lia. }
      unfold extract_payload.
      repeat match goal with
             | |- context [if ?c then _ else _] => destruct c
             end; try discriminate.
      cbn [fst snd wire]. intros H.
      assert (Hinj : forall x y : list Z, @Ok (list Z) x = Ok y -> x = y)
        by (intros x y E; congruence).
      apply Hinj in H. subst bytes.
      split; [lia|].
      split; [unfold issued; cbn [wire]; rewrite <- app_assoc; reflexivity|].
      unfold memcpy.
      assert (Hsrc : List.length (firstn (Z.to_nat length) (skipn 1 response))
                     = Z.to_nat length).
      { rewrite length_firstn, length_skipn. lia. }
      rewrite firstn_app, Hsrc, Nat.sub_diag, firstn_0, app_nil_r.
      rewrite firstn_firstn, Nat.min_id.
      split; [reflexivity|]. rewrite Hsrc. lia.
Qed.

Lemma generate_random_value_bounds_witness :
  0 <= 16 < 256
  /\ forall bytes,
       fst (generate_random_value
              (fun _ => IoctlDone (0x23 :: repeat 0x7F 34)) 16 power_on)
       = Ok bytes ->
       Z.of_nat (List.length bytes) = 16.
Proof.
  assert (H : 0 <= 16 < 256) by lia. split; [exact H|].
  intros bytes Hok.
  destruct (generate_random_value_bounds
              (fun _ => IoctlDone (0x23 :: repeat 0x7F 34)) 16 power_on H)
    as (_ & _ & Hbytes).
  destruct (Hbytes bytes Hok) as (_ & _ & _ & Hlen). exact Hlen.
Defined.

(** A call of the reader with a buffer and a nonzero length issues its one
    read, whatever it returns. *)
Lemma receive_atecc_response_state dev buf length full_response st :
  length <> 0 ->
  snd (receive_atecc_response dev (Some buf) length full_response st)
  = issued st (I2cRead (response_read_length length full_response)).
Proof.
  intros Hnz.
  destruct (receive_atecc_response_cases dev (Some buf) length full_response
              st)
    as [[_ [H|H]] | [(errno & _ & _ & Hrun) | (b & _ & _ & _ & Hrun)]];
    try discriminate; try contradiction;
    cbv zeta in Hrun; rewrite Hrun; reflexivity.
Qed.

(** One block stored into [config_data]. *)
Lemma store_block (config_data payload : list Z) (block : nat) :
  List.length config_data = 128%nat -> (block < 32)%nat ->
  List.length payload = 4%nat ->
  let stored :=
    firstn (Z.to_nat (Z.of_nat block * 4)) config_data
    ++ memcpy (skipn (Z.to_nat (Z.of_nat block * 4)) config_data)
         (memcpy (repeat 0 4) payload 4) 4 in
  List.length stored = 128%nat
  /\ firstn (4 * block) stored = firstn (4 * block) config_data
  /\ firstn 4 (skipn (4 * block) stored) = payload.
Proof.
  intros Hlen Hblock Hpayload. cbv zeta.
  replace (Z.to_nat (Z.of_nat block * 4)) with (4 * block)%nat by lia.
  unfold memcpy. change (Z.to_nat 4) with 4%nat.
  rewrite (firstn_all2 payload) by lia.
  change (skipn 4 (repeat 0 4)) with (@nil Z). rewrite app_nil_r.
  rewrite (firstn_all2 payload) by lia.
  assert (Hpre : List.length (firstn (4 * block) config_data)
                 = (4 * block)%nat)
    by (rewrite length_firstn; lia).
  split; [|split].
  - rewrite !length_app, Hpre, Hpayload, !length_skipn. lia.
  - rewrite firstn_app, Hpre, Nat.sub_diag, firstn_0, app_nil_r.
    apply firstn_all2. lia.
  - rewrite skipn_app, Hpre, Nat.sub_diag.
    rewrite (skipn_all2 (firstn (4 * block) config_data)) by lia.
    cbn [skipn app].
    rewrite firstn_app, Hpayload, Nat.sub_diag, firstn_0, app_nil_r.
    apply firstn_all2. lia.
Qed.

Lemma block_reads_cons block blocks :
  block_reads (block :: blocks)
  = read_command (Z.of_nat block) :: I2cRead 7 :: block_reads blocks.
Proof. reflexivity. Qed.

(** One turn of the loop of [read_config_zone]. *)
Lemma read_config_blocks_step dev remaining block config_data st :
  read_config_blocks dev (S remaining) block config_data st
  = match send_atecc_cmd dev ATECC_CMD_READ 0x00 block None 0 st with
    | (Err e, st1) => (Err e, st1)
    | (Ok _, st1) =>
        match receive_atecc_response dev (Some (repeat 0 4)) 4 true st1 with
        | (Err e, st2) => (Err e, st2)
        | (Ok block_data, st2) =>
            read_config_blocks dev remaining (uint8 (block + 1))
              (firstn (Z.to_nat (block * 4)) config_data
               ++ memcpy (skipn (Z.to_nat (block * 4)) config_data)
                    block_data 4) st2
        end
    end.
Proof.
  cbn [read_config_blocks]. unfold bind.
  destruct (send_atecc_cmd dev ATECC_CMD_READ 0 block None 0 st)
    as [[[]|e] st1]; reflexivity.
Qed.

(** The outcome of the read of one block decides on the count byte. *)
Lemma block_response_outcome dev st :
  let count :=
    nth 0 (response_after dev (wire st) (Z.to_nat ATECC_RESPONSE_SIZE) 7) 0 in
  match fst (receive_atecc_response dev (Some (repeat 0 4)) 4 true st) with
  | Ok _ => (4 <? count) = true
  | Err _ => (4 <? count) = false
  end.
Proof.
  cbv zeta.
  destruct (receive_atecc_response_cases dev (Some (repeat 0 4)) 4 true st)
    as [[_ [H|H]] | [(errno & Hdev & _ & Hrun) | (b & _ & _ & _ & Hrun)]];
    try discriminate; cbv zeta in Hrun; rewrite Hrun; cbn [fst];
    change (response_read_length 4 true) with 7 in *.
  - rewrite (nth_response_failed _ _ _ _ errno) by exact Hdev. reflexivity.
  - set (response := response_after dev (wire st) _ 7).
    unfold extract_payload.
    destruct (Z.ltb_spec (nth 0 response 0) 4); [lia|].
    destruct (Z.eqb_spec (nth 0 response 0) 4).
    { destruct (negb (nth 1 response 0 =? ATECC_STATUS_SUCCESS)); lia. }
    destruct (Z.ltb_spec (nth 0 response 0 - 1) 4); lia.
Qed.

(** The loop from [block] on: what it has read when it ends, and where it
    stops when a block fails. *)
Lemma read_config_blocks_spec dev :
  forall (remaining block : nat) config_data st,
    (block + remaining <= 32)%nat ->
    List.length config_data = 128%nat ->
    let run :=
      read_config_blocks dev remaining (Z.of_nat block) config_data st in
    let before b := wire st ++ block_reads (seq block (b - block)) in
    match fst run with
    | Ok out =>
        wire (snd run) = wire st ++ block_reads (seq block remaining)
        /\ List.length out = 128%nat
        /\ firstn (4 * block) out = firstn (4 * block) config_data
        /\ forall b,
             (block <= b < block + remaining)%nat ->
             block_answered dev (before b) b = true
             /\ firstn 4 (skipn (4 * b) out)
                = block_payload dev (before b ++ [read_command (Z.of_nat b)])
    | Err _ =>
        exists done,
          (done < remaining)%nat
          /\ (forall b,
                (block <= b < block + done)%nat ->
                block_answered dev (before b) b = true)
          /\ block_answered dev (before (block + done)%nat)
               (block + done)%nat = false
          /\ wire (snd run)
             = before (block + done)%nat
               ++ (if command_accepted dev (before (block + done)%nat)
                        (read_command (Z.of_nat (block + done)))
                   then [read_command (Z.of_nat (block + done)); I2cRead 7]
                   else [read_command (Z.of_nat (block + done))])
    end.
Proof.
  induction remaining as [|remaining IH];
    intros block config_data st Hbound Hlen; cbv zeta.
  - cbn [read_config_blocks]. unfold ret. cbn [fst snd seq].
    split; [cbn; rewrite app_nil_r; reflexivity|].
    split; [exact Hlen|]. split; [reflexivity|]. intros b Hb. lia.
  - rewrite read_config_blocks_step.
    rewrite send_atecc_cmd_no_payload. fold (read_command (Z.of_nat block)).
    set (st1 := issued st (read_command (Z.of_nat block))).
    assert (Hhere : wire st ++ block_reads (seq block (block + 0 - block))
                    = wire st).
    { rewrite Nat.add_0_r, Nat.sub_diag. cbn. apply app_nil_r. }
    destruct (match dev (wire st ++ [read_command (Z.of_nat block)]) with
              | IoctlDone _ => Ok tt
              | IoctlFailed errno =>
                  if not_tolerated errno then Err (I2cWriteFailed errno)
                  else Ok tt
              end) as [[]|e] eqn:Hsent.
    2:{ cbv beta iota. cbn [fst snd].
        assert (Hacc : command_accepted dev (wire st)
                         (read_command (Z.of_nat block)) = false).
        { unfold command_accepted.
          destruct (dev _) as [rx|errno]; [discriminate Hsent|].
          destruct (not_tolerated errno); [reflexivity|discriminate Hsent]. }
        exists 0%nat. split; [lia|]. split; [intros b Hb; lia|].
        rewrite Hhere. unfold block_answered.
        rewrite Nat.add_0_r, Hacc. split; reflexivity. }
    assert (Hacc : command_accepted dev (wire st)
                     (read_command (Z.of_nat block)) = true).
    { unfold command_accepted.
      destruct (dev _) as [rx|errno]; [reflexivity|].
      destruct (not_tolerated errno); [discriminate Hsent|reflexivity]. }
    cbv beta iota.
    pose proof (receive_atecc_response_state dev (repeat 0 4) 4 true st1
                  ltac:(lia)) as Hstate.
    change (response_read_length 4 true) with 7 in Hstate.
    pose proof (block_response_outcome dev st1) as Hcount.
    cbv zeta in Hcount.
    change (wire st1) with (wire st ++ [read_command (Z.of_nat block)])
      in Hcount.
    destruct (receive_atecc_response dev (Some (repeat 0 4)) 4 true st1)
      as [[block_data|e] st2] eqn:Hrecv; cbn [fst snd] in Hstate, Hcount;
      subst st2.
    2:{ cbv beta iota. cbn [fst snd].
        exists 0%nat. split; [lia|]. split; [intros b Hb; lia|].
        rewrite Hhere. unfold block_answered.
        rewrite Nat.add_0_r, Hacc, Hcount. split; [reflexivity|].
        unfold st1, issued. cbn [wire].
        rewrite <- app_assoc. reflexivity. }
    assert (Hanswered : block_answered dev (wire st) block = true).
    { unfold block_answered. rewrite Hacc, Hcount. reflexivity. }
    apply receive_atecc_response_ok in Hrecv.
    destruct Hrecv as (_ & buf & Hbuf & Hdata).
    assert (Hinj : forall x y : list Z, Some x = Some y -> x = y)
      by (intros x y E; congruence).
    apply Hinj in Hbuf. subst buf.
    change (response_read_length 4 true) with 7 in Hdata.
    set (payload := block_payload dev (wire st1)).
    assert (Hpayload : List.length payload = 4%nat)
      by apply response_payload_length.
    assert (Hdata' : block_data = memcpy (repeat 0 4) payload 4).
    { rewrite Hdata. unfold memcpy, payload, block_payload.
      rewrite firstn_firstn. reflexivity. }
    rewrite Hdata'.
    destruct (store_block config_data payload block Hlen ltac:(lia) Hpayload)
      as (Hstored & Hprefix & Hslice).
    cbv zeta in Hstored, Hprefix, Hslice.
    set (stored := firstn (Z.to_nat (Z.of_nat block * 4)) config_data ++ _)
      in *.
    assert (Hnext : uint8 (Z.of_nat block + 1) = Z.of_nat (S block))
      by (unfold uint8; rewrite Z.mod_small by lia; lia).
    rewrite Hnext.
    specialize (IH (S block) stored (issued st1 (I2cRead 7))
                  ltac:(lia) Hstored).
    cbv zeta in IH.
    assert (Hshift : forall b,
      (S block <= b)%nat ->
      wire (issued st1 (I2cRead 7)) ++ block_reads (seq (S block) (b - S block))
      = wire st ++ block_reads (seq block (b - block))).
    { intros b Hb. replace (b - block)%nat with (S (b - S block)) by lia.
      cbn [seq]. rewrite block_reads_cons.
      unfold st1, issued. cbn [wire].
      rewrite <- !app_assoc. reflexivity. }
    destruct (fst (read_config_blocks dev remaining (Z.of_nat (S block))
                     stored (issued st1 (I2cRead 7)))) as [out|e].
    + destruct IH as (Hwire & Hout & Hkeep & Hblocks).
      split; [|split; [exact Hout|split]].
      * rewrite Hwire. unfold st1, issued. cbn [wire seq].
        rewrite block_reads_cons, <- !app_assoc. reflexivity.
      * assert (Hmin : Nat.min (4 * block) (4 * S block) = (4 * block)%nat)
          by lia.
        transitivity (firstn (4 * block) (firstn (4 * S block) out));
          [rewrite firstn_firstn, Hmin; reflexivity|].
        rewrite Hkeep, firstn_firstn, Hmin. exact Hprefix.
      * intros b Hb.
        destruct (Nat.eq_dec b block) as [->|Hne].
        -- rewrite Nat.sub_diag. cbn [seq block_reads flat_map].
           rewrite app_nil_r. split; [exact Hanswered|].
           assert (Hfour : (4 * block + 4 = 4 * S block)%nat) by lia.
           assert (Hsame : firstn 4 (skipn (4 * block) out)
                           = firstn 4 (skipn (4 * block) stored)).
           { rewrite !firstn_skipn_comm, Hfour, Hkeep. reflexivity. }
           rewrite Hsame, Hslice. reflexivity.
        -- destruct (Hblocks b ltac:(lia)) as [Hb1 Hb2].
           rewrite Hshift in Hb1, Hb2 by lia. split; assumption.
    + destruct IH as (done & Hdone & Hbefore & Hstop & Hwire).
      exists (S done). split; [lia|].
      replace (block + S done)%nat with (S block + done)%nat by lia.
      rewrite Hshift in Hstop, Hwire by lia.
      split; [|split; [exact Hstop|exact Hwire]].
      intros b Hb.
      destruct (Nat.eq_dec b block) as [->|Hne].
      * rewrite Nat.sub_diag. cbn [seq block_reads flat_map].
        rewrite app_nil_r. exact Hanswered.
      * specialize (Hbefore b ltac:(lia)).
        rewrite Hshift in Hbefore by lia. exact Hbefore.
Qed.

(** X10. [read_config_zone] reads the blocks 0 to 31 in order, each with
    the read command and a read of seven bytes.  When it succeeds the device
    answered every block (the command accepted, a count byte above 4), all
    64 transactions were issued, and its 128 bytes hold at offset [4 * b]
    the four payload bytes of the response to block [b].  When it fails
    there is a first block the device did not answer: every block before it
    was answered and read in full, and of that block the command alone was
    issued if it was refused, the command and the read otherwise; nothing
    follows. *)
Theorem read_config_zone_blocks :
  forall dev st,
    let run := read_config_zone dev st in
    let before b := wire st ++ block_reads (seq 0 b) in
    (forall config_data,
        fst run = Ok config_data ->
        wire (snd run) = before 32%nat
        /\ List.length config_data = 128%nat
        /\ forall b,
             (b < 32)%nat ->
             block_answered dev (before b) b = true
             /\ firstn 4 (skipn (4 * b) config_data)
                = block_payload dev (before b ++ [read_command (Z.of_nat b)]))
    /\ (forall e,
          fst run = Err e ->
          exists done,
            (done < 32)%nat
            /\ (forall b, (b < done)%nat ->
                          block_answered dev (before b) b = true)
            /\ block_answered dev (before done) done = false
            /\ wire (snd run)
               = before done
                 ++ (if command_accepted dev (before done)
                          (read_command (Z.of_nat done))
                     then [read_command (Z.of_nat done); I2cRead 7]
                     else [read_command (Z.of_nat done)])).
Proof.
  intros dev st. cbv zeta. unfold read_config_zone.
  pose proof (read_config_blocks_spec dev 32 0 (repeat 0 128) st
                ltac:(lia) ltac:(apply repeat_length)) as H.
  cbv zeta in H. change (Z.of_nat 0) with 0 in H.
  destruct (fst (read_config_blocks dev 32 0 (repeat 0 128) st)) as [out|e0].
  - destruct H as (Hwire & Hlen & _ & Hblocks).
    split; [|intros e He; discriminate He].
    intros config_data Hok.
    assert (Hinj : forall x y : list Z, @Ok (list Z) x = Ok y -> x = y)
      by (intros x y E; congruence).
    apply Hinj in Hok. subst config_data.
    split; [exact Hwire|]. split; [exact Hlen|].
    intros b Hb. specialize (Hblocks b ltac:(lia)).
    rewrite Nat.sub_0_r in Hblocks. exact Hblocks.
  - split; [intros config_data Hok; discriminate Hok|].
    intros e _. destruct H as (done & Hdone & Hbefore & Hstop & Hwire).
    cbn [Nat.add] in Hstop, Hwire. rewrite Nat.sub_0_r in Hstop, Hwire.
    exists done. split; [exact Hdone|].
    split; [|split; [exact Hstop|exact Hwire]].
    intros b Hb. specialize (Hbefore b ltac:(lia)).
    rewrite Nat.sub_0_r in Hbefore. exact Hbefore.
Qed.

End LibraryFacts.

(** * Further properties: the order of the hash phases on any bus *)

Module HashOrderFacts.
Import Crc FramerFacts HashFacts StateFacts LibraryFacts.

(** The outcome of a tolerant write, and whether it was accepted. *)
Lemma write_outcome_cases dev history msg :
  let outcome :=
    match dev (history ++ [msg]) with
    | IoctlDone _ => Ok tt
    | IoctlFailed errno =>
        if not_tolerated errno then Err (I2cWriteFailed errno) else Ok tt
    end in
  (outcome = Ok tt /\ command_accepted dev history msg = true)
  \/ (exists errno,
        outcome = Err (I2cWriteFailed errno)
        /\ command_accepted dev history msg = false).
Proof.
  cbv zeta. unfold command_accepted.
  destruct (dev (history ++ [msg])) as [rx|errno]; [left; split; reflexivity|].
  destruct (not_tolerated errno);
    [right; exists errno; split; reflexivity|left; split; reflexivity].
Qed.

Lemma all_accepted_app dev msgs :
  forall history later,
    all_accepted dev history (msgs ++ later)
    = all_accepted dev history msgs
      && all_accepted dev (history ++ msgs) later.
Proof.
  induction msgs as [|msg msgs IH]; intros history later.
  - cbn. rewrite app_nil_r. reflexivity.
  - cbn [app all_accepted]. rewrite IH, <- app_assoc, andb_assoc.
    reflexivity.
Qed.

(** The update loop on any bus: all the chunks from [j] on, each accepted,
    or the chunks up to the first one whose write was refused. *)
Lemma sha256_update_loop_prefix dev bytes :
  Z.of_nat (length bytes) < 2 ^ 64 ->
  forall (m j : nat) st,
    (j + m = length bytes / 64)%nat ->
    let writes k n :=
      map phase_write (map (update_phase bytes) (seq k n)) in
    let run :=
      sha256_update_loop dev (Some bytes) (Z.of_nat (length bytes))
        (Z.of_nat (64 * j)) st in
    (run = (Ok (Z.of_nat (64 * (length bytes / 64))),
            mkState (wire st ++ writes j m) (console st))
     /\ all_accepted dev (wire st) (writes j m) = true)
    \/ (exists errno k,
          (k < m)%nat
          /\ run = (Err (I2cWriteFailed errno),
                    mkState (wire st ++ writes j (S k)) (console st))
          /\ all_accepted dev (wire st) (writes j k) = true
          /\ command_accepted dev (wire st ++ writes j k)
               (phase_write (update_phase bytes (j + k)%nat)) = false).
Proof.
  intros Hsize.
  pose proof (Nat.div_mod_eq (length bytes) 64) as Hdm.
  pose proof (Nat.mod_upper_bound (length bytes) 64 ltac:(lia)) as Hmod.
  induction m as [|m IH]; intros j st Hj; cbv zeta;
    rewrite sha256_update_loop_step.
  - left.
    assert (Hu : uint64 (Z.of_nat (length bytes) - Z.of_nat (64 * j))
                 = Z.of_nat (length bytes mod 64)).
    { unfold uint64. rewrite Z.mod_small by lia. lia. }
    rewrite Hu.
    destruct (Z_le_dec 64 (Z.of_nat (length bytes mod 64))) as [Hle|_]; [lia|].
    cbn [seq map all_accepted]. rewrite app_nil_r. destruct st.
    replace j with (length bytes / 64)%nat by lia. split; reflexivity.
  - assert (Hu : uint64 (Z.of_nat (length bytes) - Z.of_nat (64 * j))
                 = Z.of_nat (length bytes) - Z.of_nat (64 * j)).
    { unfold uint64. apply Z.mod_small. lia. }
    rewrite Hu.
    destruct (Z_le_dec 64 (Z.of_nat (length bytes) - Z.of_nat (64 * j)))
      as [_|Hgt]; [|lia].
    change (uint8 64) with 64.
    rewrite send_atecc_cmd_within.
    2:{ unfold within_size_limits, ATECC_CMD_SIZE, ptr_add. cbn [option_map].
        rewrite length_skipn. lia. }
    assert (Hmsg :
      I2cWrite (ATECC_WORDADDR_CMD ::
                build_command ATECC_CMD_SHA 1 0
                  match ptr_add (Some bytes) (Z.of_nat (64 * j)) with
                  | Some bytes0 => firstn (Z.to_nat 64) bytes0
                  | None => []
                  end 64)
      = phase_write (update_phase bytes j)).
    { unfold update_phase, phase_write, ptr_add. cbn [option_map].
      rewrite Nat2Z.id. change (Z.to_nat 64) with 64%nat.
      rewrite length_firstn, length_skipn.
      replace (Z.of_nat (Nat.min 64 (length bytes - 64 * j))) with 64 by lia.
      reflexivity. }
    rewrite Hmsg.
    set (msg := phase_write (update_phase bytes j)).
    destruct (write_outcome_cases dev (wire st) msg)
      as [[Hsent Hacc] | (errno & Hsent & Hacc)];
      cbv zeta in Hsent; rewrite Hsent.
    + assert (Ho : uint64 (Z.of_nat (64 * j) + 64) = Z.of_nat (64 * S j)).
      { unfold uint64. rewrite Z.mod_small by lia. lia. }
      rewrite Ho.
      destruct (IH (S j) (issued st msg) ltac:(lia))
        as [[Hdone Hall] | (errno & k & Hk & Hstop & Hall & Hrefused)];
        cbv zeta in *; unfold issued in *; cbn [wire console] in *.
      * left. rewrite Hdone. cbn [seq map all_accepted]. fold msg.
        rewrite <- app_assoc, Hacc, Hall. split; reflexivity.
      * right. exists errno, (S k). split; [lia|].
        rewrite Hstop. cbn [seq map all_accepted]. fold msg.
        rewrite <- !app_assoc, Hacc, Hall.
        split; [reflexivity|]. split; [reflexivity|].
        replace (j + S k)%nat with (S j + k)%nat by lia.
        rewrite <- app_assoc in Hrefused. exact Hrefused.
    + right. exists errno, 0%nat. split; [lia|].
      cbn [seq map all_accepted]. rewrite app_nil_r, Nat.add_0_r.
      split; [reflexivity|]. split; [reflexivity|exact Hacc].
Qed.

(** [compute_sha256] as the sequence of its four steps. *)
Lemma compute_sha256_steps dev data data_len output st :
  (match data with None => true | Some _ => false end)
  && negb (data_len =? 0) = false ->
  compute_sha256 dev data data_len (Some output) st
  = match send_atecc_cmd dev ATECC_CMD_SHA 0x00 0x0000 None 0 st with
    | (Err e, st1) => (Err e, st1)
    | (Ok _, st1) =>
        match sha256_update_loop dev data data_len 0 st1 with
        | (Err e, st2) => (Err e, st2)
        | (Ok offset, st2) =>
            let remaining := uint8 (uint64 (data_len - offset)) in
            match send_atecc_cmd dev ATECC_CMD_SHA 0x02 (uint16 remaining)
                    (if 0 <? remaining then ptr_add data offset else None)
                    remaining st2 with
            | (Err e, st3) => (Err e, st3)
            | (Ok _, st3) => sha256_response dev output st3
            end
        end
    end.
Proof.
  intros Harg. unfold compute_sha256. rewrite Harg. unfold bind.
  destruct (send_atecc_cmd dev ATECC_CMD_SHA 0 0 None 0 st)
    as [[[]|e] st1]; [|reflexivity].
  destruct (sha256_update_loop dev data data_len 0 st1)
    as [[offset|e] st2]; [|reflexivity].
  cbv zeta.
  destruct (send_atecc_cmd dev ATECC_CMD_SHA 2 _ _ _ st2)
    as [[[]|e] st3]; reflexivity.
Qed.

Lemma seq_prefix j k m :
  (k <= m)%nat -> exists rest, seq j m = seq j k ++ rest.
Proof.
  intros H. exists (seq (j + k) (m - k)).
  replace m with (k + (m - k))%nat at 1 by lia. apply seq_app.
Qed.

Ltac list_eq :=
  cbn [app]; repeat rewrite <- app_assoc; cbn [app]; reflexivity.

(** X11. On any bus, what [compute_sha256] has issued is an initial part
    of the sequence start, updates in chunk order, end, read, in which
    every write but the last issued was accepted.  If it stops before the
    read, the last write issued was refused (it failed with an [errno]
    other than [EIO] or [EREMOTEIO]) and that write failure is the outcome:
    no phase follows a refused one.  A digest is returned only when the
    whole sequence was issued. *)
Theorem compute_sha256_issues_prefix :
  forall dev data output st,
    let input := match data with Some bytes => bytes | None => [] end in
    Z.of_nat (length input) < 2 ^ 64 ->
    let run :=
      compute_sha256 dev data (Z.of_nat (length input)) (Some output) st in
    exists accepted last rest,
      wire (snd run) = wire st ++ accepted ++ [last]
      /\ accepted ++ [last] ++ rest
         = map phase_write (spec_sha256_phases input) ++ [I2cRead 35]
      /\ all_accepted dev (wire st) accepted = true
      /\ (rest <> [] ->
          command_accepted dev (wire st ++ accepted) last = false
          /\ exists errno, fst run = Err (I2cWriteFailed errno))
      /\ (rest = [] -> last = I2cRead 35)
      /\ (forall digest, fst run = Ok digest -> rest = []).
Proof.
  intros dev data output st. cbv zeta. intros Hsize.
  set (input := match data with Some bytes => bytes | None => [] end) in *.
  pose proof (Nat.div_mod_eq (length input) 64) as Hdm.
  pose proof (Nat.mod_upper_bound (length input) 64 ltac:(lia)) as Hmod.
  set (writes := fun k n =>
                   map phase_write (map (update_phase input) (seq k n))).
  assert (Hloop : forall st0,
    let run0 := sha256_update_loop dev data (Z.of_nat (length input)) 0 st0 in
    (run0 = (Ok (Z.of_nat (64 * (length input / 64))),
             mkState (wire st0 ++ writes 0%nat (length input / 64)%nat)
               (console st0))
     /\ all_accepted dev (wire st0) (writes 0%nat (length input / 64)%nat)
        = true)
    \/ (exists errno k,
          (k < length input / 64)%nat
          /\ run0 = (Err (I2cWriteFailed errno),
                     mkState (wire st0 ++ writes 0%nat (S k)) (console st0))
          /\ all_accepted dev (wire st0) (writes 0%nat k) = true
          /\ command_accepted dev (wire st0 ++ writes 0%nat k)
               (phase_write (update_phase input k)) = false)).
  { intros st0. cbv zeta. destruct data as [bytes|].
    - exact (sha256_update_loop_prefix dev bytes Hsize
               (length bytes / 64) 0 st0 eq_refl).
    - left. rewrite sha256_update_loop_step. unfold input. cbn [length].
      change (uint64 (Z.of_nat 0 - 0)) with 0.
      destruct (Z_le_dec 64 0) as [Hle|_]; [lia|].
      cbn. rewrite app_nil_r. destruct st0. split; reflexivity. }
  assert (Harg : (match data with None => true | Some _ => false end)
                 && negb (Z.of_nat (length input) =? 0) = false).
  { destruct data; [reflexivity|]. reflexivity. }
  rewrite (compute_sha256_steps dev data _ output st Harg).
  rewrite send_atecc_cmd_no_payload.
  change (I2cWrite (ATECC_WORDADDR_CMD :: build_command ATECC_CMD_SHA 0 0 [] 0))
    with (phase_write (0, 0, [])).
  set (start := phase_write (0, 0, [])).
  unfold spec_sha256_phases. fold input.
  rewrite !map_app. cbn [map]. fold start.
  fold (writes 0%nat (length input / 64)%nat).
  set (updates := writes 0%nat (length input / 64)%nat).
  set (finish := phase_write (2, Z.of_nat (length input mod 64),
                              skipn (64 * (length input / 64)) input)).
  replace (([start] ++ updates ++ [finish]) ++ [I2cRead 35])
    with (start :: updates ++ [finish; I2cRead 35])
    by (rewrite <- !app_assoc; reflexivity).
  destruct (write_outcome_cases dev (wire st) start)
    as [[Hsent Hstart] | (errno & Hsent & Hstart)];
    cbv zeta in Hsent; rewrite Hsent.
  2:{ exists [], start, (updates ++ [finish; I2cRead 35]).
      cbn [snd fst issued wire app all_accepted].
      split; [reflexivity|]. split; [reflexivity|].
      split; [reflexivity|]. rewrite app_nil_r.
      split; [intros _; split; [exact Hstart|exists errno; reflexivity]|].
      split; [intros H; destruct updates; discriminate H|].
      intros digest H. discriminate H. }
  destruct (Hloop (issued st start))
    as [[Hdone Hall] | (errno & k & Hk & Hstop & Hall & Hrefused)];
    cbv zeta in *; unfold issued in Hall; cbn [wire] in Hall.
  2:{ rewrite Hstop. cbn [snd fst wire issued].
      unfold issued in Hrefused. cbn [wire] in Hrefused.
      destruct (seq_prefix 0 (S k) (length input / 64) ltac:(lia))
        as [later Hlater].
      assert (Hsplit : writes 0%nat (S k)
                       = writes 0%nat k
                         ++ [phase_write (update_phase input k)]).
      { unfold writes. rewrite seq_S, !map_app. reflexivity. }
      exists (start :: writes 0%nat k),
             (phase_write (update_phase input k)),
             (map phase_write (map (update_phase input) later)
              ++ [finish; I2cRead 35]).
      split; [rewrite Hsplit; list_eq|].
      split.
      { unfold updates, writes at 2. rewrite Hlater, !map_app.
        fold (writes 0%nat (S k)). rewrite Hsplit. list_eq. }
      split; [cbn [all_accepted]; rewrite Hstart, Hall; reflexivity|].
      split.
      { intros _. split; [|exists errno; reflexivity].
        rewrite <- Hrefused. f_equal. list_eq. }
      split; [|intros digest H; discriminate H].
      intros H. destruct (map phase_write (map (update_phase input) later));
        discriminate H. }
  rewrite Hdone. fold updates in Hall |- *.
  set (offset := Z.of_nat (64 * (length input / 64))).
  assert (Hrem : uint8 (uint64 (Z.of_nat (length input) - offset))
                 = Z.of_nat (length input mod 64)).
  { unfold uint8, uint64, offset.
    rewrite (Z.mod_small _ (2 ^ 64)) by lia.
    rewrite Z.mod_small by lia. lia. }
  rewrite Hrem.
  set (remaining := Z.of_nat (length input mod 64)).
  rewrite send_atecc_cmd_within.
  2:{ unfold within_size_limits, ATECC_CMD_SIZE, ptr_add, remaining, offset.
      split; [lia|].
      destruct (Z.ltb_spec 0 (Z.of_nat (length input mod 64))); [|lia].
      destruct data as [bytes|]; cbn [option_map].
      - unfold input. rewrite length_skipn. unfold input in *. lia.
      - unfold input in *. cbn in *. lia. }
  assert (Hfinish :
    I2cWrite (ATECC_WORDADDR_CMD ::
              build_command ATECC_CMD_SHA 2 (uint16 remaining)
                match (if 0 <? remaining then ptr_add data offset else None)
                with
                | Some bytes0 => firstn (Z.to_nat remaining) bytes0
                | None => []
                end remaining) = finish).
  { unfold finish, phase_write. f_equal. f_equal.
    assert (Hpayload :
      match (if 0 <? remaining then ptr_add data offset else None) with
      | Some bytes0 => firstn (Z.to_nat remaining) bytes0
      | None => []
      end = skipn (64 * (length input / 64)) input).
    { unfold remaining, offset, ptr_add.
      destruct (Z.ltb_spec 0 (Z.of_nat (length input mod 64))).
      - destruct data as [bytes|]; cbn [option_map].
        + unfold input. rewrite !Nat2Z.id.
          apply firstn_all2. rewrite length_skipn. unfold input in *. lia.
        + unfold input in *. cbn in *. lia.
      - symmetry. apply length_zero_iff_nil. rewrite length_skipn. lia. }
    rewrite Hpayload. unfold remaining, uint16.
    rewrite length_skipn, Z.mod_small by lia.
    replace (Z.of_nat (length input - 64 * (length input / 64)))
      with (Z.of_nat (length input mod 64)) by lia.
    reflexivity. }
  rewrite Hfinish. unfold issued. cbn [wire console].
  destruct (write_outcome_cases dev ((wire st ++ [start]) ++ updates) finish)
    as [[Hsent' Hend] | (errno & Hsent' & Hend)];
    cbv zeta in Hsent'; rewrite Hsent'.
  2:{ exists (start :: updates), finish, [I2cRead 35].
      cbn [snd fst issued wire console].
      split; [list_eq|].
      split; [list_eq|].
      split; [cbn [all_accepted]; rewrite Hstart, Hall; reflexivity|].
      split.
      { intros _. split; [|exists errno; reflexivity].
        rewrite <- Hend. f_equal. list_eq. }
      split; [intros H; discriminate H|]. intros digest H. discriminate H. }
  exists (start :: updates ++ [finish]), (I2cRead 35), [].
  rewrite sha256_response_wire. cbn [issued wire console].
  split; [list_eq|].
  split; [rewrite app_nil_r; list_eq|].
  split.
  { cbn [all_accepted]. rewrite Hstart, all_accepted_app, Hall.
    cbn [all_accepted]. rewrite Hend. reflexivity. }
  split; [intros H; contradiction|].
  split; [reflexivity|]. intros digest _. reflexivity.
Qed.

Lemma compute_sha256_issues_prefix_witness :
  Z.of_nat (length (repeat 0x61 130)) < 2 ^ 64
  /\ exists accepted last rest,
       wire (snd (compute_sha256 (fun _ => IoctlFailed EINVAL)
                    (Some (repeat 0x61 130))
                    (Z.of_nat (length (repeat 0x61 130)))
                    (Some (repeat 0 32)) power_on))
       = wire power_on ++ accepted ++ [last]
       /\ accepted ++ [last] ++ rest
          = map phase_write (spec_sha256_phases (repeat 0x61 130))
            ++ [I2cRead 35]
       /\ all_accepted (fun _ => IoctlFailed EINVAL) (wire power_on) accepted
          = true.
Proof.
  assert (Hsize : Z.of_nat (length (repeat 0x61 130)) < 2 ^ 64)
    by (rewrite repeat_length; reflexivity).
  split; [exact Hsize|].
  destruct (compute_sha256_issues_prefix (fun _ => IoctlFailed EINVAL)
              (Some (repeat 0x61 130)) (repeat 0 32) power_on Hsize)
    as (accepted & last & rest & Hwire & Hsplit & Hall & _).
  exists accepted, last, rest.
  split; [exact Hwire|]. split; [exact Hsplit|exact Hall].
Defined.

End HashOrderFacts.

(** * Further properties: the checksum is linear over XOR *)

Module CrcLinearFacts.
Import Crc CrcFacts.

Lemma lxor_mod_pow2 a b n :
  0 <= n -> Z.lxor a b mod 2 ^ n = Z.lxor (a mod 2 ^ n) (b mod 2 ^ n).
Proof.
  intros Hn. apply Z.bits_inj'. intros i Hi.
  rewrite Z.lxor_spec, !Z.testbit_mod_pow2, Z.lxor_spec by lia.
  destruct (i <? n); reflexivity.
Qed.

Lemma lxor_swap_polynom s s' p :
  Z.lxor (Z.lxor s p) (Z.lxor s' p) = Z.lxor s s'
  /\ Z.lxor (Z.lxor s p) s' = Z.lxor (Z.lxor s s') p
  /\ Z.lxor s (Z.lxor s' p) = Z.lxor (Z.lxor s s') p.
Proof.
  repeat split; apply Z.bits_inj'; intros i Hi; rewrite !Z.lxor_spec;
    destruct (Z.testbit s i), (Z.testbit s' i), (Z.testbit p i); reflexivity.
Qed.

(** The register update is additive over XOR. *)
Lemma spec_shift_xor_linear r r' b b' :
  spec_shift_xor (Z.lxor r r') (xorb b b')
  = Z.lxor (spec_shift_xor r b) (spec_shift_xor r' b').
Proof.
  unfold spec_shift_xor.
  rewrite Z.lxor_spec.
  assert (Hs : (2 * Z.lxor r r') mod 2 ^ 16
               = Z.lxor ((2 * r) mod 2 ^ 16) ((2 * r') mod 2 ^ 16)).
  { rewrite <- lxor_mod_pow2 by lia. f_equal.
    rewrite !(Z.mul_comm 2). change 2 with (2 ^ 1).
    rewrite <- !Z.shiftl_mul_pow2 by lia. apply Z.shiftl_lxor. }
  rewrite Hs.
  destruct (lxor_swap_polynom ((2 * r) mod 2 ^ 16) ((2 * r') mod 2 ^ 16)
              0x8005) as (H1 & H2 & H3).
  destruct b, b', (Z.testbit r 15), (Z.testbit r' 15); cbn [xorb];
    auto using eq_sym.
Qed.

Lemma fold_shift_xor_linear bits bits' :
  length bits = length bits' ->
  forall r r',
    fold_left spec_shift_xor (xor_bits bits bits') (Z.lxor r r')
    = Z.lxor (fold_left spec_shift_xor bits r)
        (fold_left spec_shift_xor bits' r').
Proof.
  revert bits'. induction bits as [|b bits IH]; intros [|b' bits'] Hlen r r';
    try discriminate; [reflexivity|].
  cbn [xor_bits combine map fold_left fst snd].
  rewrite spec_shift_xor_linear. apply IH. cbn in Hlen. lia.
Qed.

Lemma spec_bits_xor a b :
  spec_bits (Z.lxor a b) = xor_bits (spec_bits a) (spec_bits b).
Proof.
  unfold spec_bits, xor_bits. cbn [seq map combine fst snd].
  rewrite !Z.lxor_spec. reflexivity.
Qed.

Lemma spec_bits_length a : length (spec_bits a) = 8%nat.
Proof. reflexivity. Qed.

Lemma spec_register_linear data data' :
  length data = length data' ->
  forall r r',
    spec_register (Z.lxor r r') (xor_bytes data data')
    = Z.lxor (spec_register r data) (spec_register r' data').
Proof.
  revert data'. induction data as [|a data IH]; intros [|a' data'] Hlen r r';
    try discriminate; [reflexivity|].
  cbn [xor_bytes combine map fst snd].
  rewrite !spec_register_cons, spec_bits_xor.
  rewrite fold_shift_xor_linear by reflexivity.
  apply IH. cbn in Hlen. lia.
Qed.

Lemma xor_bytes_length a b :
  length a = length b -> length (xor_bytes a b) = length a.
Proof.
  intros H. unfold xor_bytes. rewrite length_map, length_combine. lia.
Qed.

(** X12. The checksum is linear over XOR: for two byte strings of one
    length, the checksum of their bytewise XOR is the XOR of their
    checksums.  So the change a given error pattern makes to the checksum
    does not depend on the frame it hits. *)
Theorem calc_crc16_ccitt_xor :
  forall data data',
    length data = length data' ->
    calc_crc16_ccitt (Z.of_nat (length data)) (xor_bytes data data')
    = xor_bytes (calc_crc16_ccitt (Z.of_nat (length data)) data)
        (calc_crc16_ccitt (Z.of_nat (length data')) data').
Proof.
  intros data data' Hlen.
  rewrite <- (xor_bytes_length data data' Hlen) at 1.
  rewrite !calc_crc16_ccitt_spec, !Nat2Z.id, !firstn_all.
  unfold spec_checksum.
  change 0 with (Z.lxor 0 0) at 1 2.
  rewrite spec_register_linear by exact Hlen.
  cbn [xor_bytes combine map fst snd].
  change 256 with (2 ^ 8).
  rewrite lxor_mod_pow2 by lia.
  rewrite <- !Z.shiftr_div_pow2 by lia.
  rewrite Z.shiftr_lxor. reflexivity.
Qed.

Lemma calc_crc16_ccitt_xor_witness :
  calc_crc16_ccitt 5 (xor_bytes [0x07; 0x00; 0x00; 0x00; 0x00]
                        [0x00; 0x55; 0x55; 0x12; 0x34])
  = xor_bytes (calc_crc16_ccitt 5 [0x07; 0x00; 0x00; 0x00; 0x00])
      (calc_crc16_ccitt 5 [0x00; 0x55; 0x55; 0x12; 0x34]).
Proof.
  exact (calc_crc16_ccitt_xor [0x07; 0x00; 0x00; 0x00; 0x00]
           [0x00; 0x55; 0x55; 0x12; 0x34] eq_refl).
Defined.

End CrcLinearFacts.

(** * Further properties: the traffic of the operations and of the test program *)

Module SessionFacts.
Import Crc FramerFacts HashFacts StateFacts.

Lemma emits_ret {A} P (a : A) : emits P (ret a).
Proof. intros st. exists []. rewrite app_nil_r. split; [reflexivity|constructor]. Qed.

Lemma emits_fail {A} P e : emits P (@fail A e).
Proof. intros st. exists []. rewrite app_nil_r. split; [reflexivity|constructor]. Qed.

Lemma emits_pure {A} P (r : result A) : emits P (fun st => (r, st)).
Proof. intros st. exists []. rewrite app_nil_r. split; [reflexivity|constructor]. Qed.

Lemma emits_printf P line : emits P (printf line).
Proof. intros st. exists []. rewrite app_nil_r. split; [reflexivity|constructor]. Qed.

Lemma emits_ioctl (P : i2c_msg -> Prop) dev msg : P msg -> emits P (ioctl dev msg).
Proof.
  intros H st. exists [msg]. split; [reflexivity|]. constructor; [exact H|constructor].
Qed.

Lemma emits_bind {A B} P (m : M A) (k : A -> M B) :
  emits P m -> (forall a, emits P (k a)) -> emits P (bind m k).
Proof.
  intros Hm Hk st. unfold bind.
  destruct (Hm st) as (added1 & E1 & F1).
  destruct (m st) as [[a|e] st1]; cbn [snd] in *.
  - destruct (Hk a st1) as (added2 & E2 & F2).
    exists (added1 ++ added2). rewrite E2, E1, app_assoc.
    split; [reflexivity|]. apply Forall_app. split; assumption.
  - exists added1. split; assumption.
Qed.

Lemma emits_report_only {A} P (m : M A) : emits P m -> emits P (report_only m).
Proof. intros Hm st. exact (Hm st). Qed.

Create HintDb emits.

Ltac emits_step :=
  lazymatch goal with
  | |- emits _ (ret _) => apply emits_ret
  | |- emits _ (fail _) => apply emits_fail
  | |- emits _ (printf _) => apply emits_printf
  | |- emits _ (ioctl _ _) => apply emits_ioctl; solve [auto]
  | |- emits _ (report_only _) => apply emits_report_only
  | |- emits _ (bind _ _) => apply emits_bind; [|intros ?]
  | |- emits _ (if ?c then _ else _) => destruct c
  | |- emits _ (match ?x with Some _ => _ | None => _ end) => destruct x
  | |- emits _ (match ?x with IoctlDone _ => _ | IoctlFailed _ => _ end) =>
      destruct x
  | |- emits _ (fun st => (_, st)) => apply emits_pure
  | |- emits _ _ => first [solve [auto with emits] | progress cbv beta zeta]
  end.

Ltac emits_all := repeat emits_step.

Section Traffic.

Variable P : i2c_msg -> Prop.
Hypothesis command_frames :
  forall frame, P (I2cWrite (ATECC_WORDADDR_CMD :: frame)).
Hypothesis reads : forall len, P (I2cRead len).
Hypothesis wake_token : P (I2cWrite [ATECC_WAKE_TOKEN]).

Lemma send_atecc_cmd_emits dev opcode param1 param2 data data_len :
  emits P (send_atecc_cmd dev opcode param1 param2 data data_len).
Proof. unfold send_atecc_cmd, copy_payload. emits_all. Qed.
Hint Resolve send_atecc_cmd_emits : emits.

Lemma debug_crc_mismatch_emits data length expected_crc :
  emits P (debug_crc_mismatch data length expected_crc).
Proof. unfold debug_crc_mismatch. emits_all. Qed.
Hint Resolve debug_crc_mismatch_emits : emits.

Lemma receive_atecc_response_emits dev buffer length full_response :
  emits P (receive_atecc_response dev buffer length full_response).
Proof. unfold receive_atecc_response. emits_all. Qed.
Hint Resolve receive_atecc_response_emits : emits.

Lemma atecc_wake_emits dev : emits P (atecc_wake dev).
Proof. unfold atecc_wake. emits_all. Qed.
Hint Resolve atecc_wake_emits : emits.

Lemma genrate_random_number_in_range_emits dev min max :
  emits P (genrate_random_number_in_range dev min max).
Proof. unfold genrate_random_number_in_range. emits_all. Qed.
Hint Resolve genrate_random_number_in_range_emits : emits.

Lemma generate_random_value_emits dev length :
  emits P (generate_random_value dev length).
Proof. unfold generate_random_value. emits_all. Qed.
Hint Resolve generate_random_value_emits : emits.

Lemma read_slot_config_emits dev slot : emits P (read_slot_config dev slot).
Proof. unfold read_slot_config. emits_all. Qed.
Hint Resolve read_slot_config_emits : emits.

Lemma read_config_blocks_emits dev remaining :
  forall block config_data,
    emits P (read_config_blocks dev remaining block config_data).
Proof.
  induction remaining as [|remaining IH]; intros block config_data;
    cbn [read_config_blocks]; emits_all.
Qed.

Lemma read_config_zone_emits dev : emits P (read_config_zone dev).
Proof. apply read_config_blocks_emits. Qed.
Hint Resolve read_config_zone_emits : emits.

Lemma check_lock_status_emits dev : emits P (check_lock_status dev).
Proof. unfold check_lock_status. emits_all. Qed.
Hint Resolve check_lock_status_emits : emits.

Lemma receive_aes_response_emits dev fd output_data :
  emits P (receive_aes_response dev fd output_data).
Proof. unfold receive_aes_response. emits_all. Qed.
Hint Resolve receive_aes_response_emits : emits.

Lemma send_aes_command_emits dev fd mode key_slot input_data :
  emits P (send_aes_command dev fd mode key_slot input_data).
Proof. unfold send_aes_command. emits_all. Qed.
Hint Resolve send_aes_command_emits : emits.

Lemma aes_encrypt_emits dev fd plaintext ciphertext key_slot :
  emits P (aes_encrypt dev fd plaintext ciphertext key_slot).
Proof. unfold aes_encrypt. emits_all. Qed.
Hint Resolve aes_encrypt_emits : emits.

Lemma aes_decrypt_emits dev fd ciphertext plaintext key_slot :
  emits P (aes_decrypt dev fd ciphertext plaintext key_slot).
Proof. unfold aes_decrypt. emits_all. Qed.
Hint Resolve aes_decrypt_emits : emits.

Lemma sha256_response_emits dev output : emits P (sha256_response dev output).
Proof. unfold sha256_response. emits_all. Qed.
Hint Resolve sha256_response_emits : emits.

Lemma sha256_update_loop_emits dev data data_len :
  forall (n : nat) offset,
    (Z.to_nat (uint64 (data_len - offset)) < n)%nat ->
    emits P (sha256_update_loop dev data data_len offset).
Proof.
  induction n as [|n IH]; intros offset Hn; [lia|].
  intros st. rewrite sha256_update_loop_step.
  destruct (Z_le_dec 64 (uint64 (data_len - offset))) as [Hle|_].
  - destruct (send_atecc_cmd_emits dev ATECC_CMD_SHA 1 0 (ptr_add data offset)
                (uint8 64) st) as (added1 & E1 & F1).
    destruct (send_atecc_cmd dev ATECC_CMD_SHA 1 0 (ptr_add data offset)
                (uint8 64) st) as [[[]|e] st1]; cbn [snd] in *.
    + assert (Hdec : uint64 (data_len - uint64 (offset + 64))
                     = uint64 (data_len - offset) - 64).
      { unfold uint64 in *.
        rewrite Zminus_mod_idemp_r.
        replace (data_len - (offset + 64)) with (data_len - offset - 64)
          by lia.
        rewrite <- Zminus_mod_idemp_l.
        pose proof (Z.mod_pos_bound (data_len - offset) (2 ^ 64) ltac:(lia)).
        apply Z.mod_small. lia. }
      destruct (IH (uint64 (offset + 64)) ltac:(lia) st1)
        as (added2 & E2 & F2).
      exists (added1 ++ added2). rewrite E2, E1, app_assoc.
      split; [reflexivity|]. apply Forall_app. split; assumption.
    + exists added1. split; assumption.
  - exists []. rewrite app_nil_r. split; [reflexivity|constructor].
Qed.

Lemma compute_sha256_emits dev data data_len output :
  emits P (compute_sha256 dev data data_len output).
Proof.
  unfold compute_sha256. emits_all.
  intros st. eapply sha256_update_loop_emits. apply Nat.lt_succ_diag_r.
Qed.
Hint Resolve compute_sha256_emits : emits.

Lemma read_atecc_serial_number_emits dev serial_number :
  emits P (fun st =>
             match read_atecc_serial_number dev (Some serial_number) st with
             | ((Ok _, Some after), st') => (Ok after, st')
             | ((Ok _, None), st') => (Ok serial_number, st')
             | ((Err e, _), st') => (Err e, st')
             end).
Proof.
  unfold read_atecc_serial_number. cbv zeta.
  match goal with
  | |- emits _ (fun st => match (let (r, st') := ?body st in _) with _ => _ end) =>
      assert (Hbody : emits P body) by emits_all;
      set (b := body) in *
  end.
  intros st. destruct (Hbody st) as (added & E & F).
  destruct (b st) as [[[]|e] st1]; exists added; split; assumption.
Qed.
Hint Resolve read_atecc_serial_number_emits : emits.

Lemma main_steps_emits dev fd : emits P (main_steps dev fd).
Proof.
  unfold main_steps. cbv zeta.
  apply emits_bind; [apply atecc_wake_emits|intros _].
  apply emits_bind; [apply read_atecc_serial_number_emits|intros serial].
  apply emits_bind; [apply genrate_random_number_in_range_emits|intros _].
  apply emits_bind; [apply generate_random_value_emits|intros _].
  apply emits_bind; [apply compute_sha256_emits|intros _].
  apply emits_bind;
    [apply emits_report_only, read_slot_config_emits|intros _].
  apply emits_bind; [apply read_config_zone_emits|intros _].
  apply emits_bind; [apply check_lock_status_emits|intros _].
  apply emits_bind; [apply aes_encrypt_emits|intros ciphertext].
  apply emits_bind; [apply aes_decrypt_emits|intros _].
  apply emits_ret.
Qed.

End Traffic.

Lemma bind_ok {A B} (m : M A) (k : A -> M B) st b st' :
  bind m k st = (Ok b, st') ->
  exists a st1, m st = (Ok a, st1) /\ k a st1 = (Ok b, st').
Proof.
  unfold bind. destruct (m st) as [[a|e] st1]; [|discriminate].
  intros H. exists a, st1. split; [reflexivity|exact H].
Qed.

Lemma grows {A} (m : M A) st r st' :
  emits (fun _ => True) m -> m st = (r, st') ->
  exists added, wire st' = wire st ++ added.
Proof.
  intros Hm Hrun. destruct (Hm st) as (added & E & _).
  rewrite Hrun in E. exists added. exact E.
Qed.

Ltac any_traffic := intros; exact I.

Lemma atecc_sleep_wire dev st :
  wire (snd (atecc_sleep dev st)) = wire st ++ [sleep_write].
Proof.
  unfold atecc_sleep, bind, ioctl. cbv beta iota zeta.
  destruct (dev _); reflexivity.
Qed.

(** With a zero length the hash is the one of the empty message, whatever
    the data pointer: start, end without payload, read. *)
Lemma compute_sha256_zero_length dev data output st digest st' :
  compute_sha256 dev data 0 (Some output) st = (Ok digest, st') ->
  wire st'
  = wire st ++ [phase_write (0, 0, []); phase_write (2, 0, []); I2cRead 35].
Proof.
  unfold compute_sha256.
  replace ((match data with None => true | Some _ => false end)
           && negb (0 =? 0)) with false by (destruct data; reflexivity).
  intros H.
  apply bind_ok in H as ([] & st1 & Hstart & H).
  apply bind_ok in H as (offset & st2 & Hloop & H).
  rewrite sha256_update_loop_step in Hloop.
  change (uint64 (0 - 0)) with 0 in Hloop.
  destruct (Z_le_dec 64 0) as [Hle|_]; [lia|].
  assert (Hinj : forall (x y : result Z * state), x = y ->
                 fst x = fst y /\ snd x = snd y) by (intros; subst; auto).
  apply Hinj in Hloop. cbn [fst snd] in Hloop. destruct Hloop as (Ho & Hs).
  assert (Hoff : offset = 0) by congruence. subst offset st2.
  cbv zeta in H. change (uint8 (uint64 (0 - 0))) with 0 in H.
  change (0 <? 0) with false in H. cbv iota in H.
  change (uint16 0) with 0 in H.
  apply bind_ok in H as ([] & st3 & Hend & H).
  pose proof (sha256_response_wire dev output st3) as Hread.
  rewrite H in Hread. cbn [snd] in Hread.
  pose proof (f_equal snd Hstart) as Hw1.
  pose proof (f_equal snd Hend) as Hw3.
  rewrite send_atecc_cmd_no_payload in Hw1, Hw3.
  cbn [snd] in Hw1, Hw3. subst st1 st3.
  rewrite Hread.
  unfold issued. cbn [wire]. rewrite <- !app_assoc. reflexivity.
Qed.

(** The serial number [main] holds after the read: the zeros it was
    initialised with. *)
Lemma main_serial_number dev st serial st' :
  match read_atecc_serial_number dev
          (Some (repeat 0 (Z.to_nat ATECC_SERIAL_NUMBER_SIZE))) st with
  | ((Ok _, Some after), st1) => (Ok after, st1)
  | ((Ok _, None), st1) =>
      (Ok (repeat 0 (Z.to_nat ATECC_SERIAL_NUMBER_SIZE)), st1)
  | ((Err e, _), st1) => (Err e, st1)
  end = (Ok serial, st') ->
  serial = repeat 0 (Z.to_nat ATECC_SERIAL_NUMBER_SIZE).
Proof.
  unfold read_atecc_serial_number. cbv zeta.
  match goal with
  | |- match (let (_, _) := ?body st in _) with _ => _ end = _ -> _ =>
      destruct (body st) as [[[]|e] s1]
  end; congruence.
Qed.

(** X13. Whenever the test program exits with status 0, the hash it asked
    the device for was the hash of the empty message, whatever serial
    number the device returned: the wire holds the start phase directly
    followed by the end phase without payload and the 35-byte read.  The
    serial number read just before never reaches [main]'s buffer, whose
    string length is 0. *)
Theorem main_hashes_empty_message :
  forall dev fd slave st,
    fst (main dev fd slave st) = 0 ->
    exists before after,
      wire (snd (main dev fd slave st))
      = wire st ++ before
        ++ [phase_write (0, 0, []); phase_write (2, 0, []); I2cRead 35]
        ++ after.
Proof.
  intros dev fd slave st. unfold main.
  destruct (fd <? 0); [discriminate|].
  destruct (slave <? 0); [discriminate|].
  destruct (main_steps dev fd st) as [[[]|e] st'] eqn:Hsteps;
    [|discriminate].
  intros _. unfold report_only. cbn [snd].
  rewrite atecc_sleep_wire.
  unfold main_steps in Hsteps. cbv zeta in Hsteps.
  apply bind_ok in Hsteps as ([] & st1 & Hwake & Hsteps).
  apply bind_ok in Hsteps as (serial & st2 & Hserial & Hsteps).
  apply bind_ok in Hsteps as ([] & st3 & Hrange & Hsteps).
  apply bind_ok in Hsteps as (value & st4 & Hvalue & Hsteps).
  apply bind_ok in Hsteps as (digest & st5 & Hsha & Hrest).
  pose proof (main_serial_number dev st1 serial st2 Hserial) as Hzero.
  subst serial.
  change (strlen (repeat 0 (Z.to_nat ATECC_SERIAL_NUMBER_SIZE))) with 0
    in Hsha.
  apply compute_sha256_zero_length in Hsha.
  destruct (grows _ _ _ _ ltac:(apply atecc_wake_emits; any_traffic) Hwake)
    as (a1 & E1).
  destruct (grows _ _ _ _
              ltac:(apply (read_atecc_serial_number_emits (fun _ => True));
                    any_traffic) Hserial) as (a2 & E2).
  destruct (grows _ _ _ _
              ltac:(apply genrate_random_number_in_range_emits; any_traffic)
              Hrange) as (a3 & E3).
  destruct (grows _ _ _ _
              ltac:(apply generate_random_value_emits; any_traffic)
              Hvalue) as (a4 & E4).
  assert (Hafter : emits (fun _ : i2c_msg => True)
            (report_only (read_slot_config dev 3) ;;;
             read_config_zone dev ;;;
             check_lock_status dev ;;;
             ciphertext <-
               aes_encrypt dev fd
                 (Some [0x48; 0x65; 0x6C; 0x6C; 0x6F; 0x2C; 0x20; 0x41;
                        0x45; 0x53; 0x21; 0x00; 0x00; 0x00; 0x00; 0x00])
                 (Some (repeat 0 16%nat)) 3 ;;
             aes_decrypt dev fd (Some ciphertext) (Some (repeat 0 16%nat)) 3 ;;;
             ret tt)).
  { apply emits_bind;
      [apply emits_report_only, read_slot_config_emits; any_traffic|intros _].
    apply emits_bind; [apply read_config_zone_emits; any_traffic|intros _].
    apply emits_bind; [apply check_lock_status_emits; any_traffic|intros _].
    apply emits_bind; [apply aes_encrypt_emits; any_traffic|intros c].
    apply emits_bind; [apply aes_decrypt_emits; any_traffic|intros _].
    apply emits_ret. }
  destruct (grows _ _ _ _ Hafter Hrest) as (a5 & E5).
  exists (a1 ++ a2 ++ a3 ++ a4), (a5 ++ [sleep_write]).
  rewrite E5, Hsha, E4, E3, E2, E1, <- !app_assoc. reflexivity.
Qed.

Lemma main_hashes_empty_message_witness :
  fst (main bench_device 3 0 (mkState [] [])) = 0
  /\ exists before after,
       wire (snd (main bench_device 3 0 (mkState [] [])))
       = wire (mkState [] []) ++ before
         ++ [phase_write (0, 0, []); phase_write (2, 0, []); I2cRead 35]
         ++ after.
Proof.
  split; [vm_compute; reflexivity|].
  apply main_hashes_empty_message. vm_compute. reflexivity.
Defined.

(** X14. The test program puts the device to sleep exactly when it exits
    with status 0, and then as its last transaction; on every failure exit
    (status 1) no sleep command has been written, so the device is left
    awake.  Whatever happens the program only adds transactions. *)
Theorem main_sleeps_on_success_only :
  forall dev fd slave st,
    let run := main dev fd slave st in
    exists added,
      wire (snd run) = wire st ++ added
      /\ (fst run = 0 \/ fst run = 1)
      /\ (fst run = 0 ->
          exists body,
            added = body ++ [sleep_write] /\ ~ In sleep_write body)
      /\ (fst run = 1 -> ~ In sleep_write added).
Proof.
  intros dev fd slave st. cbv zeta. unfold main.
  assert (Hnone : exists added : list i2c_msg,
            wire st = wire st ++ added
            /\ (1 = 0 \/ 1 = 1)
            /\ (1 = 0 ->
                exists body,
                  added = body ++ [sleep_write] /\ ~ In sleep_write body)
            /\ (1 = 1 -> ~ In sleep_write added)).
  { exists []. rewrite app_nil_r.
    repeat split; auto; try discriminate. }
  destruct (fd <? 0); [exact Hnone|].
  destruct (slave <? 0); [exact Hnone|].
  clear Hnone.
  assert (Hsteps : emits (fun msg => msg <> sleep_write) (main_steps dev fd)).
  { apply main_steps_emits; unfold sleep_write; intros; discriminate. }
  destruct (Hsteps st) as (added & E & F).
  rewrite Forall_forall in F.
  assert (Hawake : ~ In sleep_write added).
  { intros Hin. exact (F _ Hin eq_refl). }
  destruct (main_steps dev fd st) as [[[]|e] st']; cbn [snd] in E.
  - unfold report_only. cbn [fst snd]. rewrite atecc_sleep_wire, E.
    exists (added ++ [sleep_write]). rewrite app_assoc.
    repeat split; auto; try discriminate.
    intros _. exists added. split; [reflexivity|exact Hawake].
  - cbn [fst snd]. exists added.
    repeat split; auto; try discriminate.
Qed.

End SessionFacts.
